(** * assemblyfire: clustering core (src/assemblyfire/clustering.py)

    A shallow embedding of the clustering routines of assemblyfire and the
    properties its specification states about them.

    Conventions.
    - numpy [float64] values are Rocq's primitive binary64 floats, so NaN,
      infinities and comparisons behave as in the program;
    - numpy integer arrays are [list Z], Python/numpy sizes and counts are
      [nat];
    - a Python exception is a [Raise e] result; nothing is returned with it;
    - routines of scipy / scikit-learn / numpy.random that the module calls
      (pdist, linkage, fcluster, curve_fit, percentile, ...) are fields of the
      interface [Lib]; the code of clustering.py is translated around them. *)

From Stdlib Require Import String Ascii ZArith Lia Bool PeanoNat List Permutation.
From Stdlib Require Import DecimalString.
From Stdlib Require Import PrimFloat FloatOps SpecFloat.
From Stdlib Require Uint63.
From Stdlib Require FloatAxioms.
From Stdlib Require DecimalZ.
Import ListNotations.

(* Decimal literals are read as the nearest binary64 value, as Python does. *)
Set Warnings "-inexact-float".

(* ===================================================================== *)
(** * Exceptions and results *)
(* ===================================================================== *)

Inductive exn : Type :=
| ValueError (msg : string)
| AssertionError (msg : string)
| RuntimeError (msg : string)
| IndexError (msg : string).

Inductive result (A : Type) : Type :=
| Ok (a : A)
| Raise (e : exn).
Arguments Ok {A} a.
Arguments Raise {A} e.

Definition bind {A B : Type} (r : result A) (k : A -> result B) : result B :=
  match r with
  | Ok a => k a
  | Raise e => Raise e
  end.

Notation "x <- c ;; k" := (bind c (fun x => k))
  (at level 61, c at next level, right associativity).

(** Python's ["%i" % n]. *)
Definition fmt_i (n : Z) : string := NilZero.string_of_int (Z.to_int n).

Definition of_option {A : Type} (o : option A) (e : exn) : result A :=
  match o with
  | Some a => Ok a
  | None => Raise e
  end.

(** A loop that builds a list and stops at the first exception. *)
Fixpoint mapM {A B : Type} (f : A -> result B) (a : list A) : result (list B) :=
  match a with
  | [] => Ok []
  | x :: a' => y <- f x ;; ys <- mapM f a' ;; Ok (y :: ys)
  end.

Definition empty_min : exn :=
  ValueError "zero-size array to reduction operation minimum which has no identity".
Definition empty_max : exn :=
  ValueError "zero-size array to reduction operation maximum which has no identity".
Definition empty_argmin : exn :=
  ValueError "attempt to get argmin of an empty sequence".
Definition empty_argmax : exn :=
  ValueError "attempt to get argmax of an empty sequence".

(* ===================================================================== *)
(** * numpy primitives used by the module *)
(* ===================================================================== *)

Module Np.

(** [np.unique(a, return_counts=True)]: the sorted distinct values of an
    integer array, each with its number of occurrences. *)
Fixpoint tally (x : Z) (acc : list (Z * nat)) : list (Z * nat) :=
  match acc with
  | [] => [(x, 1)]
  | (y, c) :: rest =>
      match (x ?= y)%Z with
      | Lt => (x, 1) :: (y, c) :: rest
      | Eq => (y, S c) :: rest
      | Gt => (y, c) :: tally x rest
      end
  end.

Definition unique_counts (a : list Z) : list (Z * nat) :=
  fold_right tally [] a.

(** [np.unique(a)] and the [counts] of [np.unique(a, return_counts=True)]. *)
Definition unique (a : list Z) : list Z := map fst (unique_counts a).
Definition counts (a : list Z) : list nat := map snd (unique_counts a).

(** [a[i:j]] for [0 <= i], [0 <= j] (Python clips both at [len a]). *)
Definition slice {A : Type} (a : list A) (i j : nat) : list A :=
  firstn (j - i) (skipn i a).

(** [a[mask]] for a boolean mask of the same length. *)
Fixpoint select {A : Type} (mask : list bool) (a : list A) : list A :=
  match mask, a with
  | b :: mask', x :: a' => if b then x :: select mask' a' else select mask' a'
  | _, _ => []
  end.

(** [np.min] of an integer array; [None] is numpy's [ValueError] on a
    zero-size array. *)
Definition min_nat (a : list nat) : option nat :=
  match a with
  | [] => None
  | x :: a' => Some (fold_left Nat.min a' x)
  end.

Definition max_nat (a : list nat) : option nat :=
  match a with
  | [] => None
  | x :: a' => Some (fold_left Nat.max a' x)
  end.

(** [np.arange(start, stop, -1)] on non-negative integers:
    [start, start-1, ..., stop+1]. *)
Definition arange_down (start stop : nat) : list nat :=
  rev (seq (S stop) (start - stop)).

(** [np.cumsum(a).tolist()]. *)
Fixpoint cumsum_from (acc : nat) (a : list nat) : list nat :=
  match a with
  | [] => []
  | x :: a' => (acc + x) :: cumsum_from (acc + x) a'
  end.
Definition cumsum (a : list nat) : list nat := cumsum_from 0 a.

End Np.

(* ===================================================================== *)
(** * Synapse clusters: [merge_clusters] *)
(* ===================================================================== *)

(** A boolean [nrows x ncols] array (synapses x raw clusters).  The routine
    only ever reads and replaces whole columns ([clusters[:, j]]), so the array
    is kept as the list of its columns; entry (r, j) is the r-th element of the
    j-th column, and only rows [r < nrows] belong to the array. *)
Record bmatrix : Type := { nrows : nat; columns : list (list bool) }.

Definition ncols (m : bmatrix) : nat := length (columns m).
Definition column (m : bmatrix) (j : nat) : list bool := nth j (columns m) [].
Definition cell (col : list bool) (r : nat) : bool := nth r col false.
Definition get (m : bmatrix) (r j : nat) : bool := cell (column m j) r.

(** [np.nonzero(m)]: the (row, column) indices of the true entries, in
    row-major order. *)
Definition nonzero (m : bmatrix) : list (Z * Z) :=
  flat_map
    (fun r => flat_map
       (fun j => if get m r j then [(Z.of_nat r, Z.of_nat j)] else [])
       (seq 0 (ncols m)))
    (seq 0 (nrows m)).

(** [len(np.unique(row_idx))]: the number of unique synapses. *)
Definition n_unique_synapses (m : bmatrix) : nat :=
  length (Np.unique (map fst (nonzero m))).

(** [_, counts = np.unique(col_idx, return_counts=True)]. *)
Definition synapses_per_cluster (m : bmatrix) : list nat :=
  Np.counts (map snd (nonzero m)).

(** The exit test of a threshold pass:
    [row_idx, _ = np.nonzero(clusters);
     _, counts = np.unique(row_idx, return_counts=True); np.sum(counts)]. *)
Definition clustered_synapse_count (m : bmatrix) : nat :=
  list_sum (Np.counts (map fst (nonzero m))).

(** [np.sum(clusters[:, [i]] & clusters[:, j], axis=0)] for one partner [j]. *)
Definition common_synapses (m : bmatrix) (i j : nat) : nat :=
  length (filter (fun r => get m r i && get m r j) (seq 0 (nrows m))).

(** One iteration of the body of [while i < (clusters.shape[1] - 1)]. *)
Definition merge_step (nsyns_th : nat) (st : nat * bmatrix) : nat * bmatrix :=
  let '(i, m) := st in
  let idx_partners := seq (i + 1) (ncols m - (i + 1)) in
  let matches := map (fun j => nsyns_th <? common_synapses m i j) idx_partners in
  if negb (existsb (fun b : bool => b) matches) then (i + 1, m)
  else
    let matched := Np.select matches idx_partners in
    (* clusters[:, i] = np.any(clusters[:, [i] + matched], axis=1) *)
    let merged :=
      map (fun r => existsb (fun j => get m r j) (i :: matched)) (seq 0 (nrows m)) in
    let column' := fun j => if j =? i then merged else column m j in
    (* clusters = clusters[:, ~np.in1d(range(clusters.shape[1]), matched)] *)
    let mask := map (fun j => negb (existsb (Nat.eqb j) matched)) (seq 0 (ncols m)) in
    let kept := Np.select mask (seq 0 (ncols m)) in
    (i + 1, {| nrows := nrows m; columns := map column' kept |}).

(** The [while] loop, with an explicit bound on the number of iterations;
    [None] means the bound was hit before the loop condition became false. *)
Fixpoint merge_pass (fuel : nat) (nsyns_th : nat) (st : nat * bmatrix)
  : option (nat * bmatrix) :=
  if fst st <? ncols (snd st) - 1 then
    match fuel with
    | 0 => None
    | S fuel' => merge_pass fuel' nsyns_th (merge_step nsyns_th st)
    end
  else Some st.

(** [for nsyns_th in np.arange(min_nsyns-1, 1, -1): ... break]. *)
Fixpoint threshold_loop (fuel : nat) (ths : list nat) (nsyns : nat) (m : bmatrix)
  : option bmatrix :=
  match ths with
  | [] => Some m
  | nsyns_th :: ths' =>
      match merge_pass fuel nsyns_th (0, m) with
      | None => None
      | Some (_, m') =>
          if clustered_synapse_count m' =? nsyns then Some m'
          else threshold_loop fuel ths' nsyns m'
      end
  end.

(** [int(nsyns / min_nsyns)]: the quotient of two array sizes; the float
    division followed by truncation is the integer quotient for every size an
    array can have (below 2^53). *)
Definition nclusts_ub (nsyns min_nsyns : nat) : nat := nsyns / min_nsyns.

Definition merge_assert_msg (n ub : nat) : string :=
  ("After merging there are still more clusters (" ++ fmt_i (Z.of_nat n)
   ++ ")than the theoretical upper bound: " ++ fmt_i (Z.of_nat ub))%string.

Definition merge_clusters_fuel (fuel : nat) (clusters : bmatrix)
  : option (result bmatrix) :=
  let nsyns := n_unique_synapses clusters in
  match Np.min_nat (synapses_per_cluster clusters) with
  | None => Some (Raise empty_min)
  | Some min_nsyns =>
      let ub := nclusts_ub nsyns min_nsyns in
      match threshold_loop fuel (Np.arange_down (min_nsyns - 1) 1) nsyns clusters with
      | None => None
      | Some m =>
          if ncols m <=? ub then Some (Ok m)
          else Some (Raise (AssertionError (merge_assert_msg (ncols m) ub)))
      end
  end.

(** A pass visits each column at most once, so the column count of the input
    bounds every pass. *)
Definition merge_clusters (clusters : bmatrix) : option (result bmatrix) :=
  merge_clusters_fuel (ncols clusters) clusters.

(** Example arrays. *)
Definition col_of (n : nat) (rows : list nat) : list bool :=
  map (fun r => existsb (Nat.eqb r) rows) (seq 0 n).

(** Two raw clusters of 3 and 6 synapses that share synapse 2. *)
Definition overlapping_pair : bmatrix :=
  {| nrows := 8; columns := [col_of 8 [0; 1; 2]; col_of 8 [2; 3; 4; 5; 6; 7]] |}.

(** Three raw clusters of 5 synapses; the first two share 4 synapses. *)
Definition three_raw_clusters : bmatrix :=
  {| nrows := 11;
     columns := [col_of 11 [0; 1; 2; 3; 4]; col_of 11 [1; 2; 3; 4; 5];
                 col_of 11 [6; 7; 8; 9; 10]] |}.

Definition two_merged_clusters : bmatrix :=
  {| nrows := 11;
     columns := [col_of 11 [0; 1; 2; 3; 4; 5]; col_of 11 [6; 7; 8; 9; 10]] |}.

(* ===================================================================== *)
(** * float64 arrays *)
(* ===================================================================== *)

(** A 2-d float array, as the list of its rows. *)
Definition fmat : Type := list (list float).

Module Fl.

(** Conversion of an array size to float64 (exact below 2^53). *)
Definition of_nat (n : nat) : float := PrimFloat.of_uint63 (Uint63.of_Z (Z.of_nat n)).

(** Python's [int(x)]: truncation toward zero; [None] for NaN and the
    infinities, on which Python raises. *)
Definition py_int (x : float) : option Z :=
  match Prim2SF x with
  | S754_zero _ => Some 0%Z
  | S754_finite s m e =>
      let mag := if (0 <=? e)%Z then (Z.pos m * 2 ^ e)%Z
                 else (Z.pos m / 2 ^ (- e))%Z in
      Some (if s then (- mag)%Z else mag)
  | S754_infinity _ => None
  | S754_nan => None
  end.

(** [np.maximum] / [np.minimum] of two floats: a NaN operand wins. *)
Definition max2 (a b : float) : float :=
  if PrimFloat.is_nan a then a
  else if PrimFloat.is_nan b then b
  else if PrimFloat.ltb a b then b else a.
Definition min2 (a b : float) : float :=
  if PrimFloat.is_nan a then a
  else if PrimFloat.is_nan b then b
  else if PrimFloat.ltb b a then b else a.

(** [np.max] / [np.min] of a float array; [None] is numpy's [ValueError] on
    a zero-size array. *)
Definition max (a : list float) : option float :=
  match a with
  | [] => None
  | x :: a' => Some (fold_left max2 a' x)
  end.
Definition min (a : list float) : option float :=
  match a with
  | [] => None
  | x :: a' => Some (fold_left min2 a' x)
  end.

(** [np.argmax] / [np.argmin]: index of the first maximum (minimum); the
    first NaN, if there is one, counts as the extremum. *)
Fixpoint argmax_from (best_i : nat) (best : float) (i : nat) (a : list float) : nat :=
  match a with
  | [] => best_i
  | x :: a' =>
      if PrimFloat.is_nan best then best_i
      else if PrimFloat.is_nan x || PrimFloat.ltb best x
           then argmax_from i x (S i) a'
      else argmax_from best_i best (S i) a'
  end.
Definition argmax (a : list float) : option nat :=
  match a with
  | [] => None
  | x :: a' => Some (argmax_from 0 x 1 a')
  end.

Fixpoint argmin_from (best_i : nat) (best : float) (i : nat) (a : list float) : nat :=
  match a with
  | [] => best_i
  | x :: a' =>
      if PrimFloat.is_nan best then best_i
      else if PrimFloat.is_nan x || PrimFloat.ltb x best
           then argmin_from i x (S i) a'
      else argmin_from best_i best (S i) a'
  end.
Definition argmin (a : list float) : option nat :=
  match a with
  | [] => None
  | x :: a' => Some (argmin_from 0 x 1 a')
  end.

(** [np.sort] of a float array: ascending, NaN last. *)
Fixpoint insert (x : float) (a : list float) : list float :=
  match a with
  | [] => [x]
  | y :: a' =>
      if PrimFloat.is_nan y || PrimFloat.leb x y then x :: y :: a'
      else y :: insert x a'
  end.
Definition sort (a : list float) : list float := fold_right insert [] a.

(** [np.sum] of a float64 array as numpy's add reduction computes it over
    contiguous data: the result starts at 0 and the entries are added to it by
    the pairwise routine, in one pass over the array.  That routine is a
    plain loop for fewer than 8 entries; for up to 128 entries it keeps eight
    running sums ([r[j] += a[i + j]]), combines them as a tree and adds what
    is left over one by one; a longer array is cut in two, the first part
    half the length rounded down to a multiple of 8, and the sums of the two
    parts are added. *)
Definition add8 (r x : list float) : list float :=
  map (fun '(a, b) => (a + b)%float) (combine r x).

Fixpoint accumulate8 (groups : nat) (r rest : list float) : list float * list float :=
  match groups with
  | 0 => (r, rest)
  | S groups' => accumulate8 groups' (add8 r (firstn 8 rest)) (skipn 8 rest)
  end.

Definition block_sum (a : list float) : float :=
  let '(r, rest) := accumulate8 (length a / 8 - 1) (firstn 8 a) (skipn 8 a) in
  let r := fun j : nat => nth j r 0%float in
  let res := (((r 0%nat + r 1%nat) + (r 2%nat + r 3%nat))
              + ((r 4%nat + r 5%nat) + (r 6%nat + r 7%nat)))%float in
  fold_left PrimFloat.add rest res.

(** [fuel] bounds the depth of the halving; the length of the array is
    always enough. *)
Fixpoint pairwise_sum (fuel : nat) (a : list float) {struct fuel} : float :=
  let n := length a in
  if n <? 8 then fold_left PrimFloat.add a 0%float
  else if n <=? 128 then block_sum a
  else
    match fuel with
    | 0 => 0%float
    | S fuel' =>
        let n2 := n / 2 - (n / 2) mod 8 in
        (pairwise_sum fuel' (firstn n2 a) + pairwise_sum fuel' (skipn n2 a))%float
    end.

Definition sum (a : list float) : float := (0 + pairwise_sum (length a) a)%float.

(** [np.mean]: the sum over the number of entries; the mean of an empty array
    is NaN (0/0), as in numpy. *)
Definition mean (a : list float) : float := (sum a / of_nat (length a))%float.

(** [np.nanmean]: the NaN entries are replaced by 0, the array is summed, and
    the sum is divided by the number of entries that were not NaN. *)
Definition nanmean (a : list float) : float :=
  let arr := map (fun x => if PrimFloat.is_nan x then 0%float else x) a in
  let cnt := length (filter (fun x => negb (PrimFloat.is_nan x)) a) in
  (sum arr / of_nat cnt)%float.

(** Entry (i, j) of a 2-d array. *)
Definition get (m : fmat) (i j : nat) : float := nth j (nth i m []) nan.

(** [np.max(m)] of a 2-d array. *)
Definition max_all (m : fmat) : option float := max (concat m).

(** [np.fill_diagonal(m, v)]. *)
Definition fill_diagonal (m : fmat) (v : float) : fmat :=
  map (fun '(i, row) => map (fun '(j, x) => if i =? j then v else x)
                            (combine (seq 0 (length row)) row))
      (combine (seq 0 (length m)) m).

(** [m[i:j, i:j] = v]. *)
Definition fill_block (m : fmat) (i j : nat) (v : float) : fmat :=
  map (fun '(r, row) =>
         map (fun '(c, x) =>
                if (i <=? r) && (r <? j) && (i <=? c) && (c <? j) then v else x)
             (combine (seq 0 (length row)) row))
      (combine (seq 0 (length m)) m).

End Fl.

(* ===================================================================== *)
(** * Library routines *)
(* ===================================================================== *)

(** The routines of scipy, scikit-learn and numpy that clustering.py calls
    and that are not part of the module itself.  Each of them can raise. *)
Class Lib : Type := {
  (** the linkage array of [scipy.cluster.hierarchy.linkage] *)
  linkage_matrix : Type;
  (** [pdist(X, metric)] on a boolean array, condensed distances *)
  pdist : list (list bool) -> string -> result (list float);
  (** [squareform] on a condensed vector, and on a square array *)
  squareform : list float -> result fmat;
  squareform_inv : fmat -> result (list float);
  (** [linkage(cond_dists, method)] *)
  linkage : list float -> string -> result linkage_matrix;
  (** [fcluster(linkage_matrix, n, criterion="maxclust")] *)
  fcluster : linkage_matrix -> nat -> result (list Z);
  silhouette_score : fmat -> list Z -> result float;
  davies_bouldin_score : fmat -> list Z -> result float;
  silhouette_samples : fmat -> list Z -> result (list float);
  (** [pairwise_distances(x, metric="correlation", force_all_finite=False)] *)
  pairwise_distances_correlation : fmat -> result fmat;
  (** [cdist(x, y, metric="correlation")] *)
  cdist_correlation : fmat -> fmat -> result fmat;
  (** [np.percentile(a, q)] of a 1-d array *)
  percentile : list float -> float -> result float;
  (** [curve_fit(_fn, tmp_idx, gammas)]: [popt] and the diagonal of [pcov] *)
  curve_fit_line :
    list float -> list float -> result ((float * float) * (float * float));
  (** [t.ppf(q, dof)] *)
  t_ppf : float -> Z -> float;
  (** [squareform(pdist(matrix, metric="euclidean"))] *)
  euclidean_dists : fmat -> result fmat
}.

(* ===================================================================== *)
(** * Consensus clustering: [cluster_assemblies] *)
(* ===================================================================== *)

(** [zip(n_assemblies_cum[:-1], n_assemblies_cum[1:])]: the row range of each
    seed. *)
Definition seed_blocks (n_assemblies_cum : list nat) : list (nat * nat) :=
  combine (removelast n_assemblies_cum) (tl n_assemblies_cum).

Definition _check_seed_separation (clusters : list Z) (n_assemblies_cum : list nat)
  : bool :=
  forallb
    (fun '(i, j) =>
       (* return False if (counts > 1).any() *)
       negb (existsb (fun c => 1 <? c) (Np.counts (Np.slice clusters i j))))
    (seed_blocks n_assemblies_cum).

(** The array [dists] is changed in place; the changed array is returned next
    to the condensed form. *)
Definition _update_block_diagonal_dists {L : Lib} (dists : fmat)
    (n_assemblies_cum : list nat) : result (fmat * list float) :=
  match Fl.max_all dists with
  | None => Raise empty_max
  | Some mx =>
      let inf_dist := (mx * 5)%float in
      let dists1 :=
        fold_left (fun d '(i, j) => Fl.fill_block d i j inf_dist)
                  (seed_blocks n_assemblies_cum) dists in
      let dists2 := Fl.fill_diagonal dists1 0%float in
      cond <- squareform_inv dists2 ;;
      Ok (dists2, cond)
  end.

(** [range(min_n_clusts, max_n_clusts+1)]. *)
Definition n_clusts_range (min_n_clusts max_n_clusts : nat) : list nat :=
  seq min_n_clusts (max_n_clusts + 1 - min_n_clusts).

(** The scoring loop: the valid cluster counts with their scores. *)
Fixpoint score_counts {L : Lib} (lm : linkage_matrix) (dists : fmat)
    (n_assemblies_cum : list nat) (ns : list nat)
  : result (list nat * list float * list float) :=
  match ns with
  | [] => Ok ([], [], [])
  | n :: ns' =>
      clusters <- fcluster lm n ;;
      if _check_seed_separation clusters n_assemblies_cum then
        ss <- silhouette_score dists clusters ;;
        db <- davies_bouldin_score dists clusters ;;
        rest <- score_counts lm dists n_assemblies_cum ns' ;;
        let '(valid_nclusts, silhouette_scores, DB_scores) := rest in
        Ok (n :: valid_nclusts, ss :: silhouette_scores, db :: DB_scores)
      else score_counts lm dists n_assemblies_cum ns'
  end.

Definition seed_separation_msg (min_n_clusts max_n_clusts : nat) : string :=
  ("None of the cluster numbers in [" ++ fmt_i (Z.of_nat min_n_clusts) ++ ", "
   ++ fmt_i (Z.of_nat max_n_clusts) ++ "] fulfill the seed separation criteria")%string.

(** [a[i]] for a Python list and a non-negative index. *)
Definition list_index (a : list nat) (i : nat) : result nat :=
  match nth_error a i with
  | Some x => Ok x
  | None => Raise (IndexError "list index out of range")
  end.

(** The choice of [n_clust] among the valid counts. *)
Definition select_n_clust (n_method : string) (min_n_clusts max_n_clusts : nat)
    (valid_nclusts : list nat) (silhouette_scores DB_scores : list float)
  : result nat :=
  if 0 <? length valid_nclusts then
    if (n_method =? "min")%string then list_index valid_nclusts 0
    else if (n_method =? "ss")%string then
      i <- of_option (Fl.argmax silhouette_scores) empty_argmax ;;
      list_index valid_nclusts i
    else if (n_method =? "DB")%string then
      i <- of_option (Fl.argmin DB_scores) empty_argmin ;;
      list_index valid_nclusts i
    else Raise (AssertionError
      "Only silhouette scores and Davies-Bouldin index are supported atm.")
  else Raise (RuntimeError (seed_separation_msg min_n_clusts max_n_clusts)).

Definition cluster_assemblies {L : Lib} (assemblies : list (list bool))
    (n_assemblies : list nat) (distance_metric linkage_method : string)
    (update_block_diagonals : bool) (n_method : string)
  : result (fmat * list Z * (linkage_matrix * option (list float))) :=
  cond_dists0 <- pdist assemblies distance_metric ;;
  dists0 <- squareform cond_dists0 ;;
  let sim_matrix := map (map (fun d => (1 - d)%float)) dists0 in
  let n_assemblies_cum := 0 :: Np.cumsum n_assemblies in
  dc <- (if update_block_diagonals
         then _update_block_diagonal_dists dists0 n_assemblies_cum
         else Ok (dists0, cond_dists0)) ;;
  let '(dists, cond_dists) := dc in
  min_n_clusts <- of_option (Np.max_nat n_assemblies) empty_max ;;
  let total := last n_assemblies_cum 0 in
  let max_n_clusts := if 20 <=? total then 20 else total in
  lm <- linkage cond_dists linkage_method ;;
  scored <- score_counts lm dists n_assemblies_cum
              (n_clusts_range min_n_clusts max_n_clusts) ;;
  let '(valid_nclusts, silhouette_scores, DB_scores) := scored in
  n_clust <- select_n_clust n_method min_n_clusts max_n_clusts
               valid_nclusts silhouette_scores DB_scores ;;
  clusters <- fcluster lm n_clust ;;
  silhouettes <- (if (n_method =? "ss")%string
                  then s <- silhouette_samples dists clusters ;; Ok (Some s)
                  else Ok None) ;;
  Ok (sim_matrix, map (fun c => (c - 1)%Z) clusters, (lm, silhouettes)).

(* ===================================================================== *)
(** * Time-bin clustering *)
(* ===================================================================== *)

(** [m.shape[1]] and [m.T] of a 2-d array. *)
Definition shape1 (m : fmat) : nat :=
  match m with
  | [] => 0
  | row :: _ => length row
  end.

Definition transpose (m : fmat) : fmat :=
  map (fun j => map (fun row => nth j row nan) m) (seq 0 (shape1 m)).

(** [a[0:k]] for a Python integer [k] (a negative [k] counts from the end). *)
Definition slice_to {A : Type} (a : list A) (k : Z) : list A :=
  if (0 <=? k)%Z then firstn (Z.to_nat k) a
  else firstn (length a - Z.to_nat (- k)) a.

(** [a[i] = v] on an index inside the array. *)
Fixpoint list_set {A : Type} (a : list A) (i : nat) (v : A) : list A :=
  match a, i with
  | [], _ => []
  | _ :: a', 0 => v :: a'
  | x :: a', S i' => x :: list_set a' i' v
  end.

(** [a[idx] = vals] for an index array. *)
Definition assign {A : Type} (a : list A) (idx : list nat) (vals : list A) : list A :=
  fold_left (fun acc '(i, v) => list_set acc i v) (combine idx vals) a.

(** [np.where(mask)[0]]. *)
Definition np_where (mask : list bool) : list nat :=
  Np.select mask (seq 0 (length mask)).

(** ** Hierarchical mode *)

Definition norm (x : list float) : float :=
  PrimFloat.sqrt (Fl.sum (map (fun v => (v * v)%float) x)).

(** An entry of [np.dot]: the products are accumulated by the BLAS routine
    behind it, in an order of its own; here from left to right.  Nothing
    stated below depends on that order. *)
Definition dot (x y : list float) : float :=
  fold_left PrimFloat.add (map (fun '(a, b) => (a * b)%float) (combine x y)) 0%float.

Definition cosine_similarity (X : fmat) : fmat :=
  let X_norm := map (fun row => map (fun v => (v / norm row)%float) row) X in
  map (fun r => map (fun r' => dot r r') X_norm) X_norm.

(** The scoring loop of [cluster_sim_mat]. *)
Fixpoint score_all {L : Lib} (lm : linkage_matrix) (dists : fmat) (ns : list nat)
  : result (list float * list float) :=
  match ns with
  | [] => Ok ([], [])
  | n :: ns' =>
      clusters <- fcluster lm n ;;
      ss <- silhouette_score dists clusters ;;
      db <- davies_bouldin_score dists clusters ;;
      rest <- score_all lm dists ns' ;;
      Ok (ss :: fst rest, db :: snd rest)
  end.

Definition cluster_sim_mat {L : Lib} (spike_matrix : fmat)
    (min_n_clusts max_n_clusts : nat) (n_method : string)
  : result (fmat * list Z * (linkage_matrix * option (list float))) :=
  let sim_matrix := cosine_similarity (transpose spike_matrix) in
  let dists := map (map (fun s => let d := (1 - s)%float in
                                  if PrimFloat.ltb d 1e-10%float then 0%float else d))
                   sim_matrix in
  cond_dists <- squareform_inv dists ;;
  lm <- linkage cond_dists "ward" ;;
  scores <- score_all lm dists (n_clusts_range min_n_clusts max_n_clusts) ;;
  let '(silhouette_scores, DB_scores) := scores in
  n_clust <- (if (n_method =? "ss")%string then
                i <- of_option (Fl.argmax silhouette_scores) empty_argmax ;;
                Ok (i + min_n_clusts)
              else if (n_method =? "DB")%string then
                i <- of_option (Fl.argmin DB_scores) empty_argmin ;;
                Ok (i + min_n_clusts)
              else Raise (AssertionError
                "Only silhouette scores and Davies-Bouldin index are supported atm.")) ;;
  clusters <- fcluster lm n_clust ;;
  silhouettes <- (if (n_method =? "ss")%string
                  then sl <- silhouette_samples dists clusters ;; Ok (Some sl)
                  else Ok None) ;;
  Ok (sim_matrix, map (fun c => (c - 1)%Z) clusters, (lm, silhouettes)).

(** ** Density-peak mode *)

(** [np.float] is taken as float64, as in the numpy releases the module was
    written for. *)
Definition calc_rho_delta (dists : fmat) (ratio_to_keep : float)
  : result (list float * list float) :=
  n2keep <- of_option (Fl.py_int (ratio_to_keep * Fl.of_nat (shape1 dists))%float)
              (ValueError "cannot convert float NaN to integer") ;;
  let mean_min_dists :=
    map (fun row => Fl.mean (slice_to (Fl.sort row) n2keep)) dists in
  (* mean_min_dists[mean_min_dists == 0] = np.min(mean_min_dists[mean_min_dists != 0]) *)
  floor <- of_option
             (Fl.min (filter (fun x => negb (PrimFloat.eqb x 0%float)) mean_min_dists))
             empty_min ;;
  let mean_min_dists :=
    map (fun x => if PrimFloat.eqb x 0%float then floor else x) mean_min_dists in
  let rhos := map (fun x => (1 / x)%float) mean_min_dists in
  max_rho <- of_option (Fl.max rhos) empty_max ;;
  deltas <- mapM
    (fun '(i, rho) =>
       if negb (PrimFloat.eqb rho max_rho) then
         let idx := np_where (map (fun r => PrimFloat.ltb rho r) rhos) in
         of_option (Fl.min (map (fun j => Fl.get dists i j) idx)) empty_min
       else of_option (Fl.max (nth i dists [])) empty_max)
    (combine (seq 0 (length rhos)) rhos) ;;
  Ok (rhos, deltas).

Definition _fn (x m yshift : float) : float := (x * m + yshift)%float.

Definition fit_gammas {L : Lib} (gammas : list float) (alpha : float)
  : result (list float * (float * float) * (float * float)) :=
  let tmp_idx := map Fl.of_nat (seq 0 (length gammas)) in
  fitted <- curve_fit_line tmp_idx gammas ;;
  let '(popt, pcov_diag) := fitted in
  let dof := (Z.of_nat (length gammas) - 2)%Z in
  let t_val := t_ppf (1 - alpha / 2)%float dof in
  let stds := ((t_val * PrimFloat.sqrt (fst pcov_diag))%float,
               (t_val * PrimFloat.sqrt (snd pcov_diag))%float) in
  Ok (tmp_idx, popt, stds).

(** What [db_clustering] hands to the plotting code. *)
Record db_plotting : Type := {
  plot_rhos : list float;
  plot_deltas : list float;
  plot_tmp_idx : list float;
  plot_sorted_gammas : list float;
  plot_fit : list float;
  plot_lCI : list float;
  plot_uCI : list float;
  plot_centroid_idx : list nat
}.

Definition centroid_msg (n : nat) : string :=
  ("len(centroid_idx)=" ++ fmt_i (Z.of_nat n) ++ " > 20")%string.

(** The first part of [db_clustering], up to [centroid_idx = ...]: the
    distance array with its diagonal filled, gamma, and the values handed to
    the plotting code. *)
Definition db_centroids {L : Lib} (matrix : fmat) (ratio_to_keep : float)
  : result (fmat * list float * db_plotting) :=
  dists <- euclidean_dists matrix ;;
  mx <- of_option (Fl.max_all dists) empty_max ;;
  let dists := Fl.fill_diagonal dists mx in
  rd <- calc_rho_delta dists ratio_to_keep ;;
  let '(rhos, deltas) := rd in
  let gammas := map (fun '(r, d) => (r * d)%float) (combine rhos deltas) in
  (* gammas[np.argsort(gammas)[::-1]]: the values in descending order *)
  let sorted_gammas := rev (Fl.sort gammas) in
  fitted <- fit_gammas sorted_gammas 0.001%float ;;
  let '(tmp_idx, popt, stds) := fitted in
  let fit := map (fun x => _fn x (fst popt) (snd popt)) tmp_idx in
  let lCI := map (fun x => _fn x (fst popt - fst stds)%float
                                 (snd popt - snd stds)%float) tmp_idx in
  let uCI := map (fun x => _fn x (fst popt + fst stds)%float
                                 (snd popt + snd stds)%float) tmp_idx in
  (* centroid_idx = np.where(gammas >= uCI)[0] *)
  let centroid_idx :=
    np_where (map (fun '(g, u) => PrimFloat.leb u g) (combine gammas uCI)) in
  Ok (dists, gammas,
      {| plot_rhos := rhos; plot_deltas := deltas; plot_tmp_idx := tmp_idx;
         plot_sorted_gammas := sorted_gammas; plot_fit := fit;
         plot_lCI := lCI; plot_uCI := uCI; plot_centroid_idx := centroid_idx |}).

(** The rest of [db_clustering]: the cap on the number of centroids and the
    assignment of the bins. *)
Definition db_assign (dists : fmat) (centroid_idx : list nat) : result (list Z) :=
  if negb (length centroid_idx <=? 20)
  then Raise (AssertionError (centroid_msg (length centroid_idx)))
  else
    (* clusters = np.argmin(dists[:, centroid_idx], axis=1) *)
    clusters <- mapM
      (fun row => i <- of_option (Fl.argmin (map (fun j => nth j row nan) centroid_idx))
                                 empty_argmin ;;
                  Ok (Z.of_nat i))
      dists ;;
    (* clusters[centroid_idx] = np.arange(len(centroid_idx)) *)
    Ok (assign clusters centroid_idx (map Z.of_nat (seq 0 (length centroid_idx)))).

Definition db_clustering {L : Lib} (matrix : fmat) (ratio_to_keep : float)
  : result (list Z * db_plotting) :=
  st <- db_centroids matrix ratio_to_keep ;;
  let '(dists, _, plotting) := st in
  clusters <- db_assign dists (plot_centroid_idx plotting) ;;
  Ok (clusters, plotting).

(* ===================================================================== *)
(** * Core cells and assemblies *)
(* ===================================================================== *)

(** [corrs[np.isnan(corrs)] = 0.] *)
Definition nan_to_zero (corrs : fmat) : fmat :=
  map (map (fun c => if PrimFloat.is_nan c then 0%float else c)) corrs.

Definition pairwise_correlation_X {L : Lib} (x : fmat) : result fmat :=
  d <- pairwise_distances_correlation x ;;
  let corrs := map (map (fun v => (1 - v)%float)) d in
  Ok (nan_to_zero corrs).

Definition pairwise_correlation_XY {L : Lib} (x y : fmat) : result fmat :=
  d <- cdist_correlation x y ;;
  let corrs := map (map (fun v => (1 - v)%float)) d in
  Ok (nan_to_zero corrs).

(** [a[i]] along an axis of length [k], for a Python integer [i]. *)
Definition py_row_index (k : nat) (i : Z) : result nat :=
  if ((0 <=? i) && (i <? Z.of_nat k))%Z then Ok (Z.to_nat i)
  else if ((- Z.of_nat k <=? i) && (i <? 0))%Z then Ok (Z.to_nat (Z.of_nat k + i))
  else Raise (IndexError "index is out of bounds for axis 0").

(** The loop [for i in np.unique(clusters): sparse_clusters[i, clusters == i] = 1]. *)
Fixpoint fill_indicator_rows (clusters : list Z) (k : nat) (labels : list Z)
    (sparse_clusters : list (list Z)) : result (list (list Z)) :=
  match labels with
  | [] => Ok sparse_clusters
  | i :: labels' =>
      r <- py_row_index k i ;;
      let row := map (fun '(old, l) => if (l =? i)%Z then 1%Z else old)
                     (combine (nth r sparse_clusters []) clusters) in
      fill_indicator_rows clusters k labels' (list_set sparse_clusters r row)
  end.

Definition _convert_clusters (clusters : list Z) : result (list (list Z)) :=
  let labels := Np.unique clusters in
  let zeros := repeat (repeat 0%Z (length clusters)) (length labels) in
  fill_indicator_rows clusters (length labels) labels zeros.

(** An integer array handed to a float routine. *)
Definition to_float (z : Z) : float := PrimFloat.of_uint63 (Uint63.of_Z z).
Definition as_float (m : list (list Z)) : fmat := map (map to_float) m.

Definition corr_spike_matrix_clusters {L : Lib} (spike_matrix : fmat)
    (sparse_clusters : list (list Z)) : result fmat :=
  pairwise_correlation_XY spike_matrix (as_float sparse_clusters).

(** [perm] is the draw of [np.random.permutation(spike_matrix.shape[1])]. *)
Definition corr_shuffled_spike_matrix_clusters {L : Lib} (spike_matrix : fmat)
    (sparse_clusters : list (list Z)) (perm : list nat) : result fmat :=
  let spike_matrix_rnd := map (fun row => map (fun j => nth j row nan) perm) spike_matrix in
  corr_spike_matrix_clusters spike_matrix_rnd sparse_clusters.

(** [perms] holds the [N] permutations drawn by the [N] tasks of the pool;
    [pool.map] returns their results in task order.  The number of worker
    processes does not enter the result. *)
Definition sign_corr_ths {L : Lib} (spike_matrix : fmat)
    (sparse_clusters : list (list Z)) (th_pct : float) (perms : list (list nat))
  : result fmat :=
  corrs <- mapM (corr_shuffled_spike_matrix_clusters spike_matrix sparse_clusters) perms ;;
  (* corrs = np.dstack(corrs); np.percentile(corrs, th_pct, axis=2) *)
  match corrs with
  | [] => Raise (ValueError "need at least one array to concatenate")
  | first :: _ =>
      mapM (fun '(g, row) =>
              mapM (fun c => percentile (map (fun s => Fl.get s g c) corrs) th_pct)
                   (seq 0 (length row)))
           (combine (seq 0 (length first)) first)
  end.

(** [np.where(core_cell_idx[:, i] == 1)[0]]. *)
Definition core_cells_of (core_cell_idx : list (list Z)) (i : nat) : list nat :=
  np_where (map (fun row => (nth i row 0 =? 1)%Z) core_cell_idx).

(** [corrs[np.ix_(idx, idx)]], flattened. *)
Definition sub_corrs (corrs : fmat) (idx : list nat) : list float :=
  concat (map (fun r => map (fun c => Fl.get corrs r c) idx) idx).

Definition n_columns (m : list (list Z)) : nat :=
  match m with
  | [] => 0
  | row :: _ => length row
  end.

Definition within_cluster_correlations {L : Lib} (spike_matrix : fmat)
    (core_cell_idx : list (list Z)) : result (list nat) :=
  corrs <- pairwise_correlation_X spike_matrix ;;
  let corrs := Fl.fill_diagonal corrs nan in
  let mean_corr := Fl.nanmean (concat corrs) in
  Ok (filter
        (fun i => PrimFloat.ltb mean_corr
                    (Fl.nanmean (sub_corrs corrs (core_cells_of core_cell_idx i))))
        (seq 0 (n_columns core_cell_idx))).

Record Assembly : Type := { gids : list Z; idx : nat * Z }.

(** The body of the loop of [detect_assemblies] for one seed, up to the list
    of assemblies (writing them out and plotting is left out). *)
Definition detect_assemblies {L : Lib} (seed : Z) (spike_matrix : fmat)
    (all_gids : list Z) (clusters : list Z) (core_cell_th_pct : float)
    (perms : list (list nat))
  : result (fmat * fmat * list (list Z) * list nat * list Assembly) :=
  (* core cells *)
  sparse_clusters <- _convert_clusters clusters ;;
  corrs <- corr_spike_matrix_clusters spike_matrix sparse_clusters ;;
  corr_ths <- sign_corr_ths spike_matrix sparse_clusters core_cell_th_pct perms ;;
  (* core_cell_idx[np.where(corrs > corr_ths)] = 1 *)
  let core_cell_idx :=
    map (fun '(g, row) =>
           map (fun '(c, v) => if PrimFloat.ltb (Fl.get corr_ths g c) v then 1%Z else 0%Z)
               (combine (seq 0 (length row)) row))
        (combine (seq 0 (length corrs)) corrs) in
  (* cell assemblies *)
  assembly_idx <- within_cluster_correlations spike_matrix core_cell_idx ;;
  let assembly_lst :=
    map (fun i => {| gids := Np.select (map (fun row => (nth i row 0 =? 1)%Z) core_cell_idx)
                                       all_gids;
                     idx := (i, seed) |})
        assembly_idx in
  Ok (corrs, corr_ths, core_cell_idx, assembly_idx, assembly_lst).

(** A stand-in for the library, used in the examples below: the flat
    clusters of a dendrogram cut are given by [cut]; distances and scores are
    constant. *)
Definition example_lib (cut : nat -> list Z) (dist : fmat) : Lib :=
  {| linkage_matrix := unit;
     pdist := fun _ _ => Ok [];
     squareform := fun _ => Ok dist;
     squareform_inv := fun _ => Ok [];
     linkage := fun _ _ => Ok tt;
     fcluster := fun _ n => Ok (cut n);
     silhouette_score := fun _ _ => Ok 0%float;
     davies_bouldin_score := fun _ _ => Ok 0%float;
     silhouette_samples := fun _ cl => Ok (map (fun _ => 0%float) cl);
     pairwise_distances_correlation := fun _ => Ok dist;
     cdist_correlation := fun _ _ => Ok dist;
     percentile := fun a _ => of_option (Fl.max a) (IndexError "index -1 is out of bounds");
     curve_fit_line := fun _ _ => Ok ((0%float, 1%float), (0%float, 0%float));
     t_ppf := fun _ _ => 1%float;
     euclidean_dists := fun _ => Ok dist |}.

(** Three time bins at the corners (1,0,0), (0,1,0), (0,0,1): every pairwise
    distance is sqrt 2, so gamma is the same for the three of them.  The
    least-squares line through a constant sequence has slope 0, the constant as
    intercept and no residual, hence covariance 0; 636.6 is the 0.9995
    quantile of Student's t with one degree of freedom. *)
Definition three_bins : fmat := [[1; 0; 0]; [0; 1; 0]; [0; 0; 1]]%float.

Definition sqrt2 : float := PrimFloat.sqrt 2%float.

Definition equidistant_lib : Lib :=
  {| linkage_matrix := unit;
     pdist := fun _ _ => Ok [];
     squareform := fun _ => Ok [];
     squareform_inv := fun _ => Ok [];
     linkage := fun _ _ => Ok tt;
     fcluster := fun _ _ => Ok [];
     silhouette_score := fun _ _ => Ok 0%float;
     davies_bouldin_score := fun _ _ => Ok 0%float;
     silhouette_samples := fun _ _ => Ok [];
     pairwise_distances_correlation := fun _ => Ok [];
     cdist_correlation := fun _ _ => Ok [];
     percentile := fun _ _ => Ok 0%float;
     curve_fit_line := fun _ gammas =>
       Ok ((0%float, nth 0 gammas 0%float), (0%float, 0%float));
     t_ppf := fun _ _ => 636.6%float;
     euclidean_dists := fun _ =>
       Ok [[0%float; sqrt2; sqrt2]; [sqrt2; 0%float; sqrt2]; [sqrt2; sqrt2; 0%float]] |}.

(** Two neurons over three time bins, and a dendrogram whose cuts put the
    first and the last bin together. *)
Definition small_spike_matrix : fmat := [[1; 0; 1]; [0; 1; 1]]%float.
Definition two_state_cut (n : nat) : list Z := [1; 2; 1]%Z.

(** Three neurons over four time bins: neurons 0 and 1 fire in the even
    bins, neuron 2 in the odd ones; the bins alternate between two clusters.
    The library stand-in returns the correlation distances of these rows (0 for
    equal rows, 2 for opposite ones), distance 1 (no correlation) for a
    shuffled spike matrix, and the largest value as percentile. *)
Definition three_neurons : fmat := [[1; 0; 1; 0]; [1; 0; 1; 0]; [0; 1; 0; 1]]%float.
Definition alternating_bins : list Z := [0; 1; 0; 1]%Z.
Definition two_shuffles : list (list nat) := [[1; 0; 3; 2]; [3; 2; 1; 0]].

Definition detector_lib : Lib :=
  {| linkage_matrix := unit;
     pdist := fun _ _ => Ok [];
     squareform := fun _ => Ok [];
     squareform_inv := fun _ => Ok [];
     linkage := fun _ _ => Ok tt;
     fcluster := fun _ _ => Ok [];
     silhouette_score := fun _ _ => Ok 0%float;
     davies_bouldin_score := fun _ _ => Ok 0%float;
     silhouette_samples := fun _ _ => Ok [];
     pairwise_distances_correlation := fun _ =>
       Ok [[0; 0; 2]; [0; 0; 2]; [2; 2; 0]]%float;
     cdist_correlation := fun x _ =>
       match x with
       | (v :: _) :: _ =>
           if PrimFloat.eqb v 1%float then Ok [[0; 2]; [0; 2]; [2; 0]]%float
           else Ok [[1; 1]; [1; 1]; [1; 1]]%float
       | _ => Ok []
       end;
     percentile := fun a _ => of_option (Fl.max a) (IndexError "index -1 is out of bounds");
     curve_fit_line := fun _ _ => Ok ((0%float, 0%float), (0%float, 0%float));
     t_ppf := fun _ _ => 1%float;
     euclidean_dists := fun _ => Ok [] |}.

(** A dendrogram whose cut into two clusters keeps the assemblies of a seed
    together and whose cut into three or more separates them. *)
Definition late_valid_cut (n : nat) : list Z :=
  if n <=? 2 then [1; 1; 2; 2]%Z else [1; 2; 1; 3]%Z.


(** Distances between three assemblies, the first two of one seed. *)
Definition three_assembly_dists : fmat := [[0; 1; 2]; [1; 0; 3]; [2; 3; 0]]%float.

(** Four assemblies, two per seed; cutting into [n] clusters labels assembly
    [k] with [k mod n + 1]. *)
Definition round_robin_cut (n : nat) : list Z :=
  map (fun k => (Z.of_nat (k mod n) + 1)%Z) (seq 0 4).

(** A dendrogram in which every cut puts all three assemblies together. *)
Definition single_cluster_cut (n : nat) : list Z := [1; 1; 1]%Z.

Definition four_assemblies : list (list bool) :=
  [[true; false]; [false; true]; [true; false]; [false; true]].

(* ===================================================================== *)
(** * Synapse lookups: [_create_lookups] *)
(* ===================================================================== *)

(** A Python dict with string keys, in insertion order; assigning to a key
    that is present replaces its value and keeps its place. *)
Definition dict (V : Type) : Type := list (string * V).

Fixpoint dict_set {V : Type} (d : dict V) (k : string) (v : V) : dict V :=
  match d with
  | [] => [(k, v)]
  | (k', v') :: d' =>
      if (k' =? k)%string then (k, v) :: d' else (k', v') :: dict_set d' k v
  end.

Fixpoint dict_get {V : Type} (d : dict V) (k : string) : option V :=
  match d with
  | [] => None
  | (k', v') :: d' => if (k' =? k)%string then Some v' else dict_get d' k
  end.

(** [np.in1d(a, b)]. *)
Definition in1d (a b : list Z) : list bool :=
  map (fun x => existsb (Z.eqb x) b) a.

(** The exceptions of [_create_lookups]: those of numpy and of the
    assertion, and Python's own for the division of two integers. *)
Inductive lookup_error : Type :=
| LookupExn (e : exn)
| ZeroDivisionError (msg : string).

(** ["assembly%i" % assembly.idx[0]]. *)
Definition assembly_key (assembly : Assembly) : string :=
  ("assembly" ++ fmt_i (Z.of_nat (fst (idx assembly))))%string.

(** The loop over the assemblies; [all_pre_gids] is the column
    [loc_df["pre_gid"]], one entry per synapse. *)
Definition lookups_loop (all_pre_gids : list Z) (assembly_grp : list Assembly)
  : dict (list nat) * dict float * list (list nat) :=
  fold_left
    (fun '(syn_idx, fracs, all_assembly_syn_idx) assembly =>
       let idx := in1d all_pre_gids (gids assembly) in
       let assembly_frac :=
         (Fl.of_nat (length (filter (fun b : bool => b) idx))
          / Fl.of_nat (length idx))%float in
       let fracs := dict_set fracs (assembly_key assembly) assembly_frac in
       let assembly_idx := np_where idx in
       let syn_idx := dict_set syn_idx (assembly_key assembly) assembly_idx in
       (syn_idx, fracs, all_assembly_syn_idx ++ [assembly_idx]))
    assembly_grp ([], [], []).

Definition _create_lookups (all_pre_gids : list Z) (assembly_grp : list Assembly)
  : lookup_error + (dict (list nat) * dict float) :=
  let nsyns := length all_pre_gids in
  let '(syn_idx, fracs, all_assembly_syn_idx) :=
    lookups_loop all_pre_gids assembly_grp in
  match all_assembly_syn_idx with
  | [] => inl (LookupExn (ValueError "need at least one array to concatenate"))
  | _ :: _ =>
      let all_assembly_syn_idx :=
        Np.unique (map Z.of_nat (concat all_assembly_syn_idx)) in
      let tmp := seq 0 nsyns in
      (* tmp[np.in1d(tmp, all_assembly_syn_idx, assume_unique=True, invert=True)] *)
      let non_assembly_syn_idx :=
        Np.select (map negb (in1d (map Z.of_nat tmp) all_assembly_syn_idx)) tmp in
      if negb (length all_assembly_syn_idx + length non_assembly_syn_idx =? nsyns)
      then inl (LookupExn (AssertionError "Synapse numbers don't add up..."))
      else
        let syn_idx := dict_set syn_idx "non_assembly" non_assembly_syn_idx in
        if nsyns =? 0 then inl (ZeroDivisionError "division by zero")
        else
          let fracs :=
            dict_set fracs "non_assembly"
              (Fl.of_nat (length non_assembly_syn_idx) / Fl.of_nat nsyns)%float in
          inr (syn_idx, fracs)
  end.

(** Synapses from four presynaptic neurons, and two assemblies that share
    neuron 11. *)
Definition six_synapses : list Z := [10; 11; 12; 11; 13; 10]%Z.
Definition two_assemblies : list Assembly :=
  [{| gids := [10; 11]%Z; idx := (0, 7%Z) |};
   {| gids := [11; 12]%Z; idx := (3, 7%Z) |}].

(* ===================================================================== *)
(** * Synapse clusters of one label: the loop body of [cluster_synapses] *)
(* ===================================================================== *)

(** The numpy routines of the significance test. *)
Class Stats : Type := {
  (** [np.log10] *)
  log10 : float -> float;
  (** [np.power] *)
  power : float -> float -> float
}.

(** [dists[np.ix_(syn_idx, syn_idx)]]. *)
Definition sub_dists_of (dists : fmat) (syn_idx : list nat) : fmat :=
  map (fun r => map (fun c => Fl.get dists r c) syn_idx) syn_idx.

(** The mask [significant] of the synapses of one label; [cdf] is
    [models[label].cdf]. *)
Definition significant_of {S : Stats} (sub_dists : fmat) (cdf : Z -> float)
    (target_range : float) (min_nsyns : Z) (log_sign_th : float) : list bool :=
  (* nsyns = (sub_dists < target_range).sum(axis=1) *)
  let nsyns :=
    map (fun row => length (filter (fun d => PrimFloat.ltb d target_range) row))
        sub_dists in
  let p_vals := map (fun n => (1 - cdf (Z.of_nat n - 1)%Z)%float) nsyns in
  (* p_vals[p_vals == 0.0] += 1 / np.power(10, 2*log_sign_th) *)
  let p_vals :=
    map (fun p => if PrimFloat.eqb p 0%float
                  then (p + 1 / power 10%float (2 * log_sign_th))%float else p)
        p_vals in
  map (fun '(p, n) =>
         PrimFloat.leb log_sign_th (- log10 p)%float && (min_nsyns <=? Z.of_nat n)%Z)
      (combine p_vals nsyns).

(** [raw_clusters = sub_dists[:, significant] < target_range]. *)
Definition raw_clusters_of (sub_dists : fmat) (significant : list bool)
    (target_range : float) : bmatrix :=
  {| nrows := length sub_dists;
     columns := map (fun c => map (fun row => PrimFloat.ltb (nth c row nan) target_range)
                                  sub_dists)
                    (np_where significant) |}.

(** The body of [for i, label in enumerate(labels)] in [cluster_synapses]:
    column [i] of [results] for the synapses [syn_idx] of the label, each of
    which is a row of [dists]. *)
Definition label_synapses {S : Stats} (dists : fmat) (syn_idx : list nat)
    (cdf : Z -> float) (target_range : float) (min_nsyns : Z) (log_sign_th : float)
  : option (result (list Z)) :=
  (* results = -100 * np.ones(...); results[syn_idx, i] = -1 *)
  let results := repeat (-100)%Z (length dists) in
  let results := assign results syn_idx (repeat (-1)%Z (length syn_idx)) in
  let sub_dists := sub_dists_of dists syn_idx in
  let significant := significant_of sub_dists cdf target_range min_nsyns log_sign_th in
  if existsb (fun b : bool => b) significant then
    match merge_clusters (raw_clusters_of sub_dists significant target_range) with
    | None => None
    | Some (Raise e) => Some (Raise e)
    | Some (Ok merged_clusters) =>
        (* row_idx, col_idx = np.nonzero(merged_clusters)
           results[syn_idx[row_idx], i] = col_idx *)
        let nz := nonzero merged_clusters in
        Some (Ok (assign results
                         (map (fun rc => nth (Z.to_nat (fst rc)) syn_idx 0) nz)
                         (map snd nz)))
    end
  else Some (Ok results).

(** Seven synapses on one section: the first five within 1 um of each other,
    the other two 100 um from everything; the diagonal is NaN. *)
Definition seven_synapse_dists : fmat :=
  map (fun r => map (fun c => if r =? c then nan
                              else if (r <? 5) && (c <? 5) then 1%float
                              else 100%float)
                    (seq 0 7))
      (seq 0 7).

(** A stand-in for the significance test: every count is significant. *)
Definition always_significant : Stats :=
  {| log10 := fun _ => (-10)%float; power := fun _ _ => 1e10%float |}.

(* ===================================================================== *)
(** * Notions used in the statements *)
(* ===================================================================== *)

(** Every key of the tally is above [x]. *)
Definition keys_above (x : Z) (acc : list (Z * nat)) : Prop :=
  Forall (fun k => (x < k)%Z) (map fst acc).

(** The keys of a tally are strictly increasing. *)
Fixpoint increasing (acc : list (Z * nat)) : Prop :=
  match acc with
  | [] => True
  | (k, _) :: rest => keys_above k rest /\ increasing rest
  end.

(** Row [r] holds a synapse that belongs to at least one cluster. *)
Definition row_used (m : bmatrix) (r : nat) : Prop :=
  exists j, j < ncols m /\ get m r j = true.

(** Two arrays with the same rows and the same synapses in use. *)
Definition same_synapses (m m' : bmatrix) : Prop :=
  nrows m = nrows m' /\
  forall r, r < nrows m -> (row_used m r <-> row_used m' r).

(** Assemblies [p] and [q] (rows of the membership array) come from the same
    seed. *)
Definition same_seed (n_assemblies : list nat) (p q : nat) : Prop :=
  exists i j, In (i, j) (seed_blocks (0 :: Np.cumsum n_assemblies)) /\
              i <= p < j /\ i <= q < j.

(** No entry of the array is NaN. *)
Definition no_nan (m : fmat) : Prop :=
  Forall (Forall (fun c => PrimFloat.is_nan c = false)) m.




(** Row [i] after [sparse_clusters[i, clusters == i] = 1]. *)
Definition mark_label (clusters : list Z) (i : Z) (old : list Z) : list Z :=
  map (fun '(o, l) => if (l =? i)%Z then 1%Z else o) (combine old clusters).

(** An array changed entry by entry, each new entry computed from its
    position and the old entry. *)
Definition imap (f : nat -> nat -> float -> float) (m : fmat) : fmat :=
  map (fun '(r, row) => map (fun '(c, x) => f r c x) (combine (seq 0 (length row)) row))
      (combine (seq 0 (length m)) m).

(** Rows [r] and [c] lie in the same block [i:j]. *)
Definition in_block (r c : nat) (block : nat * nat) : bool :=
  let '(i, j) := block in (i <=? r) && (r <? j) && (i <=? c) && (c <? j).

(** The columns of [m'] are unions of columns of [m]: [parts] lists, for
    each column of [m'], the columns of [m] it is made of; no part is empty
    and every column of [m] is in exactly one part. *)
Definition merged_from (m m' : bmatrix) : Prop :=
  nrows m' = nrows m /\
  exists parts : list (list nat),
    length parts = ncols m' /\
    Forall (fun part => part <> []) parts /\
    Permutation (concat parts) (seq 0 (ncols m)) /\
    forall j' r, j' < ncols m' -> r < nrows m ->
                 get m' r j' = existsb (fun j => get m r j) (nth j' parts []).

(* ===================================================================== *)
(** * Properties *)
(* ===================================================================== *)

(** ** numpy primitives *)

Lemma select_map_filter {A : Type} (f : A -> bool) (a : list A) :
  Np.select (map f a) a = filter f a.
Proof.
  induction a as [|x a IH]; simpl; [reflexivity|].
  destruct (f x); rewrite IH; reflexivity.
Qed.

Lemma tally_keys (x : Z) (acc : list (Z * nat)) (y : Z) :
  In y (map fst (Np.tally x acc)) <-> y = x \/ In y (map fst acc).
Proof.
  induction acc as [|[k c] acc IH]; simpl.
  - intuition.
  - destruct (Z.compare_spec x k) as [E|L|G]; simpl.
    + subst. intuition.
    + intuition.
    + rewrite IH. intuition.
Qed.

Lemma unique_In (a : list Z) (y : Z) : In y (Np.unique a) <-> In y a.
Proof.
  unfold Np.unique, Np.unique_counts.
  induction a as [|x a IH]; simpl; [tauto|].
  rewrite tally_keys, IH. intuition.
Qed.

Lemma tally_increasing (x : Z) (acc : list (Z * nat)) :
  increasing acc -> increasing (Np.tally x acc).
Proof.
  induction acc as [|[k c] acc IH]; simpl.
  - intros _. split; [constructor | exact I].
  - intros [Hk Hinc].
    destruct (Z.compare_spec x k) as [E|L|G]; simpl.
    + split; assumption.
    + repeat split; try assumption.
      constructor; [assumption|].
      unfold keys_above in *. rewrite Forall_forall in *.
      intros z Hz. specialize (Hk z Hz). lia.
    + split; [|apply IH; assumption].
      unfold keys_above in *. rewrite Forall_forall in *.
      intros z Hz. apply tally_keys in Hz. destruct Hz as [->|Hz]; [lia|auto].
Qed.

Lemma unique_counts_increasing (a : list Z) : increasing (Np.unique_counts a).
Proof.
  induction a as [|x a IH]; simpl; [exact I|].
  apply tally_increasing, IH.
Qed.

Lemma increasing_NoDup (acc : list (Z * nat)) :
  increasing acc -> NoDup (map fst acc).
Proof.
  induction acc as [|[k c] acc IH]; simpl; intros H; [constructor|].
  destruct H as [Hk Hinc]. constructor; [|auto].
  intros Hin. unfold keys_above in Hk. rewrite Forall_forall in Hk.
  specialize (Hk k Hin). lia.
Qed.

Lemma unique_NoDup (a : list Z) : NoDup (Np.unique a).
Proof. apply increasing_NoDup, unique_counts_increasing. Qed.

Lemma tally_sum (x : Z) (acc : list (Z * nat)) :
  list_sum (map snd (Np.tally x acc)) = S (list_sum (map snd acc)).
Proof.
  induction acc as [|[k c] acc IH]; simpl; [reflexivity|].
  destruct (x ?= k)%Z; simpl; [reflexivity | reflexivity | rewrite IH; lia].
Qed.

Lemma counts_sum (a : list Z) : list_sum (Np.counts a) = length a.
Proof.
  unfold Np.counts, Np.unique_counts.
  induction a as [|x a IH]; simpl; [reflexivity|].
  rewrite tally_sum, IH. reflexivity.
Qed.

(** Two arrays with the same set of values have equally many unique values. *)
Lemma unique_length_ext (a b : list Z) :
  (forall y, In y a <-> In y b) ->
  length (Np.unique a) = length (Np.unique b).
Proof.
  intros H. apply Permutation_length, NoDup_Permutation.
  - apply unique_NoDup.
  - apply unique_NoDup.
  - intros y. rewrite !unique_In. apply H.
Qed.

(** ** [merge_clusters]: what a merge keeps *)

Lemma same_synapses_refl (m : bmatrix) : same_synapses m m.
Proof. split; [reflexivity | tauto]. Qed.

Lemma same_synapses_trans (a b c : bmatrix) :
  same_synapses a b -> same_synapses b c -> same_synapses a c.
Proof.
  intros [Hn1 H1] [Hn2 H2]. split; [congruence|].
  intros r Hr. rewrite (H1 r Hr). apply H2. rewrite <- Hn1. exact Hr.
Qed.

Lemma nonzero_In (m : bmatrix) (zr zc : Z) :
  In (zr, zc) (nonzero m) <->
  exists r j, zr = Z.of_nat r /\ zc = Z.of_nat j /\
              r < nrows m /\ j < ncols m /\ get m r j = true.
Proof.
  unfold nonzero. rewrite in_flat_map. split.
  - intros (r & Hr & H). apply in_flat_map in H. destruct H as (j & Hj & H).
    apply in_seq in Hr. apply in_seq in Hj.
    destruct (get m r j) eqn:E; simpl in H; [|tauto].
    destruct H as [H|[]]. inversion H; subst.
    exists r, j. repeat split; try lia; assumption.
  - intros (r & j & -> & -> & Hr & Hj & E).
    exists r. split; [apply in_seq; lia|].
    apply in_flat_map. exists j. split; [apply in_seq; lia|].
    rewrite E. left; reflexivity.
Qed.

Lemma row_idx_In (m : bmatrix) (z : Z) :
  In z (map fst (nonzero m)) <->
  exists r, z = Z.of_nat r /\ r < nrows m /\ row_used m r.
Proof.
  rewrite in_map_iff. split.
  - intros ([zr zc] & Hz & Hin). simpl in Hz. subst zr.
    apply nonzero_In in Hin. destruct Hin as (r & j & -> & -> & Hr & Hj & E).
    exists r. repeat split; try assumption. exists j. split; assumption.
  - intros (r & -> & Hr & j & Hj & E).
    exists (Z.of_nat r, Z.of_nat j). split; [reflexivity|].
    apply nonzero_In. exists r, j. repeat split; assumption.
Qed.

Lemma n_unique_synapses_ext (m m' : bmatrix) :
  same_synapses m m' -> n_unique_synapses m = n_unique_synapses m'.
Proof.
  intros [Hn H]. unfold n_unique_synapses. apply unique_length_ext.
  intros z. rewrite !row_idx_In. split.
  - intros (r & -> & Hr & Hu). exists r. repeat split; [lia | apply H; assumption].
  - intros (r & -> & Hr & Hu). exists r. rewrite Hn. repeat split; [assumption|].
    apply H; [lia | assumption].
Qed.

Lemma nth_map_in {A B : Type} (f : A -> B) (l : list A) (p : nat) (d : B) (d' : A) :
  p < length l -> nth p (map f l) d = f (nth p l d').
Proof.
  intros Hp. rewrite (nth_indep _ d (f d')) by (rewrite length_map; exact Hp).
  apply map_nth.
Qed.

Lemma cell_map_seq (f : nat -> bool) (n r : nat) :
  r < n -> cell (map f (seq 0 n)) r = f r.
Proof.
  intros Hr. unfold cell.
  rewrite (nth_map_in _ _ _ false 0) by (rewrite length_seq; exact Hr).
  rewrite seq_nth by exact Hr. reflexivity.
Qed.

Lemma merge_step_index (th i : nat) (m : bmatrix) :
  fst (merge_step th (i, m)) = i + 1.
Proof.
  unfold merge_step.
  destruct (negb (existsb _ _)); reflexivity.
Qed.

Lemma merge_step_ncols (th i : nat) (m : bmatrix) :
  ncols (snd (merge_step th (i, m))) <= ncols m.
Proof.
  unfold merge_step.
  destruct (negb (existsb _ _)); simpl; [lia|].
  unfold ncols at 1. simpl.
  rewrite length_map, select_map_filter.
  etransitivity; [apply filter_length_le|].
  rewrite length_seq. lia.
Qed.

Lemma merge_step_nrows (th i : nat) (m : bmatrix) :
  nrows (snd (merge_step th (i, m))) = nrows m.
Proof.
  unfold merge_step.
  destruct (negb (existsb _ _)); reflexivity.
Qed.

Lemma merge_step_same (th i : nat) (m : bmatrix) :
  same_synapses m (snd (merge_step th (i, m))).
Proof.
  unfold merge_step.
  destruct (negb (existsb _ _)) eqn:Hany; [apply same_synapses_refl|].
  apply negb_false_iff in Hany. apply existsb_exists in Hany.
  destruct Hany as (b & Hb & ->). apply in_map_iff in Hb.
  destruct Hb as (j0 & Hj0 & Hin0). apply in_seq in Hin0.
  rewrite !select_map_filter. simpl.
  set (matched := filter (fun j => th <? common_synapses m i j)
                         (seq (i + 1) (ncols m - (i + 1)))).
  set (merged := map (fun r => (get m r i || existsb (fun j => get m r j) matched))
                     (seq 0 (nrows m))).
  set (kept := filter (fun j => negb (existsb (Nat.eqb j) matched)) (seq 0 (ncols m))).
  assert (Hmatched : forall j, In j matched -> i < j < ncols m).
  { intros j Hj. apply filter_In in Hj. destruct Hj as [Hj _].
    apply in_seq in Hj. lia. }
  assert (Hkept : forall j, In j kept <-> j < ncols m /\ ~ In j matched).
  { intros j. unfold kept. rewrite filter_In, in_seq, negb_true_iff.
    split.
    - intros [Hj Hn]. split; [lia|]. intros Hin.
      assert (existsb (Nat.eqb j) matched = true) as Hex
        by (apply existsb_exists; exists j; split; [assumption | apply Nat.eqb_refl]).
      congruence.
    - intros [Hj Hn]. split; [lia|].
      destruct (existsb (Nat.eqb j) matched) eqn:Hex; [|reflexivity].
      apply existsb_exists in Hex. destruct Hex as (k & Hk & Hjk).
      apply Nat.eqb_eq in Hjk. subst k. contradiction. }
  split; [reflexivity|]. simpl.
  intros r Hr. unfold row_used, get, column. unfold ncols in *. simpl. split.
  - intros (j & Hj & E).
    assert (Hi : In i kept) by (apply Hkept; split; [lia|]; intros Hin; apply Hmatched in Hin; lia).
    destruct (Nat.eq_dec j i) as [->|Hji].
    + (* the column being grown *)
      destruct (In_nth _ _ 0 Hi) as (p & Hp & Hnth).
      exists p. split; [rewrite length_map; exact Hp|].
      rewrite (nth_map_in _ _ _ [] 0) by exact Hp.
      rewrite Hnth, Nat.eqb_refl.
      unfold merged. rewrite cell_map_seq by exact Hr.
      unfold get, column. rewrite E. reflexivity.
    + destruct (in_dec Nat.eq_dec j matched) as [Hjm|Hjm].
      * (* an absorbed column *)
        destruct (In_nth _ _ 0 Hi) as (p & Hp & Hnth).
        exists p. split; [rewrite length_map; exact Hp|].
        rewrite (nth_map_in _ _ _ [] 0) by exact Hp.
        rewrite Hnth, Nat.eqb_refl.
        unfold merged. rewrite cell_map_seq by exact Hr.
        apply orb_true_iff. right. apply existsb_exists.
        exists j. split; [assumption|]. exact E.
      * (* an untouched column *)
        assert (Hjk : In j kept) by (apply Hkept; split; assumption).
        destruct (In_nth _ _ 0 Hjk) as (p & Hp & Hnth).
        exists p. split; [rewrite length_map; exact Hp|].
        rewrite (nth_map_in _ _ _ [] 0) by exact Hp.
        rewrite Hnth.
        destruct (Nat.eqb_spec j i) as [->|_]; [contradiction|]. exact E.
  - intros (p & Hp & E). rewrite length_map in Hp.
    rewrite (nth_map_in _ _ _ [] 0) in E by exact Hp.
    assert (Hk : In (nth p kept 0) kept) by (apply nth_In; exact Hp).
    apply Hkept in Hk. destruct Hk as [Hk _].
    destruct (Nat.eqb_spec (nth p kept 0) i) as [Heq|Hne].
    + unfold merged in E. rewrite cell_map_seq in E by exact Hr.
      apply orb_true_iff in E. destruct E as [E|E].
      * exists i. split; [rewrite <- Heq; exact Hk | exact E].
      * apply existsb_exists in E. destruct E as (j & Hj & E).
        exists j. split; [apply Hmatched in Hj; lia | exact E].
    + exists (nth p kept 0). split; [exact Hk | exact E].
Qed.

(** ** [merge_clusters]: the loops *)

Arguments merge_step : simpl never.

Lemma merge_pass_inv (fuel th : nat) :
  forall i m i' m',
    merge_pass fuel th (i, m) = Some (i', m') ->
    same_synapses m m' /\ ncols m' <= ncols m /\ i <= i'.
Proof.
  induction fuel as [|fuel IH]; intros i m i' m'; simpl.
  - destruct (i <? ncols m - 1); [discriminate|].
    intros H. inversion H; subst. split; [apply same_synapses_refl | lia].
  - destruct (i <? ncols m - 1).
    + pose proof (merge_step_index th i m) as Hi.
      pose proof (merge_step_ncols th i m) as Hc.
      pose proof (merge_step_same th i m) as Hs.
      destruct (merge_step th (i, m)) as [i1 m1]. simpl in Hi, Hc, Hs.
      intros H. apply IH in H. destruct H as (Hs' & Hc' & Hi').
      split; [eapply same_synapses_trans; eassumption | lia].
    + intros H. inversion H; subst. split; [apply same_synapses_refl | lia].
Qed.

(** Each iteration moves the scanned column one to the right and the array
    never gets wider, so [ncols m - 1 - i] iterations always suffice. *)
Lemma merge_pass_total (fuel th : nat) :
  forall i m, ncols m - 1 - i <= fuel ->
              exists st, merge_pass fuel th (i, m) = Some st.
Proof.
  induction fuel as [|fuel IH]; intros i m Hfuel; simpl.
  - destruct (Nat.ltb_spec i (ncols m - 1)); [lia|]. eexists; reflexivity.
  - destruct (Nat.ltb_spec i (ncols m - 1)); [|eexists; reflexivity].
    pose proof (merge_step_index th i m) as Hi.
    pose proof (merge_step_ncols th i m) as Hc.
    destruct (merge_step th (i, m)) as [i1 m1]. simpl in Hi, Hc.
    apply IH. lia.
Qed.

Lemma threshold_loop_inv (fuel : nat) (ths : list nat) (nsyns : nat) :
  forall m m', threshold_loop fuel ths nsyns m = Some m' ->
               same_synapses m m' /\ ncols m' <= ncols m.
Proof.
  induction ths as [|th ths IH]; intros m m'; simpl.
  - intros H. inversion H; subst. split; [apply same_synapses_refl | lia].
  - destruct (merge_pass fuel th (0, m)) as [[i1 m1]|] eqn:Hpass; [|discriminate].
    apply merge_pass_inv in Hpass. destruct Hpass as (Hs & Hc & _).
    destruct (clustered_synapse_count m1 =? nsyns).
    + intros H. inversion H; subst. split; assumption.
    + intros H. apply IH in H. destruct H as [Hs' Hc'].
      split; [eapply same_synapses_trans; eassumption | lia].
Qed.

Lemma threshold_loop_total (fuel : nat) (ths : list nat) (nsyns : nat) :
  forall m, ncols m <= fuel -> exists m', threshold_loop fuel ths nsyns m = Some m'.
Proof.
  induction ths as [|th ths IH]; intros m Hfuel; simpl.
  - eexists; reflexivity.
  - destruct (merge_pass_total fuel th 0 m) as ([i1 m1] & Hpass); [lia|].
    rewrite Hpass. apply merge_pass_inv in Hpass. destruct Hpass as (_ & Hc & _).
    destruct (clustered_synapse_count m1 =? nsyns); [eexists; reflexivity|].
    apply IH. lia.
Qed.

Lemma unique_length_le (a : list Z) : length (Np.unique a) <= length a.
Proof.
  apply NoDup_incl_length; [apply unique_NoDup|].
  intros y Hy. apply unique_In. exact Hy.
Qed.

Lemma counts_nonempty (a : list Z) : a <> [] -> Np.counts a <> [].
Proof.
  intros Ha Hc. destruct a as [|x a]; [congruence|].
  assert (Hin : In x (Np.unique (x :: a))) by (apply unique_In; left; reflexivity).
  unfold Np.unique in Hin. unfold Np.counts in Hc.
  destruct (Np.unique_counts (x :: a)); [contradiction | discriminate].
Qed.

(** C2 (as the code has it).  When [merge_clusters] returns, the count of
    unique synapses is the one of the input, the number of clusters is at most
    [int(nsyns / min_nsyns)] (the assertion before [return]), and the sum of
    the per-cluster synapse counts is at least the count of unique synapses.
    Equality of that sum with the count is the [break] test of the threshold
    loop; it is not checked on exit. *)
Theorem merge_clusters_exit (clusters out : bmatrix) :
  merge_clusters clusters = Some (Ok out) ->
  n_unique_synapses out = n_unique_synapses clusters /\
  (exists min_nsyns,
      Np.min_nat (synapses_per_cluster clusters) = Some min_nsyns /\
      ncols out <= n_unique_synapses clusters / min_nsyns) /\
  n_unique_synapses clusters <= clustered_synapse_count out.
Proof.
  unfold merge_clusters, merge_clusters_fuel.
  destruct (Np.min_nat (synapses_per_cluster clusters)) as [min_nsyns|]; [|discriminate].
  destruct (threshold_loop _ _ _ clusters) as [m|] eqn:Hloop; [|discriminate].
  apply threshold_loop_inv in Hloop. destruct Hloop as [Hs _].
  destruct (Nat.leb_spec (ncols m) (nclusts_ub (n_unique_synapses clusters) min_nsyns));
    [|discriminate].
  intros Hret. inversion Hret; subst out.
  assert (Hn : n_unique_synapses m = n_unique_synapses clusters)
    by (symmetry; apply n_unique_synapses_ext; exact Hs).
  split; [exact Hn|]. split.
  - exists min_nsyns. split; [reflexivity | assumption].
  - rewrite <- Hn. unfold clustered_synapse_count, n_unique_synapses.
    rewrite counts_sum. apply unique_length_le.
Qed.

Lemma merge_clusters_exit_witness :
  merge_clusters three_raw_clusters = Some (Ok two_merged_clusters) /\
  n_unique_synapses two_merged_clusters = n_unique_synapses three_raw_clusters /\
  (exists min_nsyns,
      Np.min_nat (synapses_per_cluster three_raw_clusters) = Some min_nsyns /\
      ncols two_merged_clusters <= n_unique_synapses three_raw_clusters / min_nsyns) /\
  n_unique_synapses three_raw_clusters <= clustered_synapse_count two_merged_clusters.
Proof.
  split; [vm_compute; reflexivity|].
  apply (merge_clusters_exit three_raw_clusters). vm_compute; reflexivity.
Defined.

(** The array [overlapping_pair] is returned as it is: its two clusters hold
    3 + 6 = 9 synapses, the input has 8 unique ones. *)
Lemma merge_clusters_sum_not_enforced :
  ~ (forall clusters out,
        merge_clusters clusters = Some (Ok out) ->
        clustered_synapse_count out = n_unique_synapses clusters).
Proof.
  intros H. specialize (H overlapping_pair overlapping_pair).
  assert (E : merge_clusters overlapping_pair = Some (Ok overlapping_pair))
    by (vm_compute; reflexivity).
  specialize (H E). vm_compute in H. discriminate H.
Qed.

(** C10.  [merge_clusters] terminates on every array with a true entry: an
    iteration of the inner loop advances the scanned column by one and never
    adds a column, so a pass needs at most as many iterations as there are
    columns; the thresholds are a finite list; hence the run reaches the final
    assertion and either returns or fails it, whatever iteration bound at
    least the column count is allowed. *)
Theorem merge_clusters_terminates (clusters : bmatrix) :
  (exists r j, r < nrows clusters /\ j < ncols clusters /\ get clusters r j = true) ->
  (forall th i m,
      fst (merge_step th (i, m)) = i + 1 /\
      ncols (snd (merge_step th (i, m))) <= ncols m) /\
  (forall fuel, ncols clusters <= fuel ->
      (exists out, merge_clusters_fuel fuel clusters = Some (Ok out)) \/
      (exists msg, merge_clusters_fuel fuel clusters = Some (Raise (AssertionError msg)))).
Proof.
  intros (r & j & Hr & Hj & E). split.
  - intros th i m. split; [apply merge_step_index | apply merge_step_ncols].
  - intros fuel Hfuel. unfold merge_clusters_fuel.
    destruct (Np.min_nat (synapses_per_cluster clusters)) as [min_nsyns|] eqn:Hmin.
    + destruct (threshold_loop_total fuel (Np.arange_down (min_nsyns - 1) 1)
                  (n_unique_synapses clusters) clusters Hfuel) as (m & Hloop).
      rewrite Hloop.
      destruct (ncols m <=? _); [left | right]; eexists; reflexivity.
    + exfalso. unfold Np.min_nat in Hmin.
      destruct (synapses_per_cluster clusters) eqn:Hc; [|discriminate].
      revert Hc. apply counts_nonempty.
      assert (Hin : In (Z.of_nat r, Z.of_nat j) (nonzero clusters))
        by (apply nonzero_In; exists r, j; repeat split; assumption).
      intros Hnil. apply (in_map snd) in Hin. rewrite Hnil in Hin. exact Hin.
Qed.

Lemma merge_clusters_terminates_witness :
  (exists r j, r < nrows three_raw_clusters /\ j < ncols three_raw_clusters /\
               get three_raw_clusters r j = true) /\
  ((forall th i m,
      fst (merge_step th (i, m)) = i + 1 /\
      ncols (snd (merge_step th (i, m))) <= ncols m) /\
   (forall fuel, ncols three_raw_clusters <= fuel ->
      (exists out, merge_clusters_fuel fuel three_raw_clusters = Some (Ok out)) \/
      (exists msg, merge_clusters_fuel fuel three_raw_clusters
                   = Some (Raise (AssertionError msg))))).
Proof.
  assert (H : exists r j, r < nrows three_raw_clusters /\ j < ncols three_raw_clusters /\
                          get three_raw_clusters r j = true).
  { exists 0, 0. split; [simpl; lia | split; [unfold ncols; simpl; lia | reflexivity]]. }
  split; [exact H | exact (merge_clusters_terminates three_raw_clusters H)].
Defined.

(** ** Results *)

Lemma bind_Ok {A B : Type} (r : result A) (k : A -> result B) (b : B) :
  bind r k = Ok b -> exists a, r = Ok a /\ k a = Ok b.
Proof. destruct r as [a|e]; simpl; [eauto | discriminate]. Qed.

Tactic Notation "bind_inv" hyp(H) "as" ident(a) ident(Ha) :=
  apply bind_Ok in H; destruct H as (a & Ha & H).

(** ** Occurrence counts *)

Lemma tally_bump (x : Z) (acc : list (Z * nat)) (c : nat) :
  increasing acc -> In (x, c) acc -> In (x, S c) (Np.tally x acc).
Proof.
  induction acc as [|[k d] acc IH]; simpl; [tauto|].
  intros [Hk Hinc] Hin.
  destruct (Z.compare_spec x k) as [E|Lt|Gt].
  - subst k. destruct Hin as [Hin|Hin].
    + inversion Hin; subst. left; reflexivity.
    + exfalso. unfold keys_above in Hk. rewrite Forall_forall in Hk.
      apply (in_map fst) in Hin. specialize (Hk _ Hin). simpl in Hk. lia.
  - exfalso. destruct Hin as [Hin|Hin].
    + inversion Hin; subst. lia.
    + unfold keys_above in Hk. rewrite Forall_forall in Hk.
      apply (in_map fst) in Hin. specialize (Hk _ Hin). simpl in Hk. lia.
  - destruct Hin as [Hin|Hin].
    + inversion Hin; subst. lia.
    + right. apply IH; assumption.
Qed.

Lemma tally_new (x : Z) (acc : list (Z * nat)) :
  ~ In x (map fst acc) -> In (x, 1) (Np.tally x acc).
Proof.
  induction acc as [|[k d] acc IH]; simpl; [intros _; left; reflexivity|].
  intros Hnot.
  destruct (Z.compare_spec x k) as [E|Lt|Gt].
  - subst. tauto.
  - left; reflexivity.
  - right. apply IH. tauto.
Qed.

Lemma tally_other (x y : Z) (acc : list (Z * nat)) (c : nat) :
  y <> x -> In (y, c) acc -> In (y, c) (Np.tally x acc).
Proof.
  intros Hne. induction acc as [|[k d] acc IH]; simpl; [tauto|].
  intros Hin.
  destruct (Z.compare_spec x k) as [E|Lt|Gt].
  - subst k. destruct Hin as [Hin|Hin].
    + inversion Hin; subst. contradiction.
    + right; assumption.
  - right. exact Hin.
  - destruct Hin as [Hin|Hin]; [left; assumption | right; apply IH; assumption].
Qed.

Lemma unique_counts_occ (a : list Z) (x : Z) :
  In x a -> In (x, count_occ Z.eq_dec a x) (Np.unique_counts a).
Proof.
  induction a as [|y a IH]; simpl; [tauto|].
  intros Hin. destruct (Z.eq_dec y x) as [->|Hne].
  - destruct (in_dec Z.eq_dec x a) as [Hxa|Hxa].
    + apply tally_bump; [apply unique_counts_increasing | apply IH; assumption].
    + rewrite (proj1 (count_occ_not_In Z.eq_dec a x) Hxa).
      apply tally_new. intros Hk. apply Hxa.
      apply (proj1 (unique_In a x)). exact Hk.
  - destruct Hin as [Hin|Hin]; [contradiction|].
    apply tally_other; [congruence | apply IH; assumption].
Qed.

(** [(counts > 1).any()] is false only on arrays without repeated values. *)
Lemma no_repeated_count_NoDup (a : list Z) :
  existsb (fun c => 1 <? c) (Np.counts a) = false -> NoDup a.
Proof.
  intros H. apply (NoDup_count_occ Z.eq_dec). intros x.
  destruct (in_dec Z.eq_dec x a) as [Hin|Hnot].
  - apply unique_counts_occ in Hin. apply (in_map snd) in Hin. simpl in Hin.
    destruct (Nat.ltb_spec 1 (count_occ Z.eq_dec a x)) as [Hgt|Hle]; [|lia].
    exfalso.
    assert (Hex : existsb (fun c => 1 <? c) (Np.counts a) = true).
    { apply existsb_exists. eexists. split; [exact Hin|]. apply Nat.ltb_lt. exact Hgt. }
    congruence.
  - rewrite (proj1 (count_occ_not_In Z.eq_dec a x) Hnot). lia.
Qed.

Lemma slice_nth_error {A : Type} (a : list A) (i j p : nat) :
  i <= p < j -> nth_error (Np.slice a i j) (p - i) = nth_error a p.
Proof.
  intros Hp. unfold Np.slice.
  rewrite nth_error_firstn.
  destruct (Nat.ltb_spec (p - i) (j - i)) as [_|Hge]; [|lia].
  rewrite nth_error_skipn. f_equal. lia.
Qed.

(** ** [cluster_assemblies]: seed separation *)

Lemma check_seed_separation_distinct (clusters : list Z) (cum : list nat) :
  _check_seed_separation clusters cum = true ->
  forall i j p q a b,
    In (i, j) (seed_blocks cum) -> i <= p < j -> i <= q < j -> p <> q ->
    nth_error clusters p = Some a -> nth_error clusters q = Some b -> a <> b.
Proof.
  unfold _check_seed_separation. intros Hall i j p q a b Hblock Hp Hq Hpq Ha Hb Hab.
  rewrite forallb_forall in Hall. specialize (Hall _ Hblock). simpl in Hall.
  apply negb_true_iff in Hall. apply no_repeated_count_NoDup in Hall.
  rewrite <- (slice_nth_error clusters i j p Hp) in Ha.
  rewrite <- (slice_nth_error clusters i j q Hq) in Hb.
  subst b. rewrite <- Hb in Ha.
  apply (proj1 (NoDup_nth_error _) Hall) in Ha.
  - lia.
  - apply nth_error_Some. rewrite Ha, Hb. discriminate.
Qed.

Section ConsensusClusterer.

Context {L : Lib}.

Lemma score_counts_valid (lm : linkage_matrix) (dists : fmat) (cum : list nat) :
  forall ns valid ss db,
    score_counts lm dists cum ns = Ok (valid, ss, db) ->
    length ss = length valid /\ length db = length valid /\
    forall n, In n valid ->
              In n ns /\
              exists cl, fcluster lm n = Ok cl /\
                         _check_seed_separation cl cum = true.
Proof.
  induction ns as [|n ns IH]; intros valid ss db H; simpl in H.
  - inversion H; subst. split; [reflexivity | split; [reflexivity | intros m []]].
  - bind_inv H as cl0 Hcl0. destruct (_check_seed_separation cl0 cum) eqn:Hcheck.
    + bind_inv H as s0 Hs0. bind_inv H as d0 Hd0. bind_inv H as rest Hrest.
      destruct rest as [[valid' ss'] db'].
      inversion H; subst. destruct (IH _ _ _ Hrest) as (Hs & Hd & Hin).
      simpl. split; [congruence | split; [congruence|]].
      intros m [<-|Hm].
      * split; [left; reflexivity|]. exists cl0. split; assumption.
      * destruct (Hin m Hm) as (Hns & cl & Hcl). split; [right; assumption|].
        exists cl. exact Hcl.
    + destruct (IH _ _ _ H) as (Hs & Hd & Hin).
      split; [assumption | split; [assumption|]].
      intros m Hm. destruct (Hin m Hm) as (Hns & cl & Hcl).
      split; [right; assumption | exists cl; exact Hcl].
Qed.


Lemma list_index_In (a : list nat) (i n : nat) : list_index a i = Ok n -> In n a.
Proof.
  unfold list_index. destruct (nth_error a i) eqn:E; [|discriminate].
  intros H. inversion H; subst. eapply nth_error_In; eassumption.
Qed.

Lemma select_n_clust_In (n_method : string) (mn mx : nat) (valid : list nat)
      (ss db : list float) (n : nat) :
  select_n_clust n_method mn mx valid ss db = Ok n -> In n valid.
Proof.
  unfold select_n_clust.
  destruct (0 <? length valid); [|discriminate].
  destruct (n_method =? "min")%string; [apply list_index_In|].
  destruct (n_method =? "ss")%string.
  { intros H. bind_inv H as i Hi. eapply list_index_In; eassumption. }
  destruct (n_method =? "DB")%string; [|discriminate].
  intros H. bind_inv H as i Hi. eapply list_index_In; eassumption.
Qed.

(** The labels returned are those of a cut that passed the separation test,
    shifted to start at 0. *)
Lemma cluster_assemblies_Ok (assemblies : list (list bool)) (n_assemblies : list nat)
      (metric method : string) (upd : bool) (n_method : string)
      (sim : fmat) (labels : list Z) (plotting : linkage_matrix * option (list float)) :
  cluster_assemblies assemblies n_assemblies metric method upd n_method
    = Ok (sim, labels, plotting) ->
  exists min_n n cl,
    Np.max_nat n_assemblies = Some min_n /\
    In n (n_clusts_range min_n
            (if 20 <=? last (0 :: Np.cumsum n_assemblies) 0 then 20
             else last (0 :: Np.cumsum n_assemblies) 0)) /\
    fcluster (fst plotting) n = Ok cl /\
    _check_seed_separation cl (0 :: Np.cumsum n_assemblies) = true /\
    labels = map (fun c => (c - 1)%Z) cl.
Proof.
  unfold cluster_assemblies. intros H.
  bind_inv H as c0 Hc0. bind_inv H as d0 Hd0. bind_inv H as dc Hdc.
  destruct dc as [dists cond].
  bind_inv H as min_n Hmin. bind_inv H as lm Hlm. bind_inv H as scored Hscored.
  destruct scored as [[valid ss] db].
  bind_inv H as n Hn. bind_inv H as clusters Hclusters. bind_inv H as sil Hsil.
  inversion H; subst. clear H.
  destruct (Np.max_nat n_assemblies) as [m|] eqn:Hmax; [|discriminate].
  simpl in Hmin. inversion Hmin; subst m.
  apply select_n_clust_In in Hn.
  destruct (score_counts_valid _ _ _ _ _ _ _ Hscored) as (_ & _ & Hvalid).
  destruct (Hvalid _ Hn) as (Hrange & cl & Hcl & Hcheck).
  exists min_n, n, cl. simpl.
  split; [reflexivity | split; [assumption | split; [assumption | split; [assumption|]]]].
  rewrite Hcl in Hclusters. inversion Hclusters; subst. reflexivity.
Qed.

(** C1.  Whenever [cluster_assemblies] returns, two different assemblies of
    the same seed carry different consensus labels, whatever the per-seed
    counts, the metric, the linkage method and the selection method. *)
Theorem cluster_assemblies_seed_separation
      (assemblies : list (list bool)) (n_assemblies : list nat)
      (metric method : string) (upd : bool) (n_method : string)
      (sim : fmat) (labels : list Z) (plotting : linkage_matrix * option (list float)) :
  cluster_assemblies assemblies n_assemblies metric method upd n_method
    = Ok (sim, labels, plotting) ->
  forall p q lp lq,
    p <> q -> same_seed n_assemblies p q ->
    nth_error labels p = Some lp -> nth_error labels q = Some lq ->
    lp <> lq.
Proof.
  intros H p q lp lq Hpq (i & j & Hblock & Hp & Hq) Hlp Hlq.
  apply cluster_assemblies_Ok in H.
  destruct H as (min_n & n & cl & _ & _ & _ & Hcheck & ->).
  rewrite nth_error_map in Hlp, Hlq.
  destruct (nth_error cl p) as [a|] eqn:Ha; [|discriminate].
  destruct (nth_error cl q) as [b|] eqn:Hb; [|discriminate].
  simpl in Hlp, Hlq. inversion Hlp; inversion Hlq; subst.
  pose proof (check_seed_separation_distinct _ _ Hcheck i j p q a b
                Hblock Hp Hq Hpq Ha Hb) as Hab.
  lia.
Qed.

Lemma n_clusts_range_In (min_n max_n n : nat) :
  In n (n_clusts_range min_n max_n) <-> min_n <= n <= max_n.
Proof. unfold n_clusts_range. rewrite in_seq. lia. Qed.

Lemma cumsum_last (a : list nat) :
  last (0 :: Np.cumsum a) 0 = list_sum a.
Proof.
  unfold Np.cumsum.
  assert (H : forall acc, last (acc :: Np.cumsum_from acc a) 0 = acc + list_sum a).
  { induction a as [|x a IH]; intros acc; simpl; [lia|].
    specialize (IH (acc + x)). simpl in IH. rewrite IH. lia. }
  apply (H 0).
Qed.

Lemma max_n_clusts_min (total : nat) :
  (if 20 <=? total then 20 else total) = Nat.min 20 total.
Proof. destruct (Nat.leb_spec 20 total); lia. Qed.

End ConsensusClusterer.

Lemma cluster_assemblies_seed_separation_witness :
  @cluster_assemblies (example_lib round_robin_cut []) four_assemblies [2; 2]
     "hamming" "average" false "min" = Ok ([], [0; 1; 0; 1]%Z, (tt, None)) /\
  0 <> 1 /\ same_seed [2; 2] 0 1 /\
  nth_error [0; 1; 0; 1]%Z 0 = Some 0%Z /\ nth_error [0; 1; 0; 1]%Z 1 = Some 1%Z /\
  (0 <> 1)%Z.
Proof.
  assert (Hseed : same_seed [2; 2] 0 1).
  { exists 0, 2. split; [left; reflexivity | lia]. }
  split; [vm_compute; reflexivity|].
  split; [discriminate|]. split; [exact Hseed|].
  split; [reflexivity|]. split; [reflexivity|].
  apply (@cluster_assemblies_seed_separation (example_lib round_robin_cut [])
           four_assemblies [2; 2] "hamming" "average" false "min"
           [] [0; 1; 0; 1]%Z (tt, None)
           ltac:(vm_compute; reflexivity) 0 1 0%Z 1%Z);
    [discriminate | exact Hseed | reflexivity | reflexivity].
Defined.

(** ** Loops in the result monad and float reductions *)

Lemma mapM_Ok {A B : Type} (f : A -> result B) :
  forall a b, mapM f a = Ok b -> Forall2 (fun x y => f x = Ok y) a b.
Proof.
  induction a as [|x a IH]; intros b H; simpl in H.
  - inversion H. constructor.
  - bind_inv H as y Hy. bind_inv H as ys Hys. inversion H; subst.
    constructor; [assumption | apply IH; assumption].
Qed.

Lemma mapM_length {A B : Type} (f : A -> result B) (a : list A) (b : list B) :
  mapM f a = Ok b -> length b = length a.
Proof. intros H. apply mapM_Ok in H. symmetry. eapply Forall2_length; eassumption. Qed.

Lemma min2_cases (a b : float) : Fl.min2 a b = a \/ Fl.min2 a b = b.
Proof.
  unfold Fl.min2. destruct (PrimFloat.is_nan a); [left; reflexivity|].
  destruct (PrimFloat.is_nan b); [right; reflexivity|].
  destruct (PrimFloat.ltb b a); [right | left]; reflexivity.
Qed.

Lemma fold_min2_In (a : list float) :
  forall x, fold_left Fl.min2 a x = x \/ In (fold_left Fl.min2 a x) a.
Proof.
  induction a as [|y a IH]; intros x; simpl; [left; reflexivity|].
  destruct (IH (Fl.min2 x y)) as [H|H]; [|right; right; exact H].
  rewrite H. destruct (min2_cases x y) as [E|E]; rewrite E; [left | right; left]; reflexivity.
Qed.

(** [np.min] returns one of the entries of the array. *)
Lemma min_In (a : list float) (m : float) : Fl.min a = Some m -> In m a.
Proof.
  destruct a as [|x a]; simpl; [discriminate|].
  intros H. inversion H; subst.
  destruct (fold_min2_In a x) as [E|E]; [left; symmetry; exact E | right; exact E].
Qed.

Lemma insert_length (x : float) (a : list float) :
  length (Fl.insert x a) = S (length a).
Proof.
  induction a as [|y a IH]; simpl; [reflexivity|].
  destruct (PrimFloat.is_nan y || PrimFloat.leb x y); simpl; [reflexivity|].
  rewrite IH. reflexivity.
Qed.

Lemma sort_length (a : list float) : length (Fl.sort a) = length a.
Proof.
  induction a as [|x a IH]; simpl; [reflexivity|].
  rewrite insert_length, IH. reflexivity.
Qed.

Lemma select_seq_In (mask : list bool) :
  forall s i, In i (Np.select mask (seq s (length mask))) <->
              s <= i /\ nth (i - s) mask false = true.
Proof.
  induction mask as [|b mask IH]; intros s i.
  - simpl. split; [tauto|]. intros [_ H]. destruct (i - s); discriminate.
  - assert (Hrec : In i (Np.select mask (seq (S s) (length mask))) <->
                   S s <= i /\ nth (i - S s) mask false = true) by apply IH.
    assert (Hnth : nth (i - s) (b :: mask) false
                   = if i <=? s then b else nth (i - S s) mask false).
    { destruct (Nat.leb_spec i s) as [Hle|Hgt].
      - replace (i - s) with 0 by lia. reflexivity.
      - replace (i - s) with (S (i - S s)) by lia. reflexivity. }
    rewrite Hnth. cbn [length seq Np.select].
    destruct b; [cbn [In]|]; rewrite Hrec;
      destruct (Nat.leb_spec i s) as [Hle|Hgt]; intuition (try lia; try discriminate).
Qed.

(** [i in np.where(mask)[0]] exactly when [mask[i]] is true. *)
Lemma np_where_In (mask : list bool) (i : nat) :
  In i (np_where mask) <-> nth i mask false = true.
Proof.
  unfold np_where. rewrite select_seq_In, Nat.sub_0_r. intuition lia.
Qed.

Lemma np_where_lt (mask : list bool) (i : nat) :
  In i (np_where mask) -> i < length mask.
Proof.
  intros H. apply np_where_In in H.
  destruct (Nat.lt_ge_cases i (length mask)) as [Hlt|Hge]; [exact Hlt|].
  rewrite nth_overflow in H by exact Hge. discriminate.
Qed.

Lemma select_NoDup {A : Type} (mask : list bool) :
  forall a : list A, NoDup a -> NoDup (Np.select mask a).
Proof.
  induction mask as [|b mask IH]; intros a Ha; simpl; [constructor|].
  destruct a as [|x a]; [constructor|].
  inversion Ha as [|? ? Hx Ha']; subst.
  assert (Hsub : forall y, In y (Np.select mask a) -> In y a).
  { clear. revert a. induction mask as [|b mask IH]; intros a y; simpl; [tauto|].
    destruct a as [|x a]; [tauto|].
    destruct b; simpl; [intros [E|H]; [left; exact E | right; apply IH; exact H]|].
    intros H. right. apply IH. exact H. }
  destruct b; [constructor; [intros H; apply Hx, Hsub, H | apply IH, Ha'] | apply IH, Ha'].
Qed.

Lemma np_where_NoDup (mask : list bool) : NoDup (np_where mask).
Proof. apply select_NoDup, seq_NoDup. Qed.

(** ** [calc_rho_delta] *)

(** Past the substitution, no mean distance that is inverted equals zero. *)
Lemma calc_rho_delta_divisors (dists : fmat) (ratio_to_keep : float)
      (rhos deltas : list float) :
  calc_rho_delta dists ratio_to_keep = Ok (rhos, deltas) ->
  exists mean_min_dists,
    rhos = map (fun x => (1 / x)%float) mean_min_dists /\
    length mean_min_dists = length dists /\
    Forall (fun x => PrimFloat.eqb x 0%float = false) mean_min_dists.
Proof.
  unfold calc_rho_delta. intros H.
  bind_inv H as n2keep Hn. bind_inv H as floor Hfloor.
  bind_inv H as max_rho Hmax. bind_inv H as ds Hds. inversion H; subst. clear H.
  eexists. split; [reflexivity|]. split; [rewrite !length_map; reflexivity|].
  assert (Hf : PrimFloat.eqb floor 0%float = false).
  { destruct (Fl.min _) as [m|] eqn:Hm in Hfloor; [|discriminate].
    simpl in Hfloor. inversion Hfloor; subst m.
    apply min_In in Hm. apply filter_In in Hm. destruct Hm as [_ Hm].
    apply negb_true_iff in Hm. exact Hm. }
  apply Forall_forall. intros x Hx. apply in_map_iff in Hx.
  destruct Hx as (y & <- & _).
  destruct (PrimFloat.eqb y 0%float) eqn:Hy; [exact Hf | exact Hy].
Qed.

(** Whenever every mean distance is zero, the minimum is asked of an empty
    selection and the call raises. *)
Lemma calc_rho_delta_all_zero_means (dists : fmat) (ratio_to_keep : float) (n2keep : Z) :
  Fl.py_int (ratio_to_keep * Fl.of_nat (shape1 dists))%float = Some n2keep ->
  Forall (fun row => PrimFloat.eqb (Fl.mean (slice_to (Fl.sort row) n2keep)) 0%float = true)
         dists ->
  calc_rho_delta dists ratio_to_keep = Raise empty_min.
Proof.
  intros Hint Hzero. unfold calc_rho_delta. rewrite Hint. cbn [of_option bind].
  assert (Hnone : filter (fun x => negb (PrimFloat.eqb x 0%float))
                         (map (fun row => Fl.mean (slice_to (Fl.sort row) n2keep)) dists)
                  = []).
  { clear Hint. induction Hzero as [|row rows Hrow _ IH]; simpl; [reflexivity|].
    rewrite Hrow. simpl. exact IH. }
  rewrite Hnone. reflexivity.
Qed.

(** C8.  On an all-zero distance array (all time bins coincide) there is no
    nonzero mean to take the minimum of, and the substitution itself raises
    numpy's [ValueError]. *)
Theorem calc_rho_delta_zero_distances_raise :
  calc_rho_delta [[0; 0]; [0; 0]]%float 0.5%float = Raise empty_min.
Proof. vm_compute. reflexivity. Qed.

(** With the default [ratio_to_keep] and fewer than 50 bins no neighbour is
    kept, the means are NaN and the delta loop raises. *)
Lemma calc_rho_delta_no_neighbour_raise :
  calc_rho_delta [[1; 1]; [1; 1]]%float 0.02%float = Raise empty_min.
Proof. vm_compute. reflexivity. Qed.

(** A nonzero mean below the smallest normal float inverts to infinity. *)
Lemma calc_rho_delta_infinite_density :
  calc_rho_delta [[0x1p-1074; 0x1p-1074]; [0x1p-1074; 0x1p-1074]]%float 0.5%float
  = Ok ([infinity; infinity], [0x1p-1074; 0x1p-1074]%float).
Proof. vm_compute. reflexivity. Qed.

(** ** [db_clustering]: centroids *)

Section DensityPeak.

Context {L : Lib}.

Lemma fit_gammas_tmp_idx (gammas : list float) (alpha : float)
      (tmp_idx : list float) (popt stds : float * float) :
  fit_gammas gammas alpha = Ok (tmp_idx, popt, stds) ->
  tmp_idx = map Fl.of_nat (seq 0 (length gammas)).
Proof.
  unfold fit_gammas. intros H. bind_inv H as fitted Hfit.
  destruct fitted as [p c]. inversion H; subst. reflexivity.
Qed.

Lemma calc_rho_delta_lengths (dists : fmat) (ratio : float) (rhos deltas : list float) :
  calc_rho_delta dists ratio = Ok (rhos, deltas) ->
  length rhos = length dists /\ length deltas = length dists.
Proof.
  unfold calc_rho_delta. intros H.
  bind_inv H as n2keep Hn. bind_inv H as floor Hfloor.
  bind_inv H as max_rho Hmax. bind_inv H as ds Hds. inversion H; subst. clear H.
  apply mapM_length in Hds.
  rewrite length_combine, length_seq, Nat.min_id in Hds.
  rewrite Hds. rewrite !length_map. split; reflexivity.
Qed.

(** What the first part of [db_clustering] computes. *)
Lemma db_centroids_Ok (matrix : fmat) (ratio : float)
      (dists : fmat) (gammas : list float) (pl : db_plotting) :
  db_centroids matrix ratio = Ok (dists, gammas, pl) ->
  length gammas = length dists /\
  gammas = map (fun '(r, d) => (r * d)%float) (combine (plot_rhos pl) (plot_deltas pl)) /\
  (exists popt stds,
      fit_gammas (rev (Fl.sort gammas)) 0.001%float
        = Ok (plot_tmp_idx pl, popt, stds) /\
      plot_tmp_idx pl = map Fl.of_nat (seq 0 (length gammas)) /\
      plot_uCI pl = map (fun x => _fn x (fst popt + fst stds)%float
                                        (snd popt + snd stds)%float)
                        (plot_tmp_idx pl)) /\
  plot_centroid_idx pl
    = np_where (map (fun '(g, u) => PrimFloat.leb u g) (combine gammas (plot_uCI pl))).
Proof.
  unfold db_centroids. intros H.
  bind_inv H as d0 Hd0. bind_inv H as mx Hmx. bind_inv H as rd Hrd.
  destruct rd as [rhos deltas]. bind_inv H as fitted Hfit.
  destruct fitted as [[tmp_idx popt] stds]. inversion H; subst. clear H. simpl.
  destruct (calc_rho_delta_lengths _ _ _ _ Hrd) as [Hr Hd].
  pose proof (fit_gammas_tmp_idx _ _ _ _ _ Hfit) as Htmp.
  rewrite length_rev, sort_length in Htmp.
  split; [rewrite length_map, length_combine, Hr, Hd, Nat.min_id; reflexivity|].
  split; [reflexivity|]. split; [|reflexivity].
  exists popt, stds. split; [exact Hfit|]. split; [exact Htmp | reflexivity].
Qed.



End DensityPeak.



(** ** Index assignment *)

Lemma list_set_length {A : Type} (a : list A) :
  forall i v, length (list_set a i v) = length a.
Proof.
  induction a as [|x a IH]; intros [|i] v; simpl; try reflexivity.
  rewrite IH. reflexivity.
Qed.

Lemma list_set_same {A : Type} (a : list A) :
  forall i v, i < length a -> nth_error (list_set a i v) i = Some v.
Proof.
  induction a as [|x a IH]; intros [|i] v Hi; simpl in *; try lia; [reflexivity|].
  apply IH. lia.
Qed.

Lemma list_set_other {A : Type} (a : list A) :
  forall i p v, p <> i -> nth_error (list_set a i v) p = nth_error a p.
Proof.
  induction a as [|x a IH]; intros [|i] [|p] v Hne; simpl; try reflexivity;
    try congruence.
  apply IH. congruence.
Qed.

Lemma list_set_In {A : Type} (a : list A) :
  forall i v z, In z (list_set a i v) -> In z a \/ z = v.
Proof.
  induction a as [|x a IH]; intros [|i] v z; simpl; try tauto.
  - intros [E|H]; [right; congruence | left; right; exact H].
  - intros [E|H]; [left; left; exact E|].
    destruct (IH _ _ _ H) as [H'|H']; [left; right; exact H' | right; exact H'].
Qed.

Lemma assign_cons {A : Type} (a : list A) (i : nat) (idx : list nat) (v : A) (vals : list A) :
  assign a (i :: idx) (v :: vals) = assign (list_set a i v) idx vals.
Proof. reflexivity. Qed.

Lemma assign_length {A : Type} (idx : list nat) :
  forall (vals a : list A), length (assign a idx vals) = length a.
Proof.
  induction idx as [|i idx IH]; intros [|v vals] a; try reflexivity.
  rewrite assign_cons, IH, list_set_length. reflexivity.
Qed.

Lemma assign_In {A : Type} (idx : list nat) :
  forall (vals a : list A) z, In z (assign a idx vals) -> In z a \/ In z vals.
Proof.
  induction idx as [|i idx IH]; intros [|v vals] a z; try (simpl; tauto).
  rewrite assign_cons. intros H. apply IH in H. destruct H as [H|H].
  - apply list_set_In in H. destruct H as [H| ->]; [left; exact H | right; left; reflexivity].
  - right. right. exact H.
Qed.

Lemma assign_untouched {A : Type} (idx : list nat) :
  forall (vals a : list A) p,
    ~ In p idx -> nth_error (assign a idx vals) p = nth_error a p.
Proof.
  induction idx as [|i idx IH]; intros [|v vals] a p Hp; try reflexivity.
  rewrite assign_cons, IH by (intros H; apply Hp; right; exact H).
  apply list_set_other. intros ->. apply Hp. left. reflexivity.
Qed.

(** After [a[idx] = vals] with distinct indices, [a[idx[j]] == vals[j]]. *)
Lemma assign_nth_error {A : Type} (idx : list nat) :
  forall (vals a : list A) j p v,
    NoDup idx -> nth_error idx j = Some p -> nth_error vals j = Some v ->
    p < length a -> nth_error (assign a idx vals) p = Some v.
Proof.
  induction idx as [|i idx IH]; intros vals a j p v Hnd Hj Hv Hp.
  - destruct j; discriminate.
  - destruct vals as [|v0 vals]; [destruct j; discriminate|].
    inversion Hnd as [|? ? Hi Hnd']; subst. rewrite assign_cons.
    destruct j as [|j]; simpl in Hj, Hv.
    + inversion Hj; inversion Hv; subst.
      rewrite assign_untouched by exact Hi. apply list_set_same. exact Hp.
    + eapply IH; try eassumption. rewrite list_set_length. exact Hp.
Qed.

(** ** Positions returned by [np.argmin] *)

Lemma argmin_from_range (a : list float) :
  forall best_i best i,
    Fl.argmin_from best_i best i a = best_i \/
    i <= Fl.argmin_from best_i best i a < i + length a.
Proof.
  induction a as [|x a IH]; intros best_i best i; simpl; [left; reflexivity|].
  destruct (PrimFloat.is_nan best); [left; reflexivity|].
  destruct (PrimFloat.is_nan x || PrimFloat.ltb x best).
  - destruct (IH i x (S i)) as [H|H]; right; lia.
  - destruct (IH best_i best (S i)) as [H|H]; [left; exact H | right; lia].
Qed.

Lemma argmin_lt (a : list float) (i : nat) : Fl.argmin a = Some i -> i < length a.
Proof.
  destruct a as [|x a]; simpl; [discriminate|].
  intros H. inversion H; subst.
  destruct (argmin_from_range a 0 x 1) as [E|E]; lia.
Qed.

Lemma fill_diagonal_length (m : fmat) (v : float) :
  length (Fl.fill_diagonal m v) = length m.
Proof.
  unfold Fl.fill_diagonal.
  rewrite length_map, length_combine, length_seq, Nat.min_id. reflexivity.
Qed.

Lemma cosine_similarity_length (X : fmat) : length (cosine_similarity X) = length X.
Proof. unfold cosine_similarity. rewrite !length_map. reflexivity. Qed.

Lemma transpose_length (m : fmat) : length (transpose m) = shape1 m.
Proof. unfold transpose. rewrite length_map, length_seq. reflexivity. Qed.

(** ** Labels of the two time-bin clusterings *)

Section TimeBinLabels.

Context {L : Lib}.

Lemma db_centroids_dists (matrix : fmat) (ratio : float)
      (dists : fmat) (gammas : list float) (pl : db_plotting) :
  db_centroids matrix ratio = Ok (dists, gammas, pl) ->
  exists d0 mx, euclidean_dists matrix = Ok d0 /\ dists = Fl.fill_diagonal d0 mx.
Proof.
  unfold db_centroids. intros H.
  bind_inv H as d0 Hd0. bind_inv H as mx Hmx. bind_inv H as rd Hrd.
  destruct rd as [rhos deltas]. bind_inv H as fitted Hfit.
  destruct fitted as [[tmp_idx popt] stds]. inversion H; subst.
  exists d0, mx. split; [exact Hd0 | reflexivity].
Qed.

Lemma db_assign_labels (dists : fmat) (centroid_idx : list nat) (labels : list Z) :
  db_assign dists centroid_idx = Ok labels ->
  NoDup centroid_idx ->
  (forall i, In i centroid_idx -> i < length dists) ->
  length labels = length dists /\
  (forall z, In z labels <-> (0 <= z < Z.of_nat (length centroid_idx))%Z) /\
  (forall j, j < length centroid_idx ->
             nth_error labels (nth j centroid_idx 0) = Some (Z.of_nat j)).
Proof.
  unfold db_assign. intros H Hnd Hin.
  destruct (negb (length centroid_idx <=? 20)); [discriminate|].
  bind_inv H as clusters Hcl. inversion H; subst labels. clear H.
  pose proof (mapM_length _ _ _ Hcl) as Hlen.
  apply mapM_Ok in Hcl.
  assert (Hassigned : forall j, j < length centroid_idx ->
            nth_error (assign clusters centroid_idx
                         (map Z.of_nat (seq 0 (length centroid_idx))))
                      (nth j centroid_idx 0) = Some (Z.of_nat j)).
  { intros j Hj. apply (assign_nth_error centroid_idx _ _ j).
    - exact Hnd.
    - apply nth_error_nth'. exact Hj.
    - rewrite nth_error_map, nth_error_seq.
      destruct (Nat.ltb_spec j (length centroid_idx)); [reflexivity | lia].
    - rewrite Hlen. apply Hin. apply nth_In. exact Hj. }
  split; [rewrite assign_length; exact Hlen|]. split; [|exact Hassigned].
  intros z. split.
  - intros Hz. apply assign_In in Hz. destruct Hz as [Hz|Hz].
    + apply In_nth_error in Hz. destruct Hz as (p & Hp).
      clear Hassigned Hlen Hin Hnd. revert p Hp.
      induction Hcl as [|row y rows ys Hy _ IH]; intros [|p] Hp; simpl in Hp;
        try discriminate.
      * inversion Hp; subst y. bind_inv Hy as i Hi. inversion Hy; subst z.
        destruct (Fl.argmin _) as [i'|] eqn:Harg in Hi; [|discriminate].
        simpl in Hi. inversion Hi; subst i'.
        apply argmin_lt in Harg. rewrite length_map in Harg. lia.
      * eapply IH; eassumption.
    + apply in_map_iff in Hz. destruct Hz as (j & <- & Hj).
      apply in_seq in Hj. lia.
  - intros Hz.
    assert (Hj : Z.to_nat z < length centroid_idx) by lia.
    specialize (Hassigned _ Hj). rewrite Z2Nat.id in Hassigned by lia.
    eapply nth_error_In; eassumption.
Qed.

Lemma db_clustering_Ok (matrix : fmat) (ratio : float) (labels : list Z)
      (pl : db_plotting) :
  db_clustering matrix ratio = Ok (labels, pl) ->
  exists dists gammas,
    db_centroids matrix ratio = Ok (dists, gammas, pl) /\
    db_assign dists (plot_centroid_idx pl) = Ok labels.
Proof.
  unfold db_clustering. intros H. bind_inv H as st Hst.
  destruct st as [[dists gammas] pl']. bind_inv H as cl Hcl.
  inversion H; subst. exists dists, gammas. split; [exact Hst | exact Hcl].
Qed.

Lemma cluster_sim_mat_Ok (spike_matrix : fmat) (min_n max_n : nat) (n_method : string)
      (sim : fmat) (labels : list Z) (plotting : linkage_matrix * option (list float)) :
  cluster_sim_mat spike_matrix min_n max_n n_method = Ok (sim, labels, plotting) ->
  sim = cosine_similarity (transpose spike_matrix) /\
  exists n cl, fcluster (fst plotting) n = Ok cl /\
               labels = map (fun c => (c - 1)%Z) cl.
Proof.
  unfold cluster_sim_mat. intros H.
  bind_inv H as cond Hcond. bind_inv H as lm Hlm. bind_inv H as scores Hscores.
  destruct scores as [ss db]. bind_inv H as n Hn. bind_inv H as cl Hcl.
  bind_inv H as sil Hsil. inversion H; subst.
  split; [reflexivity|]. exists n, cl. split; [exact Hcl | reflexivity].
Qed.

(** C6.  Hierarchical mode returns the flat clusters of scipy's [fcluster]
    shifted by one: when a cut has one label per time bin and uses the labels
    1..k, the result has one label per time bin and uses exactly 0..k-1.
    Density-peak mode returns one label per row of the distance array (per
    time bin), uses exactly the labels 0..c-1 for its c centroids, and the
    j-th centroid found carries label j. *)
Theorem time_bin_labels_dense :
  (forall spike_matrix min_n max_n n_method sim labels plotting,
      cluster_sim_mat spike_matrix min_n max_n n_method = Ok (sim, labels, plotting) ->
      (forall n cl, fcluster (fst plotting) n = Ok cl ->
                    length cl = shape1 spike_matrix /\
                    exists k, forall z, In z cl <-> (1 <= z <= Z.of_nat k)%Z) ->
      length labels = shape1 spike_matrix /\
      exists k, forall z, In z labels <-> (0 <= z < Z.of_nat k)%Z) /\
  (forall matrix ratio labels pl,
      db_clustering matrix ratio = Ok (labels, pl) ->
      (forall d, euclidean_dists matrix = Ok d -> length d = length matrix) ->
      length labels = length matrix /\
      (forall z, In z labels <-> (0 <= z < Z.of_nat (length (plot_centroid_idx pl)))%Z) /\
      (forall j, j < length (plot_centroid_idx pl) ->
                 nth_error labels (nth j (plot_centroid_idx pl) 0) = Some (Z.of_nat j))).
Proof.
  split.
  - intros spike_matrix min_n max_n n_method sim labels plotting H Hlib.
    apply cluster_sim_mat_Ok in H. destruct H as (_ & n & cl & Hcl & ->).
    destruct (Hlib n cl Hcl) as (Hlen & k & Hk).
    split; [rewrite length_map; exact Hlen|].
    exists k. intros z. rewrite in_map_iff. split.
    + intros (c & <- & Hc). apply Hk in Hc. lia.
    + intros Hz. exists (z + 1)%Z. split; [lia|]. apply Hk. lia.
  - intros matrix ratio labels pl H Hlib.
    apply db_clustering_Ok in H. destruct H as (dists & gammas & Hcent & Hassign).
    destruct (db_centroids_dists _ _ _ _ _ Hcent) as (d0 & mx & Hd0 & Hdists).
    destruct (db_centroids_Ok _ _ _ _ _ Hcent) as (Hlen & _ & (popt & stds & _ & Htmp & HuCI) & Hc).
    assert (HlenU : length (plot_uCI pl) = length gammas)
      by (rewrite HuCI, Htmp, !length_map, length_seq; reflexivity).
    destruct (db_assign_labels _ _ _ Hassign) as (Hl & Hdense & Horder).
    + rewrite Hc. apply np_where_NoDup.
    + intros i Hi. rewrite Hc in Hi. apply np_where_lt in Hi.
      rewrite length_map, length_combine, HlenU, Nat.min_id in Hi. lia.
    + split; [|split; assumption].
      rewrite Hl, Hdists, fill_diagonal_length. apply Hlib. exact Hd0.
Qed.

End TimeBinLabels.

Lemma time_bin_labels_dense_witness :
  (* hierarchical mode *)
  (@cluster_sim_mat (example_lib two_state_cut []) small_spike_matrix 2 2 "DB"
   = Ok (cosine_similarity (transpose small_spike_matrix), [0; 1; 0]%Z, (tt, None)) /\
   (forall n cl, @fcluster (example_lib two_state_cut []) tt n = Ok cl ->
                 length cl = shape1 small_spike_matrix /\
                 exists k, forall z, In z cl <-> (1 <= z <= Z.of_nat k)%Z) /\
   length [0; 1; 0]%Z = shape1 small_spike_matrix /\
   exists k, forall z, In z [0; 1; 0]%Z <-> (0 <= z < Z.of_nat k)%Z) /\
  (* density-peak mode *)
  (exists pl,
      @db_clustering equidistant_lib three_bins 0.5%float = Ok ([0; 1; 2]%Z, pl) /\
      (forall d, @euclidean_dists equidistant_lib three_bins = Ok d ->
                 length d = length three_bins) /\
      length [0; 1; 2]%Z = length three_bins /\
      (forall z, In z [0; 1; 2]%Z <->
                 (0 <= z < Z.of_nat (length (plot_centroid_idx pl)))%Z) /\
      (forall j, j < length (plot_centroid_idx pl) ->
                 nth_error [0; 1; 2]%Z (nth j (plot_centroid_idx pl) 0)
                 = Some (Z.of_nat j))).
Proof.
  split.
  - assert (Hrun : @cluster_sim_mat (example_lib two_state_cut []) small_spike_matrix
                     2 2 "DB"
                   = Ok (cosine_similarity (transpose small_spike_matrix),
                         [0; 1; 0]%Z, (tt, None)))
      by (vm_compute; reflexivity).
    assert (Hlib : forall n cl, @fcluster (example_lib two_state_cut []) tt n = Ok cl ->
                     length cl = shape1 small_spike_matrix /\
                     exists k, forall z, In z cl <-> (1 <= z <= Z.of_nat k)%Z).
    { intros n cl Hcl. simpl in Hcl. inversion Hcl; subst cl.
      split; [reflexivity|]. exists 2. intros z. simpl. lia. }
    split; [exact Hrun|]. split; [exact Hlib|].
    exact (proj1 (@time_bin_labels_dense (example_lib two_state_cut []))
                 small_spike_matrix 2 2 "DB"%string _ _ _ Hrun Hlib).
  - destruct (@db_clustering equidistant_lib three_bins 0.5%float)
      as [[labels pl]|e] eqn:Hrun; [|vm_compute in Hrun; discriminate Hrun].
    assert (Hlabels : labels = [0; 1; 2]%Z).
    { vm_compute in Hrun. inversion Hrun. reflexivity. }
    subst labels. exists pl.
    assert (Hlib : forall d, @euclidean_dists equidistant_lib three_bins = Ok d ->
                             length d = length three_bins).
    { intros d Hd. simpl in Hd. inversion Hd; subst d. reflexivity. }
    split; [reflexivity|]. split; [exact Hlib|].
    exact (proj2 (@time_bin_labels_dense equidistant_lib)
                 three_bins 0.5%float _ _ Hrun Hlib).
Defined.

(** ** Pairwise correlations *)

Lemma nan_to_zero_no_nan (corrs : fmat) : no_nan (nan_to_zero corrs).
Proof.
  unfold no_nan, nan_to_zero. apply Forall_forall. intros row Hrow.
  apply in_map_iff in Hrow. destruct Hrow as (row0 & <- & _).
  apply Forall_forall. intros c Hc. apply in_map_iff in Hc.
  destruct Hc as (c0 & <- & _).
  destruct (PrimFloat.is_nan c0) eqn:E; [reflexivity | exact E].
Qed.

Section Correlations.

Context {L : Lib}.

(** C9.  Whatever distance array the library call returns, both correlation
    routines return (they add no failure of their own), the result holds
    [1 - distance] wherever that is a number and 0 wherever it is NaN, and no
    entry of the result is NaN. *)
Theorem pairwise_correlation_nan_free (x y : fmat) (d : fmat) :
  (pairwise_distances_correlation x = Ok d ->
   exists corrs,
     pairwise_correlation_X x = Ok corrs /\ no_nan corrs /\
     corrs = map (map (fun v => if PrimFloat.is_nan (1 - v)%float then 0%float
                                else (1 - v)%float)) d) /\
  (cdist_correlation x y = Ok d ->
   exists corrs,
     pairwise_correlation_XY x y = Ok corrs /\ no_nan corrs /\
     corrs = map (map (fun v => if PrimFloat.is_nan (1 - v)%float then 0%float
                                else (1 - v)%float)) d).
Proof.
  split; intros Hd.
  - unfold pairwise_correlation_X. rewrite Hd. cbn [bind].
    eexists. split; [reflexivity|]. split; [apply nan_to_zero_no_nan|].
    unfold nan_to_zero. rewrite map_map. apply map_ext. intros row.
    rewrite map_map. reflexivity.
  - unfold pairwise_correlation_XY. rewrite Hd. cbn [bind].
    eexists. split; [reflexivity|]. split; [apply nan_to_zero_no_nan|].
    unfold nan_to_zero. rewrite map_map. apply map_ext. intros row.
    rewrite map_map. reflexivity.
Qed.


End Correlations.

Lemma pairwise_correlation_nan_free_witness :
  let d := [[0; nan]; [nan; 0.5]]%float in
  let L := example_lib single_cluster_cut d in
  (pairwise_distances_correlation [[1; 1]; [1; 2]]%float = Ok d /\
   exists corrs,
     pairwise_correlation_X [[1; 1]; [1; 2]]%float = Ok corrs /\ no_nan corrs /\
     corrs = [[1; 0]; [0; 0.5]]%float) /\
  (cdist_correlation [[1; 1]; [1; 2]]%float [[1; 1]; [1; 2]]%float = Ok d /\
   exists corrs,
     pairwise_correlation_XY [[1; 1]; [1; 2]]%float [[1; 1]; [1; 2]]%float = Ok corrs /\
     no_nan corrs /\ corrs = [[1; 0]; [0; 0.5]]%float).
Proof.
  intros d L.
  pose proof (@pairwise_correlation_nan_free L [[1; 1]; [1; 2]]%float
                [[1; 1]; [1; 2]]%float d) as [HX HXY].
  split.
  - split; [reflexivity|]. destruct (HX eq_refl) as (corrs & Hrun & Hnan & Heq).
    exists corrs. split; [exact Hrun|]. split; [exact Hnan|].
    rewrite Heq. vm_compute. reflexivity.
  - split; [reflexivity|]. destruct (HXY eq_refl) as (corrs & Hrun & Hnan & Heq).
    exists corrs. split; [exact Hrun|]. split; [exact Hnan|].
    rewrite Heq. vm_compute. reflexivity.
Defined.

(** ** Within-cluster correlations *)

Lemma get_fill_diagonal_nan (m : fmat) (r c : nat) :
  Fl.get (Fl.fill_diagonal m nan) r c = if r =? c then nan else Fl.get m r c.
Proof.
  unfold Fl.get, Fl.fill_diagonal.
  destruct (Nat.lt_ge_cases r (length m)) as [Hr|Hr].
  - rewrite (nth_map_in _ _ _ [] (0, []))
      by (rewrite length_combine, length_seq, Nat.min_id; exact Hr).
    rewrite combine_nth by apply length_seq. rewrite seq_nth by exact Hr. simpl.
    destruct (Nat.lt_ge_cases c (length (nth r m []))) as [Hc|Hc].
    + rewrite (nth_map_in _ _ _ nan (0, nan))
        by (rewrite length_combine, length_seq, Nat.min_id; exact Hc).
      rewrite combine_nth by apply length_seq. rewrite seq_nth by exact Hc. reflexivity.
    + rewrite nth_overflow
        by (rewrite length_map, length_combine, length_seq, Nat.min_id; exact Hc).
      rewrite (nth_overflow (nth r m [])) by exact Hc.
      destruct (r =? c); reflexivity.
  - rewrite (nth_overflow (map _ (combine _ m)))
      by (rewrite length_map, length_combine, length_seq, Nat.min_id; exact Hr).
    rewrite (nth_overflow m) by exact Hr.
    destruct c; destruct (r =? _); reflexivity.
Qed.







Section AssemblyDetector.

Context {L : Lib}.



End AssemblyDetector.


(** ** Core cells *)

Lemma mapM_nth {A B : Type} (f : A -> result B) (a : list A) (b : list B)
      (i : nat) (da : A) (db : B) :
  mapM f a = Ok b -> i < length a -> f (nth i a da) = Ok (nth i b db).
Proof.
  intros H. apply mapM_Ok in H. revert i.
  induction H as [|x y a b Hxy _ IH]; intros i Hi; simpl in Hi; [lia|].
  destruct i as [|i]; simpl; [exact Hxy | apply IH; lia].
Qed.

Lemma nth_of_nth_error {A : Type} (a b : list A) (p : nat) (d : A) :
  nth_error a p = nth_error b p -> nth p a d = nth p b d.
Proof.
  intros H. rewrite <- !nth_default_eq. unfold nth_default. rewrite H. reflexivity.
Qed.

Lemma list_set_nth_same {A : Type} (a : list A) (i : nat) (v d : A) :
  i < length a -> nth i (list_set a i v) d = v.
Proof. intros Hi. apply nth_error_nth. apply list_set_same. exact Hi. Qed.

Lemma list_set_nth_other {A : Type} (a : list A) (i p : nat) (v d : A) :
  p <> i -> nth p (list_set a i v) d = nth p a d.
Proof. intros Hne. apply nth_of_nth_error. apply list_set_other. exact Hne. Qed.

Lemma py_row_index_nonneg (k : nat) (i : Z) (r : nat) :
  (0 <= i)%Z -> py_row_index k i = Ok r -> r = Z.to_nat i /\ r < k.
Proof.
  unfold py_row_index. intros Hi.
  destruct (Z.leb_spec 0 i) as [_|]; [|lia].
  destruct (Z.ltb_spec i (Z.of_nat k)) as [Hlt|Hge]; simpl.
  - intros H. inversion H; subst. split; [reflexivity | lia].
  - destruct (Z.ltb_spec i 0) as [|_]; [lia|].
    rewrite andb_false_r. discriminate.
Qed.

Lemma fill_indicator_rows_spec (clusters : list Z) (k : nat) :
  forall labels sp0 sp,
    fill_indicator_rows clusters k labels sp0 = Ok sp ->
    length sp0 = k -> Forall (fun i => (0 <= i)%Z) labels -> NoDup labels ->
    (forall i, In i labels ->
               nth (Z.to_nat i) sp [] = mark_label clusters i (nth (Z.to_nat i) sp0 [])) /\
    (forall r, (forall i, In i labels -> Z.to_nat i <> r) -> nth r sp [] = nth r sp0 []).
Proof.
  induction labels as [|i labels IH]; intros sp0 sp H Hlen Hpos Hnd.
  - simpl in H. inversion H; subst. split; [intros i [] | reflexivity].
  - simpl in H. bind_inv H as r Hr.
    inversion Hpos as [|? ? Hi Hpos']; subst. inversion Hnd as [|? ? Hnot Hnd']; subst.
    destruct (py_row_index_nonneg _ _ _ Hi Hr) as [-> Hlt].
    fold (mark_label clusters i (nth (Z.to_nat i) sp0 [])) in H.
    apply IH in H; [|rewrite list_set_length; reflexivity | exact Hpos' | exact Hnd'].
    destruct H as [Hmarked Hrest].
    assert (Hdiff : forall j, In j labels -> Z.to_nat j <> Z.to_nat i).
    { intros j Hj E. rewrite Forall_forall in Hpos'. specialize (Hpos' j Hj).
      apply Z2Nat.inj in E; [|lia|lia]. subst j. contradiction. }
    split.
    + intros j [<-|Hj].
      * rewrite Hrest by exact Hdiff. apply list_set_nth_same. lia.
      * rewrite (Hmarked j Hj). rewrite list_set_nth_other by (apply Hdiff; exact Hj).
        reflexivity.
    + intros r Hr'. rewrite Hrest by (intros j Hj; apply Hr'; right; exact Hj).
      apply list_set_nth_other. intros ->. apply (Hr' i); [left|]; reflexivity.
Qed.

Lemma mark_label_zeros (clusters : list Z) (i : Z) :
  mark_label clusters i (repeat 0%Z (length clusters))
  = map (fun l => if (l =? i)%Z then 1%Z else 0%Z) clusters.
Proof.
  unfold mark_label. induction clusters as [|l clusters IH]; simpl; [reflexivity|].
  rewrite IH. reflexivity.
Qed.

(** The row of a label in the array built by [_convert_clusters] is the
    one-hot indicator of the time bins with that label. *)
Lemma convert_clusters_indicator (clusters : list Z) (sparse : list (list Z)) :
  _convert_clusters clusters = Ok sparse ->
  Forall (fun l => (0 <= l)%Z) clusters ->
  forall label, In label clusters ->
    nth (Z.to_nat label) sparse []
    = map (fun l => if (l =? label)%Z then 1%Z else 0%Z) clusters.
Proof.
  unfold _convert_clusters. intros H Hpos label Hin.
  assert (Hu : In label (Np.unique clusters)) by (apply unique_In; exact Hin).
  assert (Hupos : Forall (fun i => (0 <= i)%Z) (Np.unique clusters)).
  { rewrite Forall_forall in *. intros i Hi. apply Hpos. apply unique_In. exact Hi. }
  pose proof H as Hrows.
  apply fill_indicator_rows_spec in H;
    [|apply repeat_length | exact Hupos | apply unique_NoDup].
  destruct H as [Hmarked _]. rewrite (Hmarked label Hu).
  assert (Hr : Z.to_nat label < length (Np.unique clusters)).
  { clear Hmarked.
    assert (Hgen : forall labels sp0 sp,
               fill_indicator_rows clusters (length (Np.unique clusters)) labels sp0 = Ok sp ->
               Forall (fun i => (0 <= i)%Z) labels -> In label labels ->
               Z.to_nat label < length (Np.unique clusters)).
    { induction labels as [|i labels IH]; intros sp0 sp Hf Hp Hl; [destruct Hl|].
      simpl in Hf. bind_inv Hf as r Hr. inversion Hp as [|? ? Hi Hp']; subst.
      destruct Hl as [->|Hl].
      - destruct (py_row_index_nonneg _ _ _ Hi Hr) as [-> Hlt]. exact Hlt.
      - eapply IH; eassumption. }
    eapply Hgen; eassumption. }
  rewrite nth_repeat_lt by exact Hr. apply mark_label_zeros.
Qed.

Section CoreCells.

Context {L : Lib}.



End CoreCells.


(* ===================================================================== *)
(** * Further properties of the module *)
(* ===================================================================== *)

(** ** [_check_seed_separation] *)

Lemma assoc_unique (acc : list (Z * nat)) (x : Z) (c c' : nat) :
  NoDup (map fst acc) -> In (x, c) acc -> In (x, c') acc -> c = c'.
Proof.
  induction acc as [|[k d] acc IH]; simpl; [tauto|].
  intros Hnd Hc Hc'. inversion Hnd as [|? ? Hk Hnd']; subst.
  destruct Hc as [Hc|Hc]; destruct Hc' as [Hc'|Hc'].
  - congruence.
  - inversion Hc; subst. exfalso. apply Hk. apply (in_map fst) in Hc'. exact Hc'.
  - inversion Hc'; subst. exfalso. apply Hk. apply (in_map fst) in Hc. exact Hc.
  - apply IH; assumption.
Qed.

Lemma NoDup_no_repeated_count (a : list Z) :
  NoDup a -> existsb (fun c => 1 <? c) (Np.counts a) = false.
Proof.
  intros Hnd. destruct (existsb _ _) eqn:Hex; [|reflexivity]. exfalso.
  apply existsb_exists in Hex. destruct Hex as (c & Hc & Hgt).
  apply Nat.ltb_lt in Hgt. unfold Np.counts in Hc.
  apply in_map_iff in Hc. destruct Hc as ([x c0] & Hsnd & Hin). simpl in Hsnd. subst c0.
  assert (Hx : In x a).
  { apply unique_In. unfold Np.unique. apply (in_map fst) in Hin. exact Hin. }
  pose proof (unique_counts_occ a x Hx) as Hocc.
  assert (Hc : c = count_occ Z.eq_dec a x).
  { eapply assoc_unique; [|exact Hin|exact Hocc].
    apply increasing_NoDup, unique_counts_increasing. }
  pose proof (proj1 (NoDup_count_occ Z.eq_dec a) Hnd x). lia.
Qed.

(** [_check_seed_separation] answers True exactly when, in the block of rows
    of every seed, no cluster label occurs twice. *)
Theorem check_seed_separation_iff (clusters : list Z) (n_assemblies_cum : list nat) :
  _check_seed_separation clusters n_assemblies_cum = true <->
  forall i j, In (i, j) (seed_blocks n_assemblies_cum) -> NoDup (Np.slice clusters i j).
Proof.
  unfold _check_seed_separation. rewrite forallb_forall. split.
  - intros H i j Hin. specialize (H _ Hin). simpl in H.
    apply negb_true_iff in H. apply no_repeated_count_NoDup. exact H.
  - intros H [i j] Hin. apply negb_true_iff. apply NoDup_no_repeated_count.
    apply H. exact Hin.
Qed.

(** ** [cluster_assemblies] and [cluster_sim_mat]: the choice of the count *)

Section CountSelection.

Context {L : Lib}.

Lemma score_counts_first (lm : linkage_matrix) (dists : fmat) (cum : list nat) :
  forall ns n valid ss db,
    score_counts lm dists cum ns = Ok (n :: valid, ss, db) ->
    exists before after,
      ns = before ++ n :: after /\
      forall m, In m before ->
                exists cl, fcluster lm m = Ok cl /\
                           _check_seed_separation cl cum = false.
Proof.
  induction ns as [|k ns IH]; intros n valid ss db H; simpl in H; [discriminate|].
  bind_inv H as cl Hcl. destruct (_check_seed_separation cl cum) eqn:Hcheck.
  - bind_inv H as s Hs. bind_inv H as d Hd. bind_inv H as rest Hrest.
    destruct rest as [[v s'] d']. inversion H; subst.
    exists [], ns. split; [reflexivity | intros m []].
  - destruct (IH _ _ _ _ H) as (before & after & -> & Hbefore).
    exists (k :: before), after. split; [reflexivity|].
    intros m [<-|Hm]; [exists cl; split; assumption | apply Hbefore; exact Hm].
Qed.

Lemma seq_split_lt (start len n : nat) (before after : list nat) :
  seq start len = before ++ n :: after ->
  forall m, start <= m < n -> In m before.
Proof.
  revert start len. induction before as [|b before IH]; intros start len Hsplit m Hm.
  - destruct len as [|len]; simpl in Hsplit; [discriminate|].
    inversion Hsplit; subst. lia.
  - destruct len as [|len]; simpl in Hsplit; [discriminate|].
    inversion Hsplit as [[Hb Hrest]]. subst b.
    destruct (Nat.eq_dec m start) as [->|Hne]; [left; reflexivity|].
    right. apply (IH (S start) len Hrest). lia.
Qed.

(** With [n_method = "min"] the labels returned are those of the smallest
    count of the range whose cut separates the seeds: every smaller count of
    the range was cut and failed the test. *)
Theorem cluster_assemblies_min_first_valid
      (assemblies : list (list bool)) (n_assemblies : list nat)
      (metric method : string) (upd : bool)
      (sim : fmat) (labels : list Z) (plotting : linkage_matrix * option (list float)) :
  cluster_assemblies assemblies n_assemblies metric method upd "min"
    = Ok (sim, labels, plotting) ->
  exists min_n n cl,
    Np.max_nat n_assemblies = Some min_n /\
    min_n <= n <= Nat.min 20 (list_sum n_assemblies) /\
    fcluster (fst plotting) n = Ok cl /\
    _check_seed_separation cl (0 :: Np.cumsum n_assemblies) = true /\
    labels = map (fun c => (c - 1)%Z) cl /\
    forall m, min_n <= m < n ->
              exists cl', fcluster (fst plotting) m = Ok cl' /\
                          _check_seed_separation cl' (0 :: Np.cumsum n_assemblies) = false.
Proof.
  unfold cluster_assemblies. intros H.
  bind_inv H as c0 Hc0. bind_inv H as d0 Hd0. bind_inv H as dc Hdc.
  destruct dc as [dists cond].
  bind_inv H as min_n Hmin. bind_inv H as lm Hlm. bind_inv H as scored Hscored.
  destruct scored as [[valid ss] db].
  bind_inv H as n Hn. bind_inv H as clusters Hclusters. bind_inv H as sil Hsil.
  inversion H; subst. clear H.
  destruct (Np.max_nat n_assemblies) as [m0|] eqn:Hmax; [|discriminate].
  simpl in Hmin. inversion Hmin; subst m0.
  rewrite max_n_clusts_min, cumsum_last in Hscored.
  unfold select_n_clust in Hn. destruct (0 <? length valid); [|discriminate].
  simpl in Hn. unfold list_index in Hn.
  destruct valid as [|n0 valid]; [discriminate|]. simpl in Hn. inversion Hn; subst n0.
  destruct (score_counts_valid _ _ _ _ _ _ _ Hscored) as (_ & _ & Hvalid).
  destruct (Hvalid n (or_introl eq_refl)) as (Hrange & cl & Hcl & Hcheck).
  apply n_clusts_range_In in Hrange.
  destruct (score_counts_first _ _ _ _ _ _ _ _ Hscored) as (before & after & Hsplit & Hbefore).
  exists min_n, n, cl. simpl.
  split; [reflexivity|]. split; [exact Hrange|]. split; [exact Hcl|].
  split; [exact Hcheck|]. split.
  - rewrite Hcl in Hclusters. inversion Hclusters; subst. reflexivity.
  - intros m Hm. apply Hbefore. unfold n_clusts_range in Hsplit.
    eapply seq_split_lt; eassumption.
Qed.

Lemma score_all_length (lm : linkage_matrix) (dists : fmat) :
  forall ns ss db, score_all lm dists ns = Ok (ss, db) ->
                   length ss = length ns /\ length db = length ns.
Proof.
  induction ns as [|n ns IH]; intros ss db H; simpl in H.
  - inversion H; subst. split; reflexivity.
  - bind_inv H as cl Hcl. bind_inv H as s Hs. bind_inv H as d Hd.
    bind_inv H as rest Hrest. destruct rest as [ss' db']. inversion H; subst.
    destruct (IH _ _ Hrest) as [H1 H2]. simpl. split; congruence.
Qed.

Lemma argmax_from_range (a : list float) :
  forall best_i best i,
    Fl.argmax_from best_i best i a = best_i \/
    i <= Fl.argmax_from best_i best i a < i + length a.
Proof.
  induction a as [|x a IH]; intros best_i best i; simpl; [left; reflexivity|].
  destruct (PrimFloat.is_nan best); [left; reflexivity|].
  destruct (PrimFloat.is_nan x || PrimFloat.ltb best x).
  - destruct (IH i x (S i)) as [H|H]; right; lia.
  - destruct (IH best_i best (S i)) as [H|H]; [left; exact H | right; lia].
Qed.

Lemma argmax_lt (a : list float) (i : nat) : Fl.argmax a = Some i -> i < length a.
Proof.
  destruct a as [|x a]; simpl; [discriminate|].
  intros H. inversion H; subst.
  destruct (argmax_from_range a 0 x 1) as [E|E]; lia.
Qed.

(** The cluster count at which [cluster_sim_mat] finally cuts the dendrogram
    lies between [min_n_clusts] and [max_n_clusts]; in particular, when both
    are the same number (a seed listed in [overwrite_seeds]) the cut is made
    at that number, and an empty range never gives a result. *)
Theorem cluster_sim_mat_count_in_range (spike_matrix : fmat) (min_n max_n : nat)
      (n_method : string) (sim : fmat) (labels : list Z)
      (plotting : linkage_matrix * option (list float)) :
  cluster_sim_mat spike_matrix min_n max_n n_method = Ok (sim, labels, plotting) ->
  min_n <= max_n /\
  exists n cl, min_n <= n <= max_n /\
               fcluster (fst plotting) n = Ok cl /\
               labels = map (fun c => (c - 1)%Z) cl.
Proof.
  unfold cluster_sim_mat. intros H.
  bind_inv H as cond Hcond. bind_inv H as lm Hlm. bind_inv H as scores Hscores.
  destruct scores as [ss db]. bind_inv H as n Hn. bind_inv H as cl Hcl.
  bind_inv H as sil Hsil. inversion H; subst. clear H.
  destruct (score_all_length _ _ _ _ _ Hscores) as [Hss Hdb].
  unfold n_clusts_range in Hss, Hdb. rewrite length_seq in Hss, Hdb.
  assert (Hi : exists i, n = i + min_n /\ i < max_n + 1 - min_n).
  { destruct (n_method =? "ss")%string.
    - bind_inv Hn as i Hi. inversion Hn; subst.
      destruct (Fl.argmax ss) as [i'|] eqn:Harg; [|discriminate].
      simpl in Hi. inversion Hi; subst i'. apply argmax_lt in Harg.
      exists i. split; [reflexivity | lia].
    - destruct (n_method =? "DB")%string; [|discriminate].
      bind_inv Hn as i Hi. inversion Hn; subst.
      destruct (Fl.argmin db) as [i'|] eqn:Harg; [|discriminate].
      simpl in Hi. inversion Hi; subst i'. apply argmin_lt in Harg.
      exists i. split; [reflexivity | lia]. }
  destruct Hi as (i & -> & Hi).
  split; [lia|]. exists (i + min_n), cl. simpl.
  split; [lia|]. split; [exact Hcl | reflexivity].
Qed.

(** Neither clustering returns a result for a selection method it does not
    know: [cluster_assemblies] knows "min", "ss" and "DB", [cluster_sim_mat]
    "ss" and "DB". *)
Theorem unknown_n_method_never_returns
      (assemblies : list (list bool)) (n_assemblies : list nat)
      (metric method : string) (upd : bool) (spike_matrix : fmat) (min_n max_n : nat)
      (n_method : string) :
  ((exists r, cluster_assemblies assemblies n_assemblies metric method upd n_method = Ok r) ->
   n_method = "min"%string \/ n_method = "ss"%string \/ n_method = "DB"%string) /\
  ((exists r, cluster_sim_mat spike_matrix min_n max_n n_method = Ok r) ->
   n_method = "ss"%string \/ n_method = "DB"%string).
Proof.
  split.
  - intros [r H]. unfold cluster_assemblies in H.
    bind_inv H as c0 Hc0. bind_inv H as d0 Hd0. bind_inv H as dc Hdc.
    destruct dc as [dists cond].
    bind_inv H as mn Hmin. bind_inv H as lm Hlm. bind_inv H as scored Hscored.
    destruct scored as [[valid ss] db]. bind_inv H as n Hn.
    unfold select_n_clust in Hn. destruct (0 <? length valid); [|discriminate].
    destruct (String.eqb_spec n_method "min"); [left; assumption|].
    destruct (String.eqb_spec n_method "ss"); [right; left; assumption|].
    destruct (String.eqb_spec n_method "DB"); [right; right; assumption|].
    discriminate.
  - intros [r H]. unfold cluster_sim_mat in H.
    bind_inv H as cond Hcond. bind_inv H as lm Hlm. bind_inv H as scores Hscores.
    destruct scores as [ss db]. bind_inv H as n Hn.
    destruct (String.eqb_spec n_method "ss"); [left; assumption|].
    destruct (String.eqb_spec n_method "DB"); [right; assumption|].
    discriminate.
Qed.

End CountSelection.

Lemma cluster_assemblies_min_first_valid_witness :
  @cluster_assemblies (example_lib late_valid_cut []) four_assemblies [2; 2]
     "hamming" "average" false "min" = Ok ([], [0; 1; 0; 2]%Z, (tt, None)) /\
  exists min_n n cl,
    Np.max_nat [2; 2] = Some min_n /\
    min_n <= n <= Nat.min 20 (list_sum [2; 2]) /\
    @fcluster (example_lib late_valid_cut []) tt n = Ok cl /\
    _check_seed_separation cl (0 :: Np.cumsum [2; 2]) = true /\
    [0; 1; 0; 2]%Z = map (fun c => (c - 1)%Z) cl /\
    forall m, min_n <= m < n ->
              exists cl', @fcluster (example_lib late_valid_cut []) tt m = Ok cl' /\
                          _check_seed_separation cl' (0 :: Np.cumsum [2; 2]) = false.
Proof.
  assert (Hrun : @cluster_assemblies (example_lib late_valid_cut []) four_assemblies [2; 2]
                   "hamming" "average" false "min" = Ok ([], [0; 1; 0; 2]%Z, (tt, None)))
    by (vm_compute; reflexivity).
  split; [exact Hrun|].
  exact (@cluster_assemblies_min_first_valid (example_lib late_valid_cut [])
           four_assemblies [2; 2] "hamming" "average" false _ _ _ Hrun).
Defined.

Lemma cluster_sim_mat_count_in_range_witness :
  @cluster_sim_mat (example_lib two_state_cut []) small_spike_matrix 2 2 "DB"
  = Ok (cosine_similarity (transpose small_spike_matrix), [0; 1; 0]%Z, (tt, None)) /\
  2 <= 2 /\
  exists n cl, 2 <= n <= 2 /\
               @fcluster (example_lib two_state_cut []) tt n = Ok cl /\
               [0; 1; 0]%Z = map (fun c => (c - 1)%Z) cl.
Proof.
  assert (Hrun : @cluster_sim_mat (example_lib two_state_cut []) small_spike_matrix 2 2 "DB"
                 = Ok (cosine_similarity (transpose small_spike_matrix),
                       [0; 1; 0]%Z, (tt, None)))
    by (vm_compute; reflexivity).
  split; [exact Hrun|].
  exact (@cluster_sim_mat_count_in_range (example_lib two_state_cut [])
           small_spike_matrix 2 2 "DB" _ _ _ Hrun).
Defined.

(** ** [_update_block_diagonal_dists] *)

Lemma imap_length (f : nat -> nat -> float -> float) (m : fmat) :
  length (imap f m) = length m.
Proof.
  unfold imap. rewrite length_map, length_combine, length_seq, Nat.min_id. reflexivity.
Qed.

Lemma imap_row (f : nat -> nat -> float -> float) (m : fmat) (r : nat) :
  r < length m ->
  nth r (imap f m) []
  = map (fun '(c, x) => f r c x)
        (combine (seq 0 (length (nth r m []))) (nth r m [])).
Proof.
  intros Hr. unfold imap.
  rewrite (nth_map_in _ _ _ [] (0, []))
    by (rewrite length_combine, length_seq, Nat.min_id; exact Hr).
  rewrite combine_nth by apply length_seq. rewrite seq_nth by exact Hr. reflexivity.
Qed.

Lemma imap_row_length (f : nat -> nat -> float -> float) (m : fmat) (r : nat) :
  length (nth r (imap f m) []) = length (nth r m []).
Proof.
  destruct (Nat.lt_ge_cases r (length m)) as [Hr|Hr].
  - rewrite imap_row by exact Hr.
    rewrite length_map, length_combine, length_seq, Nat.min_id. reflexivity.
  - rewrite !nth_overflow; [reflexivity | exact Hr | rewrite imap_length; exact Hr].
Qed.

Lemma imap_get (f : nat -> nat -> float -> float) (m : fmat) (r c : nat) :
  r < length m -> c < length (nth r m []) ->
  Fl.get (imap f m) r c = f r c (Fl.get m r c).
Proof.
  intros Hr Hc. unfold Fl.get. rewrite imap_row by exact Hr.
  rewrite (nth_map_in _ _ _ nan (0, nan))
    by (rewrite length_combine, length_seq, Nat.min_id; exact Hc).
  rewrite combine_nth by apply length_seq. rewrite seq_nth by exact Hc. reflexivity.
Qed.

Lemma fill_blocks_spec (v : float) (blocks : list (nat * nat)) :
  forall d,
    let d' := fold_left (fun d '(i, j) => Fl.fill_block d i j v) blocks d in
    length d' = length d /\
    (forall r, length (nth r d' []) = length (nth r d [])) /\
    (forall r c, r < length d -> c < length (nth r d []) ->
                 Fl.get d' r c = if existsb (in_block r c) blocks then v else Fl.get d r c).
Proof.
  induction blocks as [|[i j] blocks IH]; intros d; simpl.
  - repeat split; reflexivity.
  - change (Fl.fill_block d i j v)
      with (imap (fun r c x => if (i <=? r) && (r <? j) && (i <=? c) && (c <? j)
                               then v else x) d).
    set (d1 := imap _ d).
    destruct (IH d1) as (Hlen & Hrows & Hget).
    split; [rewrite Hlen; apply imap_length|].
    split; [intros r; rewrite Hrows; apply imap_row_length|].
    intros r c Hr Hc.
    rewrite Hget;
      [ | unfold d1; rewrite imap_length; exact Hr
        | unfold d1; rewrite imap_row_length; exact Hc ].
    unfold d1. rewrite imap_get by assumption.
    destruct ((i <=? r) && (r <? j) && (i <=? c) && (c <? j)); simpl;
      destruct (existsb (in_block r c) blocks); reflexivity.
Qed.

(** After [_update_block_diagonal_dists] the array has a zero diagonal, holds
    five times the former maximum for every pair of different assemblies of
    one seed, and keeps the distance of every pair from different seeds; its
    condensed form is what is returned. *)
Theorem update_block_diagonal_entries {L : Lib} (dists : fmat)
      (n_assemblies_cum : list nat) (dists' : fmat) (cond : list float) :
  _update_block_diagonal_dists dists n_assemblies_cum = Ok (dists', cond) ->
  exists mx,
    Fl.max_all dists = Some mx /\
    squareform_inv dists' = Ok cond /\
    length dists' = length dists /\
    forall r c, r < length dists -> c < length (nth r dists []) ->
      Fl.get dists' r c
      = if r =? c then 0%float
        else if existsb (in_block r c) (seed_blocks n_assemblies_cum)
             then (mx * 5)%float
             else Fl.get dists r c.
Proof.
  unfold _update_block_diagonal_dists. intros H.
  destruct (Fl.max_all dists) as [mx|]; [|discriminate].
  bind_inv H as cond' Hcond. inversion H; subst. clear H.
  exists mx. split; [reflexivity|]. split; [exact Hcond|].
  destruct (fill_blocks_spec (mx * 5)%float (seed_blocks n_assemblies_cum) dists)
    as (Hlen & Hrows & Hget).
  split; [rewrite fill_diagonal_length; exact Hlen|].
  intros r c Hr Hc.
  change (Fl.fill_diagonal ?m 0%float)
    with (imap (fun i j x => if i =? j then 0%float else x) m).
  rewrite imap_get by (try rewrite Hlen; try rewrite Hrows; assumption).
  rewrite Hget by assumption. reflexivity.
Qed.

Lemma update_block_diagonal_entries_witness :
  let L := example_lib single_cluster_cut [] in
  _update_block_diagonal_dists three_assembly_dists [0; 2; 3]
  = Ok ([[0; 15; 2]; [15; 0; 3]; [2; 3; 0]]%float, []) /\
  exists mx,
    Fl.max_all three_assembly_dists = Some mx /\
    squareform_inv [[0; 15; 2]; [15; 0; 3]; [2; 3; 0]]%float = Ok [] /\
    length [[0; 15; 2]; [15; 0; 3]; [2; 3; 0]]%float = length three_assembly_dists /\
    forall r c, r < length three_assembly_dists ->
                c < length (nth r three_assembly_dists []) ->
      Fl.get [[0; 15; 2]; [15; 0; 3]; [2; 3; 0]]%float r c
      = if r =? c then 0%float
        else if existsb (in_block r c) (seed_blocks [0; 2; 3])
             then (mx * 5)%float
             else Fl.get three_assembly_dists r c.
Proof.
  intros L.
  assert (Hrun : _update_block_diagonal_dists three_assembly_dists [0; 2; 3]
                 = Ok ([[0; 15; 2]; [15; 0; 3]; [2; 3; 0]]%float, []))
    by (vm_compute; reflexivity).
  split; [exact Hrun|].
  exact (@update_block_diagonal_entries L _ _ _ _ Hrun).
Defined.

Lemma unknown_n_method_never_returns_witness :
  (exists r, @cluster_sim_mat (example_lib two_state_cut []) small_spike_matrix 2 2 "DB"
             = Ok r) /\
  ("DB" = "ss" \/ "DB" = "DB")%string.
Proof.
  assert (Hrun : exists r, @cluster_sim_mat (example_lib two_state_cut [])
                             small_spike_matrix 2 2 "DB" = Ok r)
    by (eexists; vm_compute; reflexivity).
  split; [exact Hrun|].
  exact (proj2 (@unknown_n_method_never_returns (example_lib two_state_cut [])
                  [] [] "hamming" "average" false small_spike_matrix 2 2 "DB") Hrun).
Defined.

(** ** NaN in comparisons *)

Lemma SFcompare_refl_nan (f : spec_float) :
  SFcompare f f <> Some Eq -> f = S754_nan.
Proof.
  destruct f as [s|s| |s m e]; simpl; try congruence.
  - destruct s; congruence.
  - intros H. exfalso. apply H.
    destruct s; rewrite Z.compare_refl, Pos.compare_cont_refl; reflexivity.
Qed.

Lemma is_nan_Prim2SF (x : float) : PrimFloat.is_nan x = true -> Prim2SF x = S754_nan.
Proof.
  unfold PrimFloat.is_nan. rewrite FloatAxioms.eqb_spec. unfold SFeqb.
  intros H. apply SFcompare_refl_nan. intros E. rewrite E in H. discriminate.
Qed.

Lemma ltb_nan_r (x y : float) : PrimFloat.is_nan y = true -> PrimFloat.ltb x y = false.
Proof.
  intros H. rewrite FloatAxioms.ltb_spec, (is_nan_Prim2SF y H). unfold SFltb.
  destruct (Prim2SF x) as [s|s| |s m e]; reflexivity.
Qed.

Lemma ltb_nan_l (x y : float) : PrimFloat.is_nan x = true -> PrimFloat.ltb x y = false.
Proof.
  intros H. rewrite FloatAxioms.ltb_spec, (is_nan_Prim2SF x H). reflexivity.
Qed.

Lemma eqb_nan_l (x y : float) : PrimFloat.is_nan x = true -> PrimFloat.eqb x y = false.
Proof.
  intros H. rewrite FloatAxioms.eqb_spec, (is_nan_Prim2SF x H). reflexivity.
Qed.

(** ** Assemblies need two core cells *)

Lemma select_length {A B : Type} (mask : list bool) :
  forall (a : list A) (b : list B),
    length a = length b -> length (Np.select mask a) = length (Np.select mask b).
Proof.
  induction mask as [|m mask IH]; intros [|x a] [|y b] H; simpl in *;
    try reflexivity; try discriminate.
  destruct m; simpl; [f_equal|]; apply IH; lia.
Qed.

Lemma select_incl {A : Type} (mask : list bool) :
  forall (a : list A), incl (Np.select mask a) a.
Proof.
  induction mask as [|m mask IH]; intros [|x a]; simpl; try (intros z []).
  destruct m.
  - intros z [<-|Hz]; [left; reflexivity | right; apply IH; exact Hz].
  - intros z Hz. right. apply IH. exact Hz.
Qed.

Lemma NoDup_map_injective {A B : Type} (f : A -> B) (l : list A) :
  (forall x y, f x = f y -> x = y) -> NoDup l -> NoDup (map f l).
Proof.
  intros Hinj Hnd. induction Hnd as [|x l Hnin Hnd IH]; simpl; constructor.
  - intros Hin. apply in_map_iff in Hin. destruct Hin as (y & Hxy & Hy).
    apply Hinj in Hxy. subst y. contradiction.
  - exact IH.
Qed.

(** The mean correlation of fewer than two cells is NaN: with the diagonal
    set to NaN there is no entry left to average. *)
Lemma nanmean_few_cells (corrs : fmat) (cells : list nat) :
  length cells < 2 ->
  PrimFloat.is_nan (Fl.nanmean (sub_corrs (Fl.fill_diagonal corrs nan) cells)) = true.
Proof.
  destruct cells as [|g [|g' cells]]; simpl; intros H; try lia.
  - reflexivity.
  - unfold sub_corrs. simpl. rewrite get_fill_diagonal_nan, Nat.eqb_refl. reflexivity.
Qed.

Lemma within_cluster_correlations_Ok {L : Lib} (spike_matrix : fmat)
      (core_cell_idx : list (list Z)) (assembly_idx : list nat) :
  within_cluster_correlations spike_matrix core_cell_idx = Ok assembly_idx ->
  NoDup assembly_idx /\
  forall i, In i assembly_idx ->
            i < n_columns core_cell_idx /\ 2 <= length (core_cells_of core_cell_idx i).
Proof.
  unfold within_cluster_correlations. intros H.
  bind_inv H as corrs Hcorrs. inversion H; subst. clear H.
  split; [apply NoDup_filter, seq_NoDup|].
  intros i Hi. apply filter_In in Hi. destruct Hi as [Hi Hlt].
  apply in_seq in Hi. split; [lia|].
  destruct (Nat.lt_ge_cases (length (core_cells_of core_cell_idx i)) 2) as [Hfew|Hok];
    [|exact Hok].
  rewrite (ltb_nan_r _ _ (nanmean_few_cells corrs _ Hfew)) in Hlt. discriminate.
Qed.

(** A cluster of time bins is promoted to an assembly only if it has at
    least two core cells: for one or no core cell the mean correlation is NaN,
    and [NaN > mean_corr] is false.  The promoted clusters are listed once
    each and are columns of [core_cell_idx]. *)
Theorem within_cluster_correlations_two_cells {L : Lib} (spike_matrix : fmat)
      (core_cell_idx : list (list Z)) (assembly_idx : list nat) :
  within_cluster_correlations spike_matrix core_cell_idx = Ok assembly_idx ->
  NoDup assembly_idx /\
  forall i, In i assembly_idx ->
            i < n_columns core_cell_idx /\
            exists g g' rest, core_cells_of core_cell_idx i = g :: g' :: rest /\ g <> g'.
Proof.
  intros H. apply within_cluster_correlations_Ok in H. destruct H as [Hnd H].
  split; [exact Hnd|]. intros i Hi. destruct (H i Hi) as [Hlt Hlen].
  split; [exact Hlt|].
  pose proof (np_where_NoDup (map (fun row => (nth i row 0 =? 1)%Z) core_cell_idx)) as Hd.
  fold (core_cells_of core_cell_idx i) in Hd.
  destruct (core_cells_of core_cell_idx i) as [|g [|g' rest]]; simpl in Hlen; try lia.
  exists g, g', rest. split; [reflexivity|].
  inversion Hd as [|? ? Hnin _]; subst. intros ->. apply Hnin. left; reflexivity.
Qed.

Lemma within_cluster_correlations_two_cells_witness :
  let L := detector_lib in
  within_cluster_correlations three_neurons [[1; 0]; [1; 0]; [0; 1]]%Z = Ok [0] /\
  NoDup [0] /\
  forall i, In i [0] ->
            i < n_columns [[1; 0]; [1; 0]; [0; 1]]%Z /\
            exists g g' rest,
              core_cells_of [[1; 0]; [1; 0]; [0; 1]]%Z i = g :: g' :: rest /\ g <> g'.
Proof.
  intros L.
  assert (Hrun : within_cluster_correlations three_neurons [[1; 0]; [1; 0]; [0; 1]]%Z
                 = Ok [0]) by (vm_compute; reflexivity).
  split; [exact Hrun|].
  exact (@within_cluster_correlations_two_cells L _ _ _ Hrun).
Defined.

(** Every assembly that [detect_assemblies] builds holds at least two
    neurons, all of them taken from the gids of the spike matrix, and no two
    assemblies of a seed have the same index. *)
Theorem detect_assemblies_members {L : Lib} (seed : Z) (spike_matrix : fmat)
      (all_gids clusters : list Z) (th_pct : float) (perms : list (list nat))
      (corrs corr_ths : fmat) (core_cell_idx : list (list Z))
      (assembly_idx : list nat) (assembly_lst : list Assembly) :
  detect_assemblies seed spike_matrix all_gids clusters th_pct perms
    = Ok (corrs, corr_ths, core_cell_idx, assembly_idx, assembly_lst) ->
  length all_gids = length corrs ->
  NoDup (map idx assembly_lst) /\
  forall a, In a assembly_lst ->
            2 <= length (gids a) /\ incl (gids a) all_gids.
Proof.
  unfold detect_assemblies. intros H Hlen.
  bind_inv H as sparse Hsparse. bind_inv H as corrs0 Hcorrs.
  bind_inv H as ths Hths. bind_inv H as aidx Haidx.
  inversion H; subst. clear H.
  apply within_cluster_correlations_Ok in Haidx. destruct Haidx as [Hnd Hcells].
  split.
  - rewrite map_map. simpl.
    apply NoDup_map_injective; [|exact Hnd].
    intros i j Hij. inversion Hij. reflexivity.
  - intros a Ha. apply in_map_iff in Ha. destruct Ha as (i & <- & Hi). simpl.
    split; [|apply select_incl].
    destruct (Hcells i Hi) as [_ Hc]. unfold core_cells_of, np_where in Hc.
    rewrite !length_map, length_combine, length_seq, Nat.min_id in Hc.
    rewrite (select_length _ all_gids (seq 0 (length corrs)))
      by (rewrite length_seq; exact Hlen).
    exact Hc.
Qed.

Lemma detect_assemblies_members_witness :
  let L := detector_lib in
  detect_assemblies 7%Z three_neurons [10; 11; 12]%Z alternating_bins 95%float two_shuffles
  = Ok ([[1; -1]; [1; -1]; [-1; 1]]%float, [[0; 0]; [0; 0]; [0; 0]]%float,
        [[1; 0]; [1; 0]; [0; 1]]%Z, [0],
        [{| gids := [10; 11]%Z; idx := (0, 7%Z) |}]) /\
  length [10; 11; 12]%Z = length [[1; -1]; [1; -1]; [-1; 1]]%float /\
  NoDup (map idx [{| gids := [10; 11]%Z; idx := (0, 7%Z) |}]) /\
  forall a, In a [{| gids := [10; 11]%Z; idx := (0, 7%Z) |}] ->
            2 <= length (gids a) /\ incl (gids a) [10; 11; 12]%Z.
Proof.
  intros L.
  assert (Hrun : detect_assemblies 7%Z three_neurons [10; 11; 12]%Z alternating_bins
                   95%float two_shuffles
                 = Ok ([[1; -1]; [1; -1]; [-1; 1]]%float, [[0; 0]; [0; 0]; [0; 0]]%float,
                       [[1; 0]; [1; 0]; [0; 1]]%Z, [0],
                       [{| gids := [10; 11]%Z; idx := (0, 7%Z) |}]))
    by (vm_compute; reflexivity).
  split; [exact Hrun|]. split; [reflexivity|].
  exact (@detect_assemblies_members L _ _ _ _ _ _ _ _ _ _ _ Hrun eq_refl).
Defined.

(** ** Densities that are not numbers *)

Lemma np_where_all_false (mask : list bool) :
  (forall b, In b mask -> b = false) -> np_where mask = [].
Proof.
  intros H. destruct (np_where mask) as [|i rest] eqn:E; [reflexivity|].
  assert (Hin : In i (np_where mask)) by (rewrite E; left; reflexivity).
  pose proof (np_where_lt _ _ Hin) as Hlt.
  apply np_where_In in Hin.
  rewrite (H (nth i mask false)) in Hin by (apply nth_In; exact Hlt). discriminate.
Qed.

Lemma calc_rho_delta_sound_densities (dists : fmat) (ratio_to_keep : float)
      (rhos deltas : list float) :
  calc_rho_delta dists ratio_to_keep = Ok (rhos, deltas) ->
  dists <> [] /\ Forall (fun r => PrimFloat.is_nan r = false) rhos.
Proof.
  intros H. pose proof (calc_rho_delta_lengths _ _ _ _ H) as [Hlr _].
  unfold calc_rho_delta in H.
  bind_inv H as n2keep Hn. bind_inv H as floor Hfloor.
  bind_inv H as max_rho Hmax. bind_inv H as ds Hds.
  inversion H; subst deltas. clear H.
  match type of H1 with ?r = rhos => set (rs := r) in * end.
  subst rhos. split.
  - intros ->. simpl in Hmax. discriminate.
  - apply Forall_forall. intros r Hr.
    destruct (In_nth _ _ nan Hr) as (i & Hi & Hnth).
    destruct (PrimFloat.is_nan r) eqn:Hnan; [exfalso | reflexivity].
    pose proof (mapM_nth _ _ _ i (0, nan) nan Hds) as Hrow.
    rewrite length_combine, length_seq, Nat.min_id in Hrow. specialize (Hrow Hi).
    rewrite combine_nth in Hrow by apply length_seq.
    rewrite seq_nth in Hrow by exact Hi. rewrite Hnth in Hrow. simpl in Hrow.
    rewrite (eqb_nan_l r max_rho Hnan) in Hrow. simpl in Hrow.
    rewrite np_where_all_false in Hrow; [discriminate|].
    intros b Hb. apply in_map_iff in Hb. destruct Hb as (r' & <- & _).
    apply ltb_nan_l. exact Hnan.
Qed.

(** When [calc_rho_delta] returns there is at least one bin, one density and
    one delta per bin, and no density is NaN: for a NaN density no bin counts
    as denser, and [np.min] of the empty selection raises. *)
Theorem calc_rho_delta_densities (dists : fmat) (ratio_to_keep : float)
      (rhos deltas : list float) :
  calc_rho_delta dists ratio_to_keep = Ok (rhos, deltas) ->
  dists <> [] /\
  length rhos = length dists /\ length deltas = length dists /\
  Forall (fun r => PrimFloat.is_nan r = false) rhos.
Proof.
  intros H. destruct (calc_rho_delta_lengths _ _ _ _ H) as [Hr Hd].
  destruct (calc_rho_delta_sound_densities _ _ _ _ H) as [Hne Hnan].
  repeat split; assumption.
Qed.

Lemma calc_rho_delta_densities_witness :
  calc_rho_delta [[2; 1]; [1; 2]]%float 0.5%float = Ok ([1; 1]%float, [2; 2]%float) /\
  [[2; 1]; [1; 2]]%float <> [] /\
  length [1; 1]%float = length [[2; 1]; [1; 2]]%float /\
  length [2; 2]%float = length [[2; 1]; [1; 2]]%float /\
  Forall (fun r => PrimFloat.is_nan r = false) [1; 1]%float.
Proof.
  assert (Hrun : calc_rho_delta [[2; 1]; [1; 2]]%float 0.5%float
                 = Ok ([1; 1]%float, [2; 2]%float)) by (vm_compute; reflexivity).
  split; [exact Hrun|].
  exact (calc_rho_delta_densities _ _ _ _ Hrun).
Defined.

(** [db_clustering] returns only with between 1 and 20 centroids: more than
    20 fail the assertion, and with none [np.argmin] has nothing to choose
    from and raises. *)
Theorem db_clustering_centroid_count {L : Lib} (matrix : fmat) (ratio : float)
      (labels : list Z) (pl : db_plotting) :
  db_clustering matrix ratio = Ok (labels, pl) ->
  1 <= length (plot_centroid_idx pl) <= 20 /\ labels <> [].
Proof.
  intros H. apply db_clustering_Ok in H. destruct H as (dists & gammas & Hc & Ha).
  assert (Hne : dists <> []).
  { unfold db_centroids in Hc.
    bind_inv Hc as d0 Hd0. bind_inv Hc as mx Hmx. bind_inv Hc as rd Hrd.
    destruct rd as [rhos deltas]. bind_inv Hc as fitted Hfit.
    destruct fitted as [[tmp_idx popt] stds]. inversion Hc; subst. clear Hc.
    apply calc_rho_delta_sound_densities in Hrd. apply Hrd. }
  unfold db_assign in Ha.
  destruct (Nat.leb_spec (length (plot_centroid_idx pl)) 20) as [Hle|Hgt];
    simpl in Ha; [|discriminate].
  bind_inv Ha as cl Hcl. inversion Ha; subst labels. clear Ha.
  pose proof (mapM_length _ _ _ Hcl) as Hlen.
  destruct dists as [|row dists]; [congruence|].
  split.
  - split; [|exact Hle].
    simpl in Hcl. bind_inv Hcl as z Hz. bind_inv Hz as i Hi.
    destruct (plot_centroid_idx pl); [discriminate | simpl; lia].
  - intros E. apply (f_equal (@length Z)) in E.
    rewrite assign_length in E. simpl in E, Hlen. lia.
Qed.

Lemma db_clustering_centroid_count_witness :
  exists pl,
    @db_clustering equidistant_lib three_bins 0.5%float = Ok ([0; 1; 2]%Z, pl) /\
    1 <= length (plot_centroid_idx pl) <= 20 /\ [0; 1; 2]%Z <> [].
Proof.
  eexists. split; [vm_compute; reflexivity|].
  apply (@db_clustering_centroid_count equidistant_lib three_bins 0.5%float).
  vm_compute; reflexivity.
Defined.

(** ** [_convert_clusters]: which labels it accepts *)

Lemma py_row_index_Ok_iff (k : nat) (i : Z) :
  (exists r, py_row_index k i = Ok r /\ r < k) <->
  (- Z.of_nat k <= i < Z.of_nat k)%Z.
Proof.
  unfold py_row_index.
  destruct (Z.leb_spec 0 i); destruct (Z.ltb_spec i (Z.of_nat k)); simpl.
  - split; [lia|]. intros _. eexists. split; [reflexivity | lia].
  - destruct (Z.leb_spec (- Z.of_nat k) i); destruct (Z.ltb_spec i 0); simpl;
      (split; [intros (r & Hr & _); try discriminate; lia | lia]).
  - destruct (Z.leb_spec (- Z.of_nat k) i); destruct (Z.ltb_spec i 0); simpl;
      try lia.
    + split; [lia|]. intros _. eexists. split; [reflexivity | lia].
    + split; [intros (r & Hr & _); discriminate | lia].
  - destruct (Z.leb_spec (- Z.of_nat k) i); destruct (Z.ltb_spec i 0); simpl;
      try lia.
Qed.

Lemma py_row_index_raise (k : nat) (i : Z) :
  (i < - Z.of_nat k \/ Z.of_nat k <= i)%Z ->
  py_row_index k i = Raise (IndexError "index is out of bounds for axis 0").
Proof.
  intros H. unfold py_row_index.
  destruct (Z.leb_spec 0 i); destruct (Z.ltb_spec i (Z.of_nat k)); simpl; try lia;
    destruct (Z.leb_spec (- Z.of_nat k) i); destruct (Z.ltb_spec i 0); simpl;
    try lia; reflexivity.
Qed.

Lemma fill_indicator_rows_accepts (clusters : list Z) (k : nat) :
  forall labels sp0,
    Forall (fun i => (- Z.of_nat k <= i < Z.of_nat k)%Z) labels ->
    exists sp, fill_indicator_rows clusters k labels sp0 = Ok sp.
Proof.
  induction labels as [|i labels IH]; intros sp0 Hall; simpl.
  - eexists; reflexivity.
  - inversion Hall as [|? ? Hi Hall']; subst.
    apply py_row_index_Ok_iff in Hi. destruct Hi as (r & -> & _). simpl.
    apply IH. exact Hall'.
Qed.

Lemma fill_indicator_rows_rejects (clusters : list Z) (k : nat) :
  forall labels sp0,
    Exists (fun i => (i < - Z.of_nat k \/ Z.of_nat k <= i)%Z) labels ->
    fill_indicator_rows clusters k labels sp0
    = Raise (IndexError "index is out of bounds for axis 0").
Proof.
  induction labels as [|i labels IH]; intros sp0 Hex; simpl.
  - inversion Hex.
  - destruct (Z_lt_ge_dec i (- Z.of_nat k)) as [Hlo|Hlo];
      [rewrite py_row_index_raise by lia; reflexivity|].
    destruct (Z_lt_ge_dec i (Z.of_nat k)) as [Hhi|Hhi];
      [|rewrite py_row_index_raise by lia; reflexivity].
    assert (Hi : (- Z.of_nat k <= i < Z.of_nat k)%Z) by lia.
    apply py_row_index_Ok_iff in Hi. destruct Hi as (r & -> & _). simpl.
    apply IH. apply Exists_cons in Hex. destruct Hex as [Hbad|Hex']; [lia | exact Hex'].
Qed.

Lemma fill_indicator_rows_length (clusters : list Z) (k : nat) :
  forall labels sp0 sp,
    fill_indicator_rows clusters k labels sp0 = Ok sp -> length sp = length sp0.
Proof.
  induction labels as [|i labels IH]; intros sp0 sp H; simpl in H.
  - inversion H; reflexivity.
  - bind_inv H as r Hr. apply IH in H. rewrite list_set_length in H. exact H.
Qed.

Lemma label_range_dec (k : Z) (clusters : list Z) :
  (forall l, In l clusters -> (- k <= l < k)%Z) \/
  (exists l, In l clusters /\ (l < - k \/ k <= l)%Z).
Proof.
  induction clusters as [|x clusters IH].
  - left. intros l [].
  - destruct IH as [IH|(l & Hl & Hbad)].
    + destruct (Z_lt_ge_dec x (- k)) as [Hlo|Hlo];
        [right; exists x; split; [left; reflexivity | lia]|].
      destruct (Z_lt_ge_dec x k) as [Hhi|Hhi];
        [|right; exists x; split; [left; reflexivity | lia]].
      left. intros l [<-|Hl]; [lia | apply IH; exact Hl].
    + right. exists l. split; [right; exact Hl | exact Hbad].
Qed.

Lemma convert_clusters_accepts (clusters : list Z) :
  (forall l, In l clusters ->
             (- Z.of_nat (length (Np.unique clusters)) <= l
              < Z.of_nat (length (Np.unique clusters)))%Z) ->
  exists sparse, _convert_clusters clusters = Ok sparse.
Proof.
  intros Hall. apply fill_indicator_rows_accepts. apply Forall_forall.
  intros i Hi. apply Hall. apply unique_In. exact Hi.
Qed.

Lemma convert_clusters_rejects (clusters : list Z) :
  (exists l, In l clusters /\
             (l < - Z.of_nat (length (Np.unique clusters)) \/
              Z.of_nat (length (Np.unique clusters)) <= l)%Z) ->
  _convert_clusters clusters = Raise (IndexError "index is out of bounds for axis 0").
Proof.
  intros (l & Hl & Hout). apply fill_indicator_rows_rejects. apply Exists_exists.
  exists l. split; [apply unique_In; exact Hl | exact Hout].
Qed.

(** [_convert_clusters] accepts the labels exactly when each of them is an
    index into the [k] rows of the array, [k] being the number of distinct
    labels: it returns if every label lies in [-k, k) and raises [IndexError]
    as soon as one does not (labels with a gap, such as 0 and 2). *)
Theorem convert_clusters_label_range (clusters : list Z) :
  let k := Z.of_nat (length (Np.unique clusters)) in
  ((forall l, In l clusters -> (- k <= l < k)%Z) <->
   exists sparse, _convert_clusters clusters = Ok sparse) /\
  ((exists l, In l clusters /\ (l < - k \/ k <= l)%Z) <->
   exists msg, _convert_clusters clusters = Raise (IndexError msg)).
Proof.
  intros k. destruct (label_range_dec k clusters) as [Hall|Hex]; split; split.
  - apply convert_clusters_accepts.
  - intros _. exact Hall.
  - intros H. eexists. apply convert_clusters_rejects. exact H.
  - intros [msg Hs]. destruct (convert_clusters_accepts clusters Hall) as [sp Hok].
    rewrite Hok in Hs. discriminate.
  - apply convert_clusters_accepts.
  - intros [sp Hs]. rewrite (convert_clusters_rejects clusters Hex) in Hs. discriminate.
  - intros _. eexists. apply convert_clusters_rejects. exact Hex.
  - intros _. exact Hex.
Qed.

(** When [_convert_clusters] returns for non-negative labels, the labels are
    exactly 0, ..., k-1, the array has one row per label, and row [r] is the
    one-hot indicator of the time bins labelled [r]. *)
Theorem convert_clusters_dense (clusters : list Z) (sparse : list (list Z)) :
  _convert_clusters clusters = Ok sparse ->
  Forall (fun l => (0 <= l)%Z) clusters ->
  length sparse = length (Np.unique clusters) /\
  (forall l, In l clusters -> (0 <= l < Z.of_nat (length sparse))%Z) /\
  forall r, r < length sparse ->
            In (Z.of_nat r) clusters /\
            nth r sparse [] = map (fun l => if (l =? Z.of_nat r)%Z then 1%Z else 0%Z) clusters.
Proof.
  intros H Hpos.
  assert (Hlen : length sparse = length (Np.unique clusters)).
  { unfold _convert_clusters in H. apply fill_indicator_rows_length in H.
    rewrite H. apply repeat_length. }
  assert (Hrange : forall l, In l clusters -> (0 <= l < Z.of_nat (length sparse))%Z).
  { intros l Hl. rewrite Hlen.
    destruct (label_range_dec (Z.of_nat (length (Np.unique clusters))) clusters)
      as [Hall|Hex].
    - rewrite Forall_forall in Hpos. specialize (Hpos l Hl). specialize (Hall l Hl). lia.
    - rewrite (convert_clusters_rejects clusters Hex) in H. discriminate. }
  assert (Hall : forall r, r < length sparse -> In (Z.of_nat r) clusters).
  { intros r Hr. apply unique_In.
    apply (NoDup_length_incl (unique_NoDup clusters)
             (l' := map Z.of_nat (seq 0 (length sparse)))).
    - rewrite length_map, length_seq. lia.
    - intros z Hz. apply (proj1 (unique_In _ _)) in Hz. apply Hrange in Hz.
      apply in_map_iff. exists (Z.to_nat z). split; [lia | apply in_seq; lia].
    - apply in_map_iff. exists r. split; [reflexivity | apply in_seq; lia]. }
  split; [exact Hlen|]. split; [exact Hrange|].
  intros r Hr. split; [apply Hall; exact Hr|].
  rewrite <- (Nat2Z.id r) at 1.
  apply convert_clusters_indicator; [exact H | exact Hpos | apply Hall; exact Hr].
Qed.

Lemma convert_clusters_dense_witness :
  _convert_clusters alternating_bins = Ok [[1; 0; 1; 0]; [0; 1; 0; 1]]%Z /\
  Forall (fun l => (0 <= l)%Z) alternating_bins /\
  length [[1; 0; 1; 0]; [0; 1; 0; 1]]%Z = length (Np.unique alternating_bins) /\
  (forall l, In l alternating_bins ->
             (0 <= l < Z.of_nat (length [[1; 0; 1; 0]; [0; 1; 0; 1]]%Z))%Z) /\
  forall r, r < length [[1; 0; 1; 0]; [0; 1; 0; 1]]%Z ->
            In (Z.of_nat r) alternating_bins /\
            nth r [[1; 0; 1; 0]; [0; 1; 0; 1]]%Z []
            = map (fun l => if (l =? Z.of_nat r)%Z then 1%Z else 0%Z) alternating_bins.
Proof.
  assert (Hrun : _convert_clusters alternating_bins = Ok [[1; 0; 1; 0]; [0; 1; 0; 1]]%Z)
    by (vm_compute; reflexivity).
  assert (Hpos : Forall (fun l => (0 <= l)%Z) alternating_bins)
    by (repeat constructor; discriminate).
  split; [exact Hrun|]. split; [exact Hpos|].
  exact (convert_clusters_dense _ _ Hrun Hpos).
Defined.

Lemma convert_clusters_label_range_witness :
  (exists l, In l [0; 2]%Z /\ (l < - 2 \/ 2 <= l)%Z) /\
  exists msg, _convert_clusters [0; 2]%Z = Raise (IndexError msg).
Proof.
  assert (H : exists l, In l [0; 2]%Z /\ (l < - 2 \/ 2 <= l)%Z)
    by (exists 2%Z; split; [right; left; reflexivity | right; lia]).
  split; [exact H|].
  exact (proj1 (proj2 (convert_clusters_label_range [0; 2]%Z)) H).
Defined.

(** ** [merge_clusters]: arrays without a synapse, clusters that stay apart *)

Lemma nonzero_nil_iff (m : bmatrix) :
  nonzero m = [] <->
  forall r j, r < nrows m -> j < ncols m -> get m r j = false.
Proof.
  split.
  - intros E r j Hr Hj. destruct (get m r j) eqn:G; [|reflexivity].
    assert (Hin : In (Z.of_nat r, Z.of_nat j) (nonzero m))
      by (apply nonzero_In; exists r, j; repeat split; assumption).
    rewrite E in Hin. destruct Hin.
  - intros H. destruct (nonzero m) as [|[zr zc] rest] eqn:E; [reflexivity|].
    assert (Hin : In (zr, zc) (nonzero m)) by (rewrite E; left; reflexivity).
    apply nonzero_In in Hin. destruct Hin as (r & j & _ & _ & Hr & Hj & G).
    rewrite (H r j Hr Hj) in G. discriminate.
Qed.

(** [merge_clusters] raises the [ValueError] of [np.min] exactly on the
    arrays that hold no synapse at all (no true entry; in particular arrays
    without rows or without columns). *)
Theorem merge_clusters_no_synapse (clusters : bmatrix) :
  (forall r j, r < nrows clusters -> j < ncols clusters -> get clusters r j = false) <->
  merge_clusters clusters = Some (Raise empty_min).
Proof.
  rewrite <- nonzero_nil_iff. unfold merge_clusters, merge_clusters_fuel. split.
  - intros E. unfold synapses_per_cluster. rewrite E. reflexivity.
  - intros H. destruct (nonzero clusters) as [|p rest] eqn:E; [reflexivity|]. exfalso.
    destruct (Np.min_nat (synapses_per_cluster clusters)) as [min_nsyns|] eqn:Hmin.
    + destruct (threshold_loop_total (ncols clusters) (Np.arange_down (min_nsyns - 1) 1)
                  (n_unique_synapses clusters) clusters (le_n _)) as (m & Hloop).
      rewrite Hloop in H. destruct (ncols m <=? _); discriminate.
    + unfold Np.min_nat in Hmin.
      destruct (synapses_per_cluster clusters) eqn:Hc; [|discriminate].
      revert Hc. apply counts_nonempty. rewrite E. discriminate.
Qed.

Lemma existsb_map_false {A : Type} (f : A -> bool) (l : list A) :
  (forall x, In x l -> f x = false) ->
  existsb (fun b : bool => b) (map f l) = false.
Proof.
  induction l as [|x l IH]; intros H; simpl; [reflexivity|].
  rewrite (H x) by (left; reflexivity). apply IH. intros y Hy. apply H. right. exact Hy.
Qed.

Lemma merge_step_apart (th i : nat) (m : bmatrix) :
  (forall j, i < j < ncols m -> common_synapses m i j <= th) ->
  merge_step th (i, m) = (i + 1, m).
Proof.
  intros H. unfold merge_step. rewrite existsb_map_false; [reflexivity|].
  intros j Hj. apply in_seq in Hj. apply Nat.ltb_ge. apply H. lia.
Qed.

Lemma merge_pass_apart (fuel th : nat) (m : bmatrix) :
  (forall i j, i < j < ncols m -> common_synapses m i j <= th) ->
  forall i st, merge_pass fuel th (i, m) = Some st -> snd st = m.
Proof.
  intros H. induction fuel as [|fuel IH]; intros i st; simpl.
  - destruct (i <? ncols m - 1); [discriminate|]. intros E. inversion E. reflexivity.
  - destruct (i <? ncols m - 1).
    + rewrite merge_step_apart by (intros j Hj; apply H; exact Hj). apply IH.
    + intros E. inversion E. reflexivity.
Qed.

Lemma threshold_loop_apart (fuel : nat) (nsyns : nat) (m : bmatrix) (ths : list nat) :
  (forall th, In th ths ->
              forall i j, i < j < ncols m -> common_synapses m i j <= th) ->
  forall m', threshold_loop fuel ths nsyns m = Some m' -> m' = m.
Proof.
  induction ths as [|th ths IH]; intros H m'; simpl.
  - intros E. inversion E. reflexivity.
  - destruct (merge_pass fuel th (0, m)) as [[i1 m1]|] eqn:Hpass; [|discriminate].
    apply merge_pass_apart in Hpass; [|apply H; left; reflexivity].
    simpl in Hpass. subst m1.
    destruct (clustered_synapse_count m =? nsyns).
    + intros E. inversion E. reflexivity.
    + apply IH. intros th' Hth'. apply H. right. exact Hth'.
Qed.

Lemma arange_down_In (start stop th : nat) :
  In th (Np.arange_down start stop) <-> stop < th <= start.
Proof.
  unfold Np.arange_down. rewrite <- in_rev, in_seq. lia.
Qed.

(** Clusters that share at most two synapses are never merged: the merging
    thresholds run from [min_nsyns - 1] down to 2 and a merge needs strictly
    more common synapses than the threshold.  If no two columns of the input
    share more than two synapses, or if its smallest cluster has at most two
    synapses (no threshold is tried at all), a returned array is the input. *)
Theorem merge_clusters_small_overlap (clusters out : bmatrix) :
  (forall i j, i < j < ncols clusters -> common_synapses clusters i j <= 2) \/
  (exists min_nsyns, Np.min_nat (synapses_per_cluster clusters) = Some min_nsyns /\
                     min_nsyns <= 2) ->
  merge_clusters clusters = Some (Ok out) ->
  out = clusters.
Proof.
  intros Hsmall. unfold merge_clusters, merge_clusters_fuel.
  destruct (Np.min_nat (synapses_per_cluster clusters)) as [min_nsyns|]; [|discriminate].
  destruct (threshold_loop _ _ _ clusters) as [m|] eqn:Hloop; [|discriminate].
  apply threshold_loop_apart in Hloop.
  - subst m. destruct (ncols clusters <=? _); [|discriminate].
    intros E. inversion E. reflexivity.
  - intros th Hth i j Hij. apply arange_down_In in Hth.
    destruct Hsmall as [Hpairs|(mn & Hmn & Hle)].
    + specialize (Hpairs i j Hij). lia.
    + inversion Hmn; subst mn. lia.
Qed.

Lemma merge_clusters_small_overlap_witness :
  ((forall i j, i < j < ncols overlapping_pair ->
                common_synapses overlapping_pair i j <= 2) \/
   (exists min_nsyns,
       Np.min_nat (synapses_per_cluster overlapping_pair) = Some min_nsyns /\
       min_nsyns <= 2)) /\
  merge_clusters overlapping_pair = Some (Ok overlapping_pair) /\
  overlapping_pair = overlapping_pair.
Proof.
  assert (Hpairs : forall i j, i < j < ncols overlapping_pair ->
                               common_synapses overlapping_pair i j <= 2).
  { intros i j Hij. change (ncols overlapping_pair) with 2 in Hij.
    assert (i = 0) as -> by lia. assert (j = 1) as -> by lia.
    vm_compute. repeat constructor. }
  assert (Hrun : merge_clusters overlapping_pair = Some (Ok overlapping_pair))
    by (vm_compute; reflexivity).
  split; [left; exact Hpairs|]. split; [exact Hrun|].
  exact (merge_clusters_small_overlap overlapping_pair overlapping_pair
           (or_introl Hpairs) Hrun).
Defined.

(** ** [merge_clusters]: merged clusters are unions of raw clusters *)

Lemma merged_from_refl (m : bmatrix) : merged_from m m.
Proof.
  split; [reflexivity|].
  exists (map (fun j => [j]) (seq 0 (ncols m))).
  split; [rewrite length_map, length_seq; reflexivity|].
  split; [apply Forall_forall; intros part Hp; apply in_map_iff in Hp;
          destruct Hp as (j & <- & _); discriminate|].
  split.
  - rewrite <- flat_map_concat_map.
    assert (E : forall l : list nat, flat_map (fun j => [j]) l = l)
      by (induction l as [|x l IH]; simpl; [|rewrite IH]; reflexivity).
    rewrite E. apply Permutation_refl.
  - intros j' r Hj Hr.
    rewrite (nth_map_in _ _ _ [] 0) by (rewrite length_seq; exact Hj).
    rewrite seq_nth by exact Hj. simpl. rewrite orb_false_r. reflexivity.
Qed.

Lemma existsb_flat_map {A B : Type} (f : B -> bool) (g : A -> list B) (l : list A) :
  existsb f (flat_map g l) = existsb (fun x => existsb f (g x)) l.
Proof.
  induction l as [|x l IH]; simpl; [reflexivity|].
  rewrite existsb_app, IH. reflexivity.
Qed.

Lemma existsb_ext_in {A : Type} (f g : A -> bool) (l : list A) :
  (forall x, In x l -> f x = g x) -> existsb f l = existsb g l.
Proof.
  induction l as [|x l IH]; intros H; simpl; [reflexivity|].
  rewrite (H x) by (left; reflexivity). f_equal. apply IH.
  intros y Hy. apply H. right. exact Hy.
Qed.

Lemma flat_map_nth_seq {A : Type} (parts : list (list A)) :
  flat_map (fun j => nth j parts []) (seq 0 (length parts)) = concat parts.
Proof.
  induction parts as [|part parts IH]; simpl; [reflexivity|].
  f_equal. rewrite <- seq_shift, flat_map_concat_map, map_map, <- flat_map_concat_map.
  exact IH.
Qed.

Lemma merged_from_trans (a b c : bmatrix) :
  merged_from a b -> merged_from b c -> merged_from a c.
Proof.
  intros (Hn1 & parts & Hlen & Hne & Hperm & Hget)
         (Hn2 & parts' & Hlen' & Hne' & Hperm' & Hget').
  split; [congruence|].
  assert (Hin' : forall part' j', In part' parts' -> In j' part' -> j' < ncols b).
  { intros part' j' Hp Hj.
    assert (Hc : In j' (concat parts')) by (apply in_concat; exists part'; split; assumption).
    apply (Permutation_in _ Hperm') in Hc. apply in_seq in Hc. lia. }
  exists (map (fun part' => flat_map (fun j' => nth j' parts []) part') parts').
  split; [rewrite length_map; exact Hlen'|]. split; [|split].
  - apply Forall_forall. intros q Hq. apply in_map_iff in Hq.
    destruct Hq as (part' & <- & Hp).
    rewrite Forall_forall in Hne'. specialize (Hne' part' Hp).
    destruct part' as [|j' rest]; [congruence|]. simpl.
    assert (Hj : j' < ncols b) by (apply (Hin' _ _ Hp); left; reflexivity).
    rewrite Forall_forall in Hne.
    assert (Hnth : nth j' parts [] <> [])
      by (apply Hne, nth_In; rewrite Hlen; exact Hj).
    destruct (nth j' parts []); [congruence | discriminate].
  - rewrite <- flat_map_concat_map.
    assert (E : forall (l : list (list nat)) (f : nat -> list nat),
               flat_map (fun part' => flat_map f part') l = flat_map f (concat l)).
    { intros l f. induction l as [|x l IH]; simpl; [reflexivity|].
      rewrite flat_map_app, IH. reflexivity. }
    rewrite E.
    eapply Permutation_trans; [apply Permutation_flat_map; exact Hperm'|].
    rewrite <- Hlen, flat_map_nth_seq. exact Hperm.
  - intros j'' r Hj Hr.
    rewrite Hget' by (try rewrite Hn1; assumption).
    rewrite (nth_map_in _ _ _ [] []) by (rewrite Hlen'; exact Hj).
    rewrite existsb_flat_map. apply existsb_ext_in.
    intros j' Hj'. apply Hget; [|exact Hr].
    apply (Hin' (nth j'' parts' [])); [apply nth_In; rewrite Hlen'; exact Hj | exact Hj'].
Qed.

Lemma concat_singletons_except (i : nat) (ms l : list nat) :
  ~ In i l ->
  concat (map (fun j => if j =? i then i :: ms else [j]) l) = l.
Proof.
  induction l as [|x l IH]; intros Hnin; simpl; [reflexivity|].
  destruct (Nat.eqb_spec x i) as [->|_]; [exfalso; apply Hnin; left; reflexivity|].
  simpl. rewrite IH; [reflexivity|]. intros H. apply Hnin. right. exact H.
Qed.

Lemma concat_parts_perm (i : nat) (ms l : list nat) :
  NoDup l -> In i l ->
  Permutation (concat (map (fun j => if j =? i then i :: ms else [j]) l)) (l ++ ms).
Proof.
  induction l as [|x l IH]; intros Hnd Hin; [destruct Hin|].
  inversion Hnd as [|? ? Hx Hnd']; subst. simpl.
  destruct (Nat.eqb_spec x i) as [->|Hne].
  - rewrite concat_singletons_except by exact Hx. simpl.
    apply perm_skip. apply Permutation_app_comm.
  - simpl. apply perm_skip. apply IH; [exact Hnd'|].
    destruct Hin as [E|Hin]; [congruence | exact Hin].
Qed.

Lemma merge_step_merged_from (th i : nat) (m : bmatrix) :
  merged_from m (snd (merge_step th (i, m))).
Proof.
  unfold merge_step.
  destruct (negb (existsb _ _)) eqn:Hany; [apply merged_from_refl|].
  apply negb_false_iff in Hany. apply existsb_exists in Hany.
  destruct Hany as (b & Hb & ->). apply in_map_iff in Hb.
  destruct Hb as (j0 & Hj0 & Hin0). apply in_seq in Hin0.
  rewrite !select_map_filter. cbn [snd].
  set (matched := filter (fun j => th <? common_synapses m i j)
                         (seq (i + 1) (ncols m - (i + 1)))).
  set (kept := filter (fun j => negb (existsb (Nat.eqb j) matched)) (seq 0 (ncols m))).
  assert (Hmatched : forall j, In j matched -> i < j < ncols m).
  { intros j Hj. apply filter_In in Hj. destruct Hj as [Hj _].
    apply in_seq in Hj. lia. }
  assert (Hkept : forall j, In j kept <-> j < ncols m /\ ~ In j matched).
  { intros j. unfold kept. rewrite filter_In, in_seq, negb_true_iff.
    split.
    - intros [Hj Hn]. split; [lia|]. intros Hin.
      assert (existsb (Nat.eqb j) matched = true) as Hex
        by (apply existsb_exists; exists j; split; [assumption | apply Nat.eqb_refl]).
      congruence.
    - intros [Hj Hn]. split; [lia|].
      destruct (existsb (Nat.eqb j) matched) eqn:Hex; [|reflexivity].
      apply existsb_exists in Hex. destruct Hex as (k & Hk & Hjk).
      apply Nat.eqb_eq in Hjk. subst k. contradiction. }
  assert (Hndk : NoDup kept) by (apply NoDup_filter, seq_NoDup).
  assert (Hndm : NoDup matched) by (apply NoDup_filter, seq_NoDup).
  assert (Hi : In i kept).
  { apply Hkept. split; [lia|]. intros Hin. apply Hmatched in Hin. lia. }
  split; [reflexivity|].
  exists (map (fun j => if j =? i then i :: matched else [j]) kept).
  split; [unfold ncols; cbn [columns]; rewrite !length_map; reflexivity|].
  split; [|split].
  - apply Forall_forall. intros part Hp. apply in_map_iff in Hp.
    destruct Hp as (j & <- & _). destruct (j =? i); discriminate.
  - eapply Permutation_trans; [apply concat_parts_perm; assumption|].
    apply NoDup_Permutation.
    + apply NoDup_app; [exact Hndk | exact Hndm |].
      intros j Hk Hm. apply Hkept in Hk. tauto.
    + apply seq_NoDup.
    + intros j. rewrite in_app_iff, in_seq, Hkept. split.
      * intros [[Hj _]|Hj]; [lia | apply Hmatched in Hj; lia].
      * intros Hj. destruct (in_dec Nat.eq_dec j matched) as [Hm|Hm];
          [right; exact Hm | left; split; [lia | exact Hm]].
  - intros j' r Hj Hr. unfold ncols in Hj. cbn [columns nrows] in *.
    rewrite length_map in Hj.
    unfold get at 1, column. cbn [columns].
    rewrite (nth_map_in _ _ _ [] 0) by exact Hj.
    rewrite (nth_map_in _ _ _ [] 0) by exact Hj.
    destruct (nth j' kept 0 =? i).
    + apply cell_map_seq. exact Hr.
    + simpl. rewrite orb_false_r. reflexivity.
Qed.

Lemma merge_pass_merged_from (fuel th : nat) :
  forall i m st, merge_pass fuel th (i, m) = Some st -> merged_from m (snd st).
Proof.
  induction fuel as [|fuel IH]; intros i m st; simpl.
  - destruct (i <? ncols m - 1); [discriminate|].
    intros H. inversion H; subst. apply merged_from_refl.
  - destruct (i <? ncols m - 1).
    + pose proof (merge_step_merged_from th i m) as Hs.
      destruct (merge_step th (i, m)) as [i1 m1]. simpl in Hs.
      intros H. apply IH in H. eapply merged_from_trans; eassumption.
    + intros H. inversion H; subst. apply merged_from_refl.
Qed.

Lemma threshold_loop_merged_from (fuel : nat) (ths : list nat) (nsyns : nat) :
  forall m m', threshold_loop fuel ths nsyns m = Some m' -> merged_from m m'.
Proof.
  induction ths as [|th ths IH]; intros m m'; simpl.
  - intros H. inversion H; subst. apply merged_from_refl.
  - destruct (merge_pass fuel th (0, m)) as [[i1 m1]|] eqn:Hpass; [|discriminate].
    apply merge_pass_merged_from in Hpass. simpl in Hpass.
    destruct (clustered_synapse_count m1 =? nsyns).
    + intros H. inversion H; subst. exact Hpass.
    + intros H. apply IH in H. eapply merged_from_trans; eassumption.
Qed.

(** The clusters that [merge_clusters] returns are unions of the raw
    clusters: the raw clusters fall into as many non-empty groups as there
    are merged clusters, every raw cluster into exactly one, and a synapse is
    in a merged cluster exactly when it is in one of the raw clusters of its
    group.  No synapse is added to or dropped from a cluster. *)
Theorem merge_clusters_unions (clusters out : bmatrix) :
  merge_clusters clusters = Some (Ok out) ->
  merged_from clusters out /\ 1 <= ncols out <= ncols clusters.
Proof.
  unfold merge_clusters, merge_clusters_fuel.
  destruct (Np.min_nat (synapses_per_cluster clusters)) as [min_nsyns|] eqn:Hmin;
    [|discriminate].
  destruct (threshold_loop _ _ _ clusters) as [m|] eqn:Hloop; [|discriminate].
  destruct (ncols m <=? _); [|discriminate].
  intros H. inversion H; subst out. clear H.
  pose proof (threshold_loop_inv _ _ _ _ _ Hloop) as [_ Hle].
  apply threshold_loop_merged_from in Hloop.
  split; [exact Hloop|]. split; [|exact Hle].
  destruct Hloop as (_ & parts & Hlen & Hne & Hperm & _).
  destruct (ncols clusters) as [|n] eqn:Hn.
  - exfalso. unfold Np.min_nat in Hmin.
    destruct (synapses_per_cluster clusters) eqn:Hc; [discriminate|].
    unfold synapses_per_cluster in Hc.
    assert (Hnz : nonzero clusters = []).
    { apply nonzero_nil_iff. intros r j _ Hj. lia. }
    rewrite Hnz in Hc. discriminate.
  - rewrite <- Hlen. destruct parts as [|part parts]; [|simpl; lia].
    simpl in Hperm. apply Permutation_nil in Hperm. discriminate.
Qed.

Lemma merge_clusters_unions_witness :
  merge_clusters three_raw_clusters = Some (Ok two_merged_clusters) /\
  merged_from three_raw_clusters two_merged_clusters /\
  1 <= ncols two_merged_clusters <= ncols three_raw_clusters.
Proof.
  assert (Hrun : merge_clusters three_raw_clusters = Some (Ok two_merged_clusters))
    by (vm_compute; reflexivity).
  split; [exact Hrun|].
  exact (merge_clusters_unions _ _ Hrun).
Defined.

(** ** [corr_shuffled_spike_matrix_clusters]: what a shuffle keeps *)

Lemma map_nth_seq {A : Type} (row : list A) (d : A) :
  map (fun j => nth j row d) (seq 0 (length row)) = row.
Proof.
  apply (nth_ext _ _ d d).
  - rewrite length_map, length_seq. reflexivity.
  - intros n Hn. rewrite length_map, length_seq in Hn.
    rewrite (nth_map_in _ _ _ d 0) by (rewrite length_seq; exact Hn).
    rewrite seq_nth by exact Hn. reflexivity.
Qed.

(** A surrogate data set is the correlation of the clusters with a spike
    matrix in which every neuron keeps its spikes: when the draw is a
    permutation of the time bins, each row of the shuffled matrix is a
    rearrangement of the row of that neuron, the same for every neuron. *)
Theorem shuffle_keeps_spikes {L : Lib} (spike_matrix : fmat)
      (sparse_clusters : list (list Z)) (perm : list nat) :
  Permutation perm (seq 0 (shape1 spike_matrix)) ->
  Forall (fun row => length row = shape1 spike_matrix) spike_matrix ->
  exists spike_matrix_rnd,
    corr_shuffled_spike_matrix_clusters spike_matrix sparse_clusters perm
    = corr_spike_matrix_clusters spike_matrix_rnd sparse_clusters /\
    Forall2 (@Permutation float) spike_matrix spike_matrix_rnd /\
    forall g t, g < length spike_matrix -> t < shape1 spike_matrix ->
                Fl.get spike_matrix_rnd g t = Fl.get spike_matrix g (nth t perm 0).
Proof.
  intros Hperm Hrows.
  exists (map (fun row => map (fun j => nth j row nan) perm) spike_matrix).
  split; [reflexivity|]. split.
  - generalize (shape1 spike_matrix) Hperm Hrows. clear. intros n Hperm Hrows.
    induction Hrows as [|row rows Hrow Hrows IH]; simpl; constructor; [|exact IH].
    rewrite <- (map_nth_seq row nan) at 1. rewrite Hrow.
    apply Permutation_map. apply Permutation_sym. exact Hperm.
  - intros g t Hg Ht. unfold Fl.get.
    rewrite (nth_map_in _ _ _ [] []) by exact Hg.
    rewrite (nth_map_in _ _ _ nan 0); [reflexivity|].
    rewrite (Permutation_length Hperm), length_seq. exact Ht.
Qed.

Lemma shuffle_keeps_spikes_witness :
  let L := detector_lib in
  Permutation [1; 0; 3; 2] (seq 0 (shape1 three_neurons)) /\
  Forall (fun row => length row = shape1 three_neurons) three_neurons /\
  exists spike_matrix_rnd,
    corr_shuffled_spike_matrix_clusters three_neurons [[1; 0; 1; 0]; [0; 1; 0; 1]]%Z
      [1; 0; 3; 2]
    = corr_spike_matrix_clusters spike_matrix_rnd [[1; 0; 1; 0]; [0; 1; 0; 1]]%Z /\
    Forall2 (@Permutation float) three_neurons spike_matrix_rnd /\
    forall g t, g < length three_neurons -> t < shape1 three_neurons ->
                Fl.get spike_matrix_rnd g t = Fl.get three_neurons g (nth t [1; 0; 3; 2] 0).
Proof.
  intros L.
  assert (Hperm : Permutation [1; 0; 3; 2] (seq 0 (shape1 three_neurons))).
  { simpl. apply (perm_trans (l' := [0; 1; 3; 2])); [apply perm_swap|].
    do 2 apply perm_skip. apply perm_swap. }
  assert (Hrows : Forall (fun row => length row = shape1 three_neurons) three_neurons)
    by (repeat constructor).
  split; [exact Hperm|]. split; [exact Hrows|].
  exact (@shuffle_keeps_spikes L three_neurons [[1; 0; 1; 0]; [0; 1; 0; 1]]%Z
           [1; 0; 3; 2] Hperm Hrows).
Defined.

(** ** [_create_lookups] *)

Lemma dict_get_set_same {V : Type} (d : dict V) (k : string) (v : V) :
  dict_get (dict_set d k v) k = Some v.
Proof.
  induction d as [|[k' v'] d IH]; simpl.
  - rewrite String.eqb_refl. reflexivity.
  - destruct (String.eqb_spec k' k) as [->|Hne]; simpl.
    + rewrite String.eqb_refl. reflexivity.
    + destruct (String.eqb_spec k' k); [contradiction | exact IH].
Qed.

Lemma dict_get_set_other {V : Type} (d : dict V) (k k' : string) (v : V) :
  k' <> k -> dict_get (dict_set d k v) k' = dict_get d k'.
Proof.
  intros Hne. induction d as [|[k0 v0] d IH]; simpl.
  - destruct (String.eqb_spec k k'); [congruence | reflexivity].
  - destruct (String.eqb_spec k0 k) as [->|H0]; simpl.
    + destruct (String.eqb_spec k k'); [congruence|].
      destruct (String.eqb_spec k k'); [congruence | reflexivity].
    + destruct (String.eqb_spec k0 k'); [reflexivity | exact IH].
Qed.

Lemma fold_set_get_other {A V : Type} (key : A -> string) (val : A -> V) (k : string) :
  forall (l : list A) (d : dict V),
    ~ In k (map key l) ->
    dict_get (fold_left (fun d a => dict_set d (key a) (val a)) l d) k = dict_get d k.
Proof.
  induction l as [|x l IH]; intros d Hnin; simpl; [reflexivity|].
  rewrite IH by (intros H; apply Hnin; right; exact H).
  apply dict_get_set_other. intros ->. apply Hnin. left; reflexivity.
Qed.

Lemma fold_set_get {A V : Type} (key : A -> string) (val : A -> V) :
  forall (l : list A) (d : dict V) (a : A),
    NoDup (map key l) -> In a l ->
    dict_get (fold_left (fun d a => dict_set d (key a) (val a)) l d) (key a)
    = Some (val a).
Proof.
  induction l as [|x l IH]; intros d a Hnd Hin; [destruct Hin|].
  simpl in Hnd. inversion Hnd as [|? ? Hx Hnd']; subst. simpl.
  destruct Hin as [->|Hin].
  - rewrite fold_set_get_other by exact Hx. apply dict_get_set_same.
  - apply IH; assumption.
Qed.

Lemma lookups_fold_spec (all_pre_gids : list Z) (assembly_grp : list Assembly) :
  forall (syn_idx : dict (list nat)) (fracs : dict float) (all : list (list nat)),
    fold_left
      (fun '(syn_idx, fracs, all_assembly_syn_idx) assembly =>
         let idx := in1d all_pre_gids (gids assembly) in
         let assembly_frac :=
           (Fl.of_nat (length (filter (fun b : bool => b) idx))
            / Fl.of_nat (length idx))%float in
         let fracs := dict_set fracs (assembly_key assembly) assembly_frac in
         let assembly_idx := np_where idx in
         let syn_idx := dict_set syn_idx (assembly_key assembly) assembly_idx in
         (syn_idx, fracs, all_assembly_syn_idx ++ [assembly_idx]))
      assembly_grp (syn_idx, fracs, all)
    = (fold_left (fun d a => dict_set d (assembly_key a)
                               (np_where (in1d all_pre_gids (gids a))))
                 assembly_grp syn_idx,
       fold_left (fun d a =>
                    dict_set d (assembly_key a)
                      (Fl.of_nat (length (filter (fun b : bool => b)
                                                 (in1d all_pre_gids (gids a))))
                       / Fl.of_nat (length (in1d all_pre_gids (gids a))))%float)
                 assembly_grp fracs,
       all ++ map (fun a => np_where (in1d all_pre_gids (gids a))) assembly_grp).
Proof.
  induction assembly_grp as [|a grp IH]; intros syn_idx fracs all; simpl.
  - rewrite app_nil_r. reflexivity.
  - rewrite IH. rewrite <- app_assoc. reflexivity.
Qed.

Lemma lookups_loop_spec (all_pre_gids : list Z) (assembly_grp : list Assembly) :
  lookups_loop all_pre_gids assembly_grp
  = (fold_left (fun d a => dict_set d (assembly_key a)
                             (np_where (in1d all_pre_gids (gids a))))
               assembly_grp [],
     fold_left (fun d a =>
                  dict_set d (assembly_key a)
                    (Fl.of_nat (length (filter (fun b : bool => b)
                                               (in1d all_pre_gids (gids a))))
                     / Fl.of_nat (length (in1d all_pre_gids (gids a))))%float)
               assembly_grp [],
     map (fun a => np_where (in1d all_pre_gids (gids a))) assembly_grp).
Proof.
  unfold lookups_loop. rewrite lookups_fold_spec. reflexivity.
Qed.

Lemma filter_length_split {A : Type} (f : A -> bool) (l : list A) :
  length (filter f l) + length (filter (fun x => negb (f x)) l) = length l.
Proof.
  induction l as [|x l IH]; simpl; [reflexivity|].
  destruct (f x); simpl; lia.
Qed.

Lemma non_assembly_filter (n : nat) (all : list Z) :
  Np.select (map negb (in1d (map Z.of_nat (seq 0 n)) all)) (seq 0 n)
  = filter (fun t => negb (existsb (Z.eqb (Z.of_nat t)) all)) (seq 0 n).
Proof.
  unfold in1d. rewrite !map_map. apply select_map_filter.
Qed.

(** The indices in some assembly and the indices in none add up to the
    number of synapses. *)
Lemma lookup_counts_add_up (n : nat) (xs : list nat) :
  (forall x, In x xs -> x < n) ->
  let all := Np.unique (map Z.of_nat xs) in
  length all
  + length (Np.select (map negb (in1d (map Z.of_nat (seq 0 n)) all)) (seq 0 n))
  = n.
Proof.
  intros Hlt all. rewrite non_assembly_filter.
  pose proof (filter_length_split (fun t => existsb (Z.eqb (Z.of_nat t)) all) (seq 0 n))
    as Hsplit.
  rewrite length_seq in Hsplit.
  assert (Hall : length all
                 = length (filter (fun t => existsb (Z.eqb (Z.of_nat t)) all) (seq 0 n)));
    [|rewrite Hall; exact Hsplit].
  rewrite <- (length_map Z.of_nat (filter _ _)).
  apply Permutation_length. apply NoDup_Permutation.
  - apply unique_NoDup.
  - apply NoDup_map_injective; [intros x y; apply Nat2Z.inj|].
    apply NoDup_filter, seq_NoDup.
  - intros z. rewrite in_map_iff. split.
    + intros Hz. pose proof Hz as Hz'. apply (proj1 (unique_In _ _)) in Hz'.
      apply in_map_iff in Hz'. destruct Hz' as (x & <- & Hx).
      exists x. split; [reflexivity|]. apply filter_In.
      split; [apply in_seq; specialize (Hlt x Hx); lia|].
      apply existsb_exists. exists (Z.of_nat x). split; [exact Hz | apply Z.eqb_refl].
    + intros (t & <- & Ht). apply filter_In in Ht. destruct Ht as [_ Ht].
      apply existsb_exists in Ht. destruct Ht as (y & Hy & E).
      apply Z.eqb_eq in E. rewrite E. exact Hy.
Qed.

Lemma in1d_length (a b : list Z) : length (in1d a b) = length a.
Proof. apply length_map. Qed.

Lemma np_where_in1d (a b : list Z) (t : nat) :
  In t (np_where (in1d a b)) <-> t < length a /\ In (nth t a 0%Z) b.
Proof.
  rewrite np_where_In. unfold in1d.
  destruct (Nat.lt_ge_cases t (length a)) as [Hlt|Hge].
  - rewrite (nth_map_in _ _ _ false 0%Z) by exact Hlt.
    rewrite existsb_exists. split.
    + intros (y & Hy & E). apply Z.eqb_eq in E. subst y. split; assumption.
    + intros [_ Hin]. exists (nth t a 0%Z). split; [exact Hin | apply Z.eqb_refl].
  - rewrite nth_overflow by (rewrite length_map; exact Hge).
    split; [discriminate | lia].
Qed.

Lemma concat_lookup_In (all_pre_gids : list Z) (assembly_grp : list Assembly) (t : nat) :
  In t (concat (map (fun a => np_where (in1d all_pre_gids (gids a))) assembly_grp)) <->
  t < length all_pre_gids /\
  exists a, In a assembly_grp /\ In (nth t all_pre_gids 0%Z) (gids a).
Proof.
  rewrite in_concat. split.
  - intros (l & Hl & Ht). apply in_map_iff in Hl. destruct Hl as (a & <- & Ha).
    apply np_where_in1d in Ht. destruct Ht as [Hlt Hin].
    split; [exact Hlt|]. exists a. split; assumption.
  - intros (Hlt & a & Ha & Hin).
    exists (np_where (in1d all_pre_gids (gids a))).
    split; [apply in_map_iff; exists a; split; [reflexivity | exact Ha]
           | apply np_where_in1d; split; assumption].
Qed.

(** The outcomes of [_create_lookups]: without an assembly, [np.concatenate]
    raises [ValueError]; with assemblies but no synapse, the last division is
    one of two Python integers by zero; in every other case the dicts are
    returned.  The assertion on the synapse counts cannot fail. *)
Theorem create_lookups_outcome (all_pre_gids : list Z) (assembly_grp : list Assembly) :
  (assembly_grp = [] <->
   _create_lookups all_pre_gids assembly_grp
   = inl (LookupExn (ValueError "need at least one array to concatenate"))) /\
  (assembly_grp <> [] /\ all_pre_gids = [] <->
   _create_lookups all_pre_gids assembly_grp
   = inl (ZeroDivisionError "division by zero")) /\
  (assembly_grp <> [] /\ all_pre_gids <> [] <->
   exists lookups, _create_lookups all_pre_gids assembly_grp = inr lookups) /\
  (forall msg, _create_lookups all_pre_gids assembly_grp
               <> inl (LookupExn (AssertionError msg))).
Proof.
  unfold _create_lookups. rewrite lookups_loop_spec.
  destruct assembly_grp as [|a grp].
  - cbn [map fold_left].
    split; [split; reflexivity|].
    split; [split; [intros [Hne _]; congruence | discriminate]|].
    split; [split; [intros [Hne _]; congruence | intros [r Hr]; discriminate]|].
    intros msg. discriminate.
  - cbn [map].
    set (idxs := np_where (in1d all_pre_gids (gids a))
                 :: map (fun a0 => np_where (in1d all_pre_gids (gids a0))) grp).
    assert (Hsum : length (Np.unique (map Z.of_nat (concat idxs)))
                   + length (Np.select
                               (map negb (in1d (map Z.of_nat (seq 0 (length all_pre_gids)))
                                               (Np.unique (map Z.of_nat (concat idxs)))))
                               (seq 0 (length all_pre_gids)))
                   = length all_pre_gids).
    { apply lookup_counts_add_up. intros x Hx.
      apply (concat_lookup_In all_pre_gids (a :: grp)) in Hx. apply Hx. }
    apply Nat.eqb_eq in Hsum. rewrite Hsum. cbn [negb].
    clear Hsum. clearbody idxs.
    destruct all_pre_gids as [|g pre]; cbn [length Nat.eqb].
    + split; [split; discriminate|].
      split; [split; [reflexivity | split; [discriminate | reflexivity]]|].
      split; [split; [intros [_ Hne]; congruence | intros [r Hr]; discriminate]|].
      intros msg. discriminate.
    + split; [split; discriminate|].
      split; [split; [intros [_ E]; discriminate | discriminate]|].
      split; [split; [intros _; eexists; reflexivity | intros _; split; discriminate]|].
      intros msg. discriminate.
Qed.

Lemma fmt_i_inj (a b : Z) : fmt_i a = fmt_i b -> a = b.
Proof.
  unfold fmt_i. intros H.
  assert (Hnil : forall z, Z.to_int z <> Decimal.Pos Decimal.Nil /\
                           Z.to_int z <> Decimal.Neg Decimal.Nil).
  { intros z. split; intros E; pose proof (f_equal Z.of_int E) as E';
      rewrite DecimalZ.of_to in E'; simpl in E'; subst z; discriminate E. }
  apply (f_equal NilZero.int_of_string) in H.
  rewrite !NilZero.isi in H by apply Hnil.
  inversion H as [E]. apply (f_equal Z.of_int) in E.
  rewrite !DecimalZ.of_to in E. exact E.
Qed.

Lemma assembly_key_NoDup (assembly_grp : list Assembly) :
  NoDup (map (fun a => fst (idx a)) assembly_grp) ->
  NoDup (map assembly_key assembly_grp).
Proof.
  intros H.
  change (map assembly_key assembly_grp)
    with (map (fun a => ("assembly" ++ fmt_i (Z.of_nat (fst (idx a))))%string) assembly_grp).
  rewrite <- (map_map (fun a => fst (idx a))
                      (fun n => ("assembly" ++ fmt_i (Z.of_nat n))%string)).
  apply NoDup_map_injective; [|exact H].
  intros x y E. simpl in E. inversion E as [E']. apply fmt_i_inj in E'.
  apply Nat2Z.inj. exact E'.
Qed.

Lemma np_where_length (mask : list bool) :
  length (np_where mask) = length (filter (fun b : bool => b) mask).
Proof.
  unfold np_where.
  rewrite (select_length mask (seq 0 (length mask)) mask) by apply length_seq.
  rewrite <- (map_id mask) at 1. rewrite select_map_filter. reflexivity.
Qed.

Lemma create_lookups_inr (all_pre_gids : list Z) (assembly_grp : list Assembly)
      (syn_idx : dict (list nat)) (fracs : dict float) :
  _create_lookups all_pre_gids assembly_grp = inr (syn_idx, fracs) ->
  let all := Np.unique (map Z.of_nat
               (concat (map (fun a => np_where (in1d all_pre_gids (gids a)))
                            assembly_grp))) in
  let non := filter (fun t => negb (existsb (Z.eqb (Z.of_nat t)) all))
                    (seq 0 (length all_pre_gids)) in
  syn_idx
  = dict_set (fold_left (fun d a => dict_set d (assembly_key a)
                                      (np_where (in1d all_pre_gids (gids a))))
                        assembly_grp [])
             "non_assembly" non /\
  fracs
  = dict_set (fold_left (fun d a =>
                           dict_set d (assembly_key a)
                             (Fl.of_nat (length (filter (fun b : bool => b)
                                                        (in1d all_pre_gids (gids a))))
                              / Fl.of_nat (length (in1d all_pre_gids (gids a))))%float)
                        assembly_grp [])
             "non_assembly"
             (Fl.of_nat (length non) / Fl.of_nat (length all_pre_gids))%float.
Proof.
  intros H all non. unfold _create_lookups in H. rewrite lookups_loop_spec in H.
  destruct (map (fun a => np_where (in1d all_pre_gids (gids a))) assembly_grp)
    as [|first rest] eqn:E; [discriminate|].
  rewrite non_assembly_filter in H.
  fold all in H. fold non in H.
  destruct (negb (length all + length non =? length all_pre_gids)); [discriminate|].
  destruct (length all_pre_gids =? 0); [discriminate|].
  inversion H; subst. split; reflexivity.
Qed.

(** What [_create_lookups] returns for assemblies with distinct indices: the
    entry of an assembly lists the synapses whose presynaptic neuron is in the
    assembly, the entry "non_assembly" lists the synapses whose presynaptic
    neuron is in none; each fraction is the length of the list over the number
    of synapses. *)
Theorem create_lookups_partition (all_pre_gids : list Z) (assembly_grp : list Assembly)
      (syn_idx : dict (list nat)) (fracs : dict float) :
  _create_lookups all_pre_gids assembly_grp = inr (syn_idx, fracs) ->
  NoDup (map (fun a => fst (idx a)) assembly_grp) ->
  (forall a, In a assembly_grp ->
     exists members,
       dict_get syn_idx (assembly_key a) = Some members /\
       (forall t, In t members <->
                  t < length all_pre_gids /\ In (nth t all_pre_gids 0%Z) (gids a)) /\
       dict_get fracs (assembly_key a)
       = Some (Fl.of_nat (length members) / Fl.of_nat (length all_pre_gids))%float) /\
  (exists rest,
      dict_get syn_idx "non_assembly" = Some rest /\
      (forall t, In t rest <->
                 t < length all_pre_gids /\
                 forall a, In a assembly_grp -> ~ In (nth t all_pre_gids 0%Z) (gids a)) /\
      dict_get fracs "non_assembly"
      = Some (Fl.of_nat (length rest) / Fl.of_nat (length all_pre_gids))%float).
Proof.
  intros H Hnd. apply create_lookups_inr in H. cbv zeta in H.
  destruct H as [-> ->]. apply assembly_key_NoDup in Hnd.
  split.
  - intros a Ha.
    assert (Hkey : assembly_key a <> "non_assembly"%string)
      by (unfold assembly_key; simpl; discriminate).
    exists (np_where (in1d all_pre_gids (gids a))).
    split; [|split].
    + rewrite dict_get_set_other by exact Hkey.
      apply (fold_set_get assembly_key
               (fun a => np_where (in1d all_pre_gids (gids a)))); assumption.
    + intros t. apply np_where_in1d.
    + rewrite dict_get_set_other by exact Hkey.
      rewrite np_where_length. rewrite <- (in1d_length all_pre_gids (gids a)).
      apply (fold_set_get assembly_key
               (fun a => (Fl.of_nat (length (filter (fun b : bool => b)
                                                    (in1d all_pre_gids (gids a))))
                          / Fl.of_nat (length (in1d all_pre_gids (gids a))))%float));
        assumption.
  - eexists. split; [apply dict_get_set_same|]. split; [|apply dict_get_set_same].
    intros t. rewrite filter_In, in_seq, negb_true_iff. split.
    + intros [Ht Hex]. split; [lia|]. intros a Ha Hin.
      assert (Hall : existsb (Z.eqb (Z.of_nat t))
                       (Np.unique (map Z.of_nat
                          (concat (map (fun a => np_where (in1d all_pre_gids (gids a)))
                                       assembly_grp)))) = true); [|congruence].
      apply existsb_exists. exists (Z.of_nat t). split; [|apply Z.eqb_refl].
      apply unique_In. apply in_map. apply concat_lookup_In.
      split; [lia|]. exists a. split; assumption.
    + intros [Ht Hnone]. split; [lia|].
      destruct (existsb _ _) eqn:Hex; [exfalso | reflexivity].
      apply existsb_exists in Hex. destruct Hex as (z & Hz & E).
      apply Z.eqb_eq in E. subst z.
      apply (proj1 (unique_In _ _)) in Hz. apply in_map_iff in Hz.
      destruct Hz as (t' & Et & Hz). apply Nat2Z.inj in Et. subst t'.
      apply concat_lookup_In in Hz. destruct Hz as (_ & a & Ha & Hin).
      exact (Hnone a Ha Hin).
Qed.

Lemma create_lookups_partition_witness :
  exists syn_idx fracs,
    _create_lookups six_synapses two_assemblies = inr (syn_idx, fracs) /\
    NoDup (map (fun a => fst (idx a)) two_assemblies) /\
    (forall a, In a two_assemblies ->
       exists members,
         dict_get syn_idx (assembly_key a) = Some members /\
         (forall t, In t members <->
                    t < length six_synapses /\ In (nth t six_synapses 0%Z) (gids a)) /\
         dict_get fracs (assembly_key a)
         = Some (Fl.of_nat (length members) / Fl.of_nat (length six_synapses))%float) /\
    (exists rest,
        dict_get syn_idx "non_assembly" = Some rest /\
        (forall t, In t rest <->
                   t < length six_synapses /\
                   forall a, In a two_assemblies ->
                             ~ In (nth t six_synapses 0%Z) (gids a)) /\
        dict_get fracs "non_assembly"
        = Some (Fl.of_nat (length rest) / Fl.of_nat (length six_synapses))%float).
Proof.
  assert (Hnd : NoDup (map (fun a => fst (idx a)) two_assemblies)).
  { simpl. constructor; [intros [E|[]]; discriminate|].
    constructor; [intros []|constructor]. }
  eexists. eexists. split; [vm_compute; reflexivity|]. split; [exact Hnd|].
  apply (create_lookups_partition six_synapses two_assemblies);
    [vm_compute; reflexivity | exact Hnd].
Defined.

(** ** The labels of the synapses of one label in [cluster_synapses] *)

Lemma assign_touched {A : Type} (idx : list nat) :
  forall (vals a : list A) p,
    length idx = length vals -> In p idx -> p < length a ->
    exists j v, nth_error idx j = Some p /\ nth_error vals j = Some v /\
                nth_error (assign a idx vals) p = Some v.
Proof.
  induction idx as [|i idx IH]; intros [|v vals] a p Hlen Hin Hp;
    try destruct Hin; try discriminate; rewrite assign_cons.
  - subst i. destruct (in_dec Nat.eq_dec p idx) as [Hin'|Hnin].
    + destruct (IH vals (list_set a p v) p) as (j & v' & Hj & Hv & Hres);
        [simpl in Hlen; lia | exact Hin' | rewrite list_set_length; exact Hp|].
      exists (S j), v'. repeat split; assumption.
    + exists 0, v. repeat split; try reflexivity.
      rewrite assign_untouched by exact Hnin. apply list_set_same. exact Hp.
  - destruct (IH vals (list_set a i v) p) as (j & v' & Hj & Hv & Hres);
      [simpl in Hlen; lia | assumption | rewrite list_set_length; exact Hp|].
    exists (S j), v'. repeat split; assumption.
Qed.

Lemma merge_clusters_nrows (clusters out : bmatrix) :
  merge_clusters clusters = Some (Ok out) -> nrows out = nrows clusters.
Proof.
  unfold merge_clusters, merge_clusters_fuel.
  destruct (Np.min_nat (synapses_per_cluster clusters)) as [min_nsyns|]; [|discriminate].
  destruct (threshold_loop _ _ _ clusters) as [m|] eqn:Hloop; [|discriminate].
  apply threshold_loop_inv in Hloop. destruct Hloop as [[Hn _] _].
  destruct (ncols m <=? _); [|discriminate].
  intros H. inversion H; subst. symmetry. exact Hn.
Qed.

(** The placeholder column after [results[syn_idx, i] = -1]. *)
Lemma label_placeholders (n : nat) (syn_idx : list nat) :
  (forall p, In p syn_idx -> p < n) ->
  let results := assign (repeat (-100)%Z n) syn_idx (repeat (-1)%Z (length syn_idx)) in
  length results = n /\
  (forall p, p < n -> ~ In p syn_idx -> nth_error results p = Some (-100)%Z) /\
  (forall p, In p syn_idx -> nth_error results p = Some (-1)%Z).
Proof.
  intros Hin results. unfold results.
  split; [rewrite assign_length; apply repeat_length|]. split.
  - intros p Hp Hnin. rewrite assign_untouched by exact Hnin.
    apply nth_error_repeat. exact Hp.
  - intros p Hp.
    destruct (assign_touched syn_idx (repeat (-1)%Z (length syn_idx))
                (repeat (-100)%Z n) p) as (j & v & _ & Hv & Hres);
      [rewrite repeat_length; reflexivity | exact Hp
       | rewrite repeat_length; apply Hin; exact Hp|].
    apply nth_error_In in Hv. apply repeat_spec in Hv. subst v. exact Hres.
Qed.

(** The column of [results] that [cluster_synapses] writes for one label: a
    synapse that does not belong to the label keeps the placeholder -100; a
    synapse of the label that lies in a merged cluster gets the index of a
    merged cluster that contains it; every other synapse of the label gets
    -1.  When no synapse is significant, all synapses of the label get -1. *)
Theorem label_synapses_values {S : Stats} (dists : fmat) (syn_idx : list nat)
      (cdf : Z -> float) (target_range : float) (min_nsyns : Z) (log_sign_th : float)
      (labels : list Z) :
  label_synapses dists syn_idx cdf target_range min_nsyns log_sign_th = Some (Ok labels) ->
  NoDup syn_idx ->
  (forall p, In p syn_idx -> p < length dists) ->
  length labels = length dists /\
  (forall p, p < length dists -> ~ In p syn_idx -> nth p labels 0%Z = (-100)%Z) /\
  ((existsb (fun b : bool => b)
      (significant_of (sub_dists_of dists syn_idx) cdf target_range min_nsyns log_sign_th)
    = false /\
    forall p, In p syn_idx -> nth p labels 0%Z = (-1)%Z) \/
   (exists merged,
       merge_clusters
         (raw_clusters_of (sub_dists_of dists syn_idx)
            (significant_of (sub_dists_of dists syn_idx) cdf target_range
               min_nsyns log_sign_th)
            target_range) = Some (Ok merged) /\
       forall k, k < length syn_idx ->
         (row_used merged k ->
          exists j, j < ncols merged /\ get merged k j = true /\
                    nth (nth k syn_idx 0) labels 0%Z = Z.of_nat j) /\
         (~ row_used merged k -> nth (nth k syn_idx 0) labels 0%Z = (-1)%Z))).
Proof.
  unfold label_synapses. intros H Hnd Hin.
  destruct (label_placeholders (length dists) syn_idx Hin) as (Hlen & Hout & Hown).
  set (results := assign (repeat (-100)%Z (length dists)) syn_idx
                         (repeat (-1)%Z (length syn_idx))) in *.
  destruct (existsb _ _) eqn:Hsig.
  - destruct (merge_clusters _) as [[merged|e]|] eqn:Hmerge; try discriminate.
    inversion H; subst labels. clear H.
    assert (Hrows : nrows merged = length syn_idx).
    { rewrite (merge_clusters_nrows _ _ Hmerge). unfold raw_clusters_of, sub_dists_of.
      simpl. apply length_map. }
    set (targets := map (fun rc : Z * Z => nth (Z.to_nat (fst rc)) syn_idx 0)
                        (nonzero merged)).
    assert (Htarget : forall p, In p targets ->
              exists r j, r < length syn_idx /\ j < ncols merged /\
                          get merged r j = true /\ p = nth r syn_idx 0).
    { intros p Hp. apply in_map_iff in Hp. destruct Hp as ([zr zc] & <- & Hrc).
      apply nonzero_In in Hrc. destruct Hrc as (r & j & -> & -> & Hr & Hj & G).
      exists r, j. simpl. rewrite Nat2Z.id. repeat split; try assumption; lia. }
    split; [rewrite assign_length; exact Hlen|]. split.
    + intros p Hp Hnin. apply nth_error_nth.
      rewrite assign_untouched; [apply Hout; assumption|].
      intros Ht. apply Htarget in Ht. destruct Ht as (r & j & Hr & _ & _ & ->).
      apply Hnin. apply nth_In. exact Hr.
    + right. exists merged. split; [reflexivity|].
      intros k Hk.
      assert (Hsame : forall r, r < length syn_idx ->
                                nth k syn_idx 0 = nth r syn_idx 0 -> r = k).
      { intros r Hr E. symmetry.
        apply (proj1 (NoDup_nth syn_idx 0) Hnd k r Hk Hr E). }
      split.
      * intros (j & Hj & G).
        assert (Ht : In (nth k syn_idx 0) targets).
        { apply in_map_iff. exists (Z.of_nat k, Z.of_nat j). simpl.
          rewrite Nat2Z.id. split; [reflexivity|].
          apply nonzero_In. exists k, j. repeat split; try assumption; lia. }
        destruct (assign_touched targets (map snd (nonzero merged)) results
                    (nth k syn_idx 0)) as (j0 & v & Hj0 & Hv & Hres);
          [unfold targets; rewrite !length_map; reflexivity | exact Ht
           | rewrite Hlen; apply Hin, nth_In; exact Hk|].
        unfold targets in Hj0. rewrite nth_error_map in Hj0, Hv.
        destruct (nth_error (nonzero merged) j0) as [[zr zc]|] eqn:Hrc;
          [|discriminate].
        simpl in Hj0, Hv. inversion Hj0 as [Ep]. inversion Hv; subst v.
        apply nth_error_In in Hrc. apply nonzero_In in Hrc.
        destruct Hrc as (r & j' & -> & -> & Hr & Hj' & G').
        rewrite Nat2Z.id in Ep.
        assert (r = k) by (apply Hsame; [lia | symmetry; exact Ep]). subst r.
        exists j'. split; [exact Hj'|]. split; [exact G'|].
        rewrite ?Nat2Z.id. apply nth_error_nth. exact Hres.
      * intros Hunused. apply nth_error_nth.
        rewrite assign_untouched; [apply Hown, nth_In; exact Hk|].
        intros Ht. apply Htarget in Ht. destruct Ht as (r & j & Hr & Hj & G & E).
        apply Hsame in E; [|exact Hr]. subst r.
        apply Hunused. exists j. split; assumption.
  - inversion H; subst labels. clear H.
    split; [exact Hlen|]. split.
    + intros p Hp Hnin. apply nth_error_nth. apply Hout; assumption.
    + left. split; [reflexivity|]. intros p Hp. apply nth_error_nth. apply Hown. exact Hp.
Qed.

Lemma label_synapses_values_witness :
  let S := always_significant in
  let syn_idx := [0; 1; 2; 3; 4; 5] in
  let cdf := fun _ : Z => 1%float in
  let labels := [0; 0; 0; 0; 0; -1; -100]%Z in
  label_synapses seven_synapse_dists syn_idx cdf 5%float 3%Z 5%float = Some (Ok labels) /\
  NoDup syn_idx /\
  (forall p, In p syn_idx -> p < length seven_synapse_dists) /\
  length labels = length seven_synapse_dists /\
  (forall p, p < length seven_synapse_dists -> ~ In p syn_idx ->
             nth p labels 0%Z = (-100)%Z) /\
  ((existsb (fun b : bool => b)
      (significant_of (sub_dists_of seven_synapse_dists syn_idx) cdf 5%float 3%Z 5%float)
    = false /\
    forall p, In p syn_idx -> nth p labels 0%Z = (-1)%Z) \/
   (exists merged,
       merge_clusters
         (raw_clusters_of (sub_dists_of seven_synapse_dists syn_idx)
            (significant_of (sub_dists_of seven_synapse_dists syn_idx) cdf
               5%float 3%Z 5%float)
            5%float) = Some (Ok merged) /\
       forall k, k < length syn_idx ->
         (row_used merged k ->
          exists j, j < ncols merged /\ get merged k j = true /\
                    nth (nth k syn_idx 0) labels 0%Z = Z.of_nat j) /\
         (~ row_used merged k -> nth (nth k syn_idx 0) labels 0%Z = (-1)%Z))).
Proof.
  intros S syn_idx cdf labels.
  assert (Hrun : label_synapses seven_synapse_dists syn_idx cdf 5%float 3%Z 5%float
                 = Some (Ok labels)) by (vm_compute; reflexivity).
  assert (Hnd : NoDup syn_idx) by exact (seq_NoDup 6 0).
  assert (Hin : forall p, In p syn_idx -> p < length seven_synapse_dists).
  { intros p Hp. change syn_idx with (seq 0 6) in Hp. apply in_seq in Hp.
    change (length seven_synapse_dists) with 7. lia. }
  split; [exact Hrun|]. split; [exact Hnd|]. split; [exact Hin|].
  exact (@label_synapses_values S seven_synapse_dists syn_idx cdf 5%float 3%Z 5%float
           labels Hrun Hnd Hin).
Defined.

(** ** numpy's summation *)

Lemma pairwise_sum_0 (a : list float) :
  Fl.pairwise_sum 0 a
  = if length a <? 8 then fold_left PrimFloat.add a 0%float
    else if length a <=? 128 then Fl.block_sum a else 0%float.
Proof. reflexivity. Qed.

Lemma pairwise_sum_S (fuel : nat) (a : list float) :
  Fl.pairwise_sum (S fuel) a
  = if length a <? 8 then fold_left PrimFloat.add a 0%float
    else if length a <=? 128 then Fl.block_sum a
    else (Fl.pairwise_sum fuel (firstn (length a / 2 - (length a / 2) mod 8) a)
          + Fl.pairwise_sum fuel (skipn (length a / 2 - (length a / 2) mod 8) a))%float.
Proof. reflexivity. Qed.

(** The halving of [pairwise_sum] never runs out of fuel: any bound from the
    length of the array on gives the same sum. *)
Lemma pairwise_sum_fuel (fuel : nat) (a : list float) :
  length a <= fuel -> Fl.pairwise_sum fuel a = Fl.pairwise_sum (length a) a.
Proof.
  assert (H : forall f1 f2 (l : list float),
             length l <= f1 -> length l <= f2 ->
             Fl.pairwise_sum f1 l = Fl.pairwise_sum f2 l).
  { induction f1 as [|f1 IH]; intros [|f2] l H1 H2;
      rewrite ?pairwise_sum_0, ?pairwise_sum_S;
      destruct (Nat.ltb_spec (length l) 8) as [Hs|Hs]; try reflexivity;
      destruct (Nat.leb_spec (length l) 128) as [Hb|Hb]; try reflexivity; try lia.
    pose proof (Nat.div_mod_eq (length l) 2) as Hdiv.
    pose proof (Nat.mod_upper_bound (length l) 2) as Hm2.
    pose proof (Nat.mod_upper_bound (length l / 2) 8) as Hm8.
    f_equal; apply IH; rewrite ?length_firstn, ?length_skipn; lia. }
  intros Hle. apply H; [exact Hle | apply le_n].
Qed.

(** Three neurons whose pairwise correlations all are 0.8: the nine entries
    of the array are added by the eight running sums, the result
    4.8000000000000007 over 6 is above 0.8, and a cluster whose core cells are
    two of the neurons, with mean 1.6 / 2, is not promoted. *)
Lemma promotion_follows_numpy_sum :
  let d := [[0; 0.2; 0.2]; [0.2; 0; 0.2]; [0.2; 0.2; 0]]%float in
  @within_cluster_correlations (example_lib single_cluster_cut d) [] [[1]; [1]; [0]]%Z
  = Ok [].
Proof. vm_compute. reflexivity. Qed.

(** ** [cluster_assemblies]: the range that is searched *)




